(** * Municipal-Debt: the debt-capacity and amortization engine

    A shallow embedding of [src/lib/finance.ts] (the engine the page imports)
    and of its variant with debt types (the second engine file of the
    repository, with [debtType], [allowedDebt] and [finalDebtTaken] in its
    inputs), and of what the two pages compute from them (the base case, the
    stressed scenario, their checks and the exported table), followed by the
    properties the specification states about the engines and by further
    properties of the code.

    Numbers.  The engine computes on JavaScript numbers.  They are modelled
    here as exact rationals extended with the three special values the code
    itself produces and tests ([Number.POSITIVE_INFINITY], [isFinite],
    [x || 0]): plus and minus infinity, and NaN.  The operations follow
    IEEE 754 on the special values and are exact on finite ones, so rounding
    is the one thing left out.  Zero is unsigned: the quotient of a positive
    number by zero is plus infinity.

    What exactness hides.  In binary64 a sum can absorb its smaller term
    ([1 + 1e-17] is [1]), overflow to infinity or lose its last bit, so the
    level payment [pmt] can be [0/0] or [Infinity/Infinity] where the exact
    quotient is finite, and a balance that is 0 here can be a last bit there.
    Where a conclusion below needs an amount the code computes to be finite,
    that is a hypothesis on the computed amount, not on the inputs; closed
    forms hold over exact arithmetic.  The two time-value primitives are
    also transcribed on binary64 numbers ([Binary64]), where the round trip
    of the specification can be run.

    Years.  [termYears] and [graceYears] are integers (the page clamps them
    with [Math.floor]); they are modelled as [Z], on which [Math.floor] is
    the identity. *)

From Stdlib Require Import ZArith QArith Qcanon Qround List Bool String Lia Lra
  Psatz.
From Stdlib Require Uint63 PrimFloat.
Import ListNotations.

(** ** JavaScript numbers *)

Inductive num : Type :=
| Fin (q : Qc)
| PInf
| NInf
| NaN.

Declare Scope num_scope.
Delimit Scope num_scope with num.
Bind Scope num_scope with num.

Definition Qc_ltb (x y : Qc) : bool :=
  match (x ?= y)%Qc with Lt => true | _ => false end.

Definition Qc_leb (x y : Qc) : bool :=
  match (x ?= y)%Qc with Gt => false | _ => true end.

Definition Qc_eqb (x y : Qc) : bool :=
  match (x ?= y)%Qc with Eq => true | _ => false end.

Definition of_Z (z : Z) : num := Fin (Q2Qc (inject_Z z)).

Definition zero : num := of_Z 0.
Definition one : num := of_Z 1.

(** [dec a b] is the decimal literal [a / b]: [dec 75 100] is [0.75]. *)
Definition dec (a : Z) (b : positive) : num := Fin (Q2Qc (a # b)).

(** The infinity carrying the sign of a finite non-zero [q] (NaN at zero). *)
Definition signed_inf (q : Qc) : num :=
  if Qc_ltb 0 q then PInf else if Qc_ltb q 0 then NInf else NaN.

Definition neg (a : num) : num :=
  match a with
  | Fin q => Fin (- q)
  | PInf => NInf
  | NInf => PInf
  | NaN => NaN
  end.

Definition add (a b : num) : num :=
  match a, b with
  | NaN, _ | _, NaN => NaN
  | Fin x, Fin y => Fin (x + y)
  | PInf, NInf | NInf, PInf => NaN
  | PInf, _ | _, PInf => PInf
  | NInf, _ | _, NInf => NInf
  end.

Definition sub (a b : num) : num := add a (neg b).

Definition mul (a b : num) : num :=
  match a, b with
  | NaN, _ | _, NaN => NaN
  | Fin x, Fin y => Fin (x * y)
  | Fin x, PInf | PInf, Fin x => signed_inf x
  | Fin x, NInf | NInf, Fin x => signed_inf (- x)
  | PInf, PInf | NInf, NInf => PInf
  | PInf, NInf | NInf, PInf => NInf
  end.

Definition div (a b : num) : num :=
  match a, b with
  | NaN, _ | _, NaN => NaN
  | Fin x, Fin y => if Qc_eqb y 0 then signed_inf x else Fin (x / y)
  | Fin _, (PInf | NInf) => zero
  | PInf, Fin y => if Qc_ltb y 0 then NInf else PInf
  | NInf, Fin y => if Qc_ltb y 0 then PInf else NInf
  | (PInf | NInf), (PInf | NInf) => NaN
  end.

(** [a < b], [a <= b] and [a === b]: false as soon as one side is NaN. *)
Definition ltb (a b : num) : bool :=
  match a, b with
  | NaN, _ | _, NaN => false
  | Fin x, Fin y => Qc_ltb x y
  | _, NInf => false
  | NInf, _ => true
  | PInf, _ => false
  | _, PInf => true
  end.

Definition leb (a b : num) : bool :=
  match a, b with
  | NaN, _ | _, NaN => false
  | Fin x, Fin y => Qc_leb x y
  | NInf, _ => true
  | _, PInf => true
  | _, NInf => false
  | PInf, _ => false
  end.

Definition gtb (a b : num) : bool := ltb b a.

Definition eqb (a b : num) : bool :=
  match a, b with
  | Fin x, Fin y => Qc_eqb x y
  | PInf, PInf | NInf, NInf => true
  | _, _ => false
  end.

Definition isNaN (a : num) : bool :=
  match a with NaN => true | _ => false end.

(** [Math.max] and [Math.min] of two numbers: NaN if either is. *)
Definition Math_max (a b : num) : num :=
  if isNaN a || isNaN b then NaN else if ltb a b then b else a.

Definition Math_min (a b : num) : num :=
  if isNaN a || isNaN b then NaN else if ltb b a then b else a.

Definition Math_abs (a : num) : num :=
  match a with
  | Fin q => if Qc_ltb q 0 then Fin (- q) else Fin q
  | PInf | NInf => PInf
  | NaN => NaN
  end.

Definition isFinite (a : num) : bool :=
  match a with Fin _ => true | _ => false end.

(** Truthiness of a number: zero and NaN are falsy. *)
Definition truthy (a : num) : bool :=
  match a with
  | Fin q => negb (Qc_eqb q 0)
  | PInf | NInf => true
  | NaN => false
  end.

(** [a || b] on numbers. *)
Definition or_else (a b : num) : num := if truthy a then a else b.

(** [x || 0] where [x] may be [undefined] (an optional field left out). *)
Definition opt_or_zero (x : option num) : num :=
  match x with
  | Some a => or_else a zero
  | None => zero
  end.

(** [Math.pow (x, n)] for an integer exponent [n]. *)
Definition Math_pow (x : num) (n : Z) : num :=
  match n with
  | Z0 => one
  | Zpos p =>
      match x with
      | Fin q => Fin (q ^ Pos.to_nat p)
      | PInf => PInf
      | NInf => if Z.odd n then NInf else PInf
      | NaN => NaN
      end
  | Zneg p =>
      match x with
      | Fin q => if Qc_eqb q 0 then PInf else Fin (/ (q ^ Pos.to_nat p))
      | PInf | NInf => zero
      | NaN => NaN
      end
  end.

(** [Math.floor] on an integer number of years. *)
Definition Math_floor (z : Z) : Z := z.

Notation "a + b" := (add a b) : num_scope.
Notation "a - b" := (sub a b) : num_scope.
Notation "a * b" := (mul a b) : num_scope.
Notation "a / b" := (div a b) : num_scope.
Notation "a <? b" := (ltb a b) : num_scope.
Notation "a <=? b" := (leb a b) : num_scope.
Notation "a >? b" := (gtb a b) : num_scope.

Local Open Scope num_scope.

(** ** The time-value primitives (the same in both engine files) *)

Definition pmt (rate : num) (nper : Z) (pv fv type : num) : num :=
  if (nper <=? 0)%Z then zero
  else if eqb rate zero then (pv + fv) / of_Z nper
  else
    let pow := Math_pow (one + rate) nper in
    (rate * (pv * pow + fv)) / ((one + rate * type) * (pow - one)).

Definition pv (rate : num) (nper : Z) (pmtAmt fv type : num) : num :=
  if (nper <=? 0)%Z then zero
  else if eqb rate zero then pmtAmt * of_Z nper + fv
  else
    let factor := (one - Math_pow (one + rate) (- nper)) / rate in
    pmtAmt * (one + rate * type) * factor + fv * Math_pow (one + rate) (- nper).

(** ** Schedule rows and the minimum-DSCR reducer (the same in both files) *)

Record Row : Type := mkRow {
  year : Z;
  begBal : num;
  interest : num;
  principal : num;
  debtService : num;
  revenue : num;
  opex : num;
  availForDS : num;
  dscr : option num;
  reserveTarget : num;
  reserveAlloc : num;
  reserveBeg : num;
  reserveEnd : num;
  surplus : num
}.

(** [r.debtService > 0 && r.dscr != null], with the value when it holds. *)
Definition qualifying (r : Row) : option num :=
  if debtService r >? zero then dscr r else None.

Definition minDSCR (rows : list Row) : num :=
  let min :=
    fold_left
      (fun min r =>
         match qualifying r with
         | Some d => Math_min min d
         | None => min
         end)
      rows PInf in
  if isFinite min then min else zero.

Inductive PaymentType : Type := annuity | equal_principal.

Definition is_annuity (p : PaymentType) : bool :=
  match p with annuity => true | equal_principal => false end.

(** The variables the year loop of [buildSchedule] updates. *)
Record Loop : Type := mkLoop {
  prevBeg : num;
  cur_revenue : num;
  cur_opex : num;
  cur_reserveBeg : num
}.

(** [for (let y = y0; y <= n; y++)], as [k] iterations starting at [y]. *)
Fixpoint run_loop (body : Z -> Loop -> Row * Loop) (k : nat) (y : Z) (s : Loop)
  : list Row :=
  match k with
  | O => []
  | S k' => let (r, s') := body y s in r :: run_loop body k' (y + 1)%Z s'
  end.

Definition binding_statutory : string := "75% of prior revenue".
Definition binding_coverage : string := "DSCR constraint".

(** ** src/lib/finance.ts *)

Module Finance.

Record Inputs : Type := mkInputs {
  localRevenuePAD : num;
  balancingFundPerimbangan : num;
  otherLegalRevenue : num;
  financingReceipts : num;
  financingExpenditures : num;
  personnelExpenses : num;
  goodsServicesExpenses : num;
  capitalExpenditures : num;
  revGrowth : num;
  opexGrowth : num;
  rate : num;
  termYears : Z;
  paymentType : PaymentType;
  reserveRatio : num;
  minDSCR : num;
  initReserve : num;
  graceYears : Z
}.

Definition getTotalRevenue (i : Inputs) : num :=
  localRevenuePAD i + balancingFundPerimbangan i + otherLegalRevenue i.

Definition getNettFinancing (i : Inputs) : num :=
  financingReceipts i - financingExpenditures i.

Definition getTotalOpex (i : Inputs) : num :=
  personnelExpenses i + goodsServicesExpenses i + capitalExpenditures i.

Record Capacity : Type := mkCapacity {
  NOI : num;
  totalRevenue : num;
  nettFinancing : num;
  totalOpex : num;
  maxDebtRevenueRule : num;
  maxAnnualDS : num;
  dscrPV : num;
  allowedDebt : num;
  binding : string
}.

Definition computeCapacity (i : Inputs) : Capacity :=
  let totalRevenue := getTotalRevenue i in
  let nettFinancing := getNettFinancing i in
  let totalOpex := getTotalOpex i in
  let NOI := Math_max (totalRevenue + nettFinancing - totalOpex) zero in
  let maxDebtRevenueRule := dec 75 100 * totalRevenue in
  let maxAnnualDS := NOI / minDSCR i in
  let amortYears := Z.max (termYears i - graceYears i) 0 in
  let pvAnnuityAfterGrace :=
    if (0 <? amortYears)%Z
    then pv (rate i) amortYears maxAnnualDS zero zero
         / Math_pow (one + rate i) (graceYears i)
    else zero in
  let capFromInterestOnly :=
    if rate i >? zero then maxAnnualDS / rate i else PInf in
  let dscrPV := Math_min (or_else pvAnnuityAfterGrace zero) capFromInterestOnly in
  let allowedDebt := Math_max zero (Math_min maxDebtRevenueRule dscrPV) in
  let binding :=
    if Math_abs (allowedDebt - maxDebtRevenueRule) <? dec 1 1000000
    then binding_statutory else binding_coverage in
  mkCapacity NOI totalRevenue nettFinancing totalOpex maxDebtRevenueRule
             maxAnnualDS dscrPV allowedDebt binding.

(** One pass through the body of the year loop. *)
Definition body (i : Inputs) (n amortYears : Z) (annuityPmt epPrincipal : num)
  (y : Z) (s : Loop) : Row * Loop :=
  let inGrace := (y <=? graceYears i)%Z in
  let interest := if (y <=? termYears i)%Z then prevBeg s * rate i else zero in
  let principal :=
    if negb inGrace && (y <=? termYears i)%Z then
      if is_annuity (paymentType i)
      then Math_max zero (Math_min (prevBeg s) (annuityPmt - interest))
      else Math_max zero (Math_min (prevBeg s) epPrincipal)
    else zero in
  let debtService := if inGrace then interest else interest + principal in
  let nextYearDS :=
    if (y <? n)%Z then
      let nextBeg := Math_max (prevBeg s - principal) zero in
      let nextInterest := nextBeg * rate i in
      let nextPrincipal :=
        if (y + 1 <=? graceYears i)%Z then zero
        else if is_annuity (paymentType i) && (0 <? amortYears)%Z
        then Math_max zero (Math_min nextBeg (annuityPmt - nextInterest))
        else if (0 <? amortYears)%Z
        then Math_max zero (Math_min nextBeg epPrincipal)
        else zero in
      if (y + 1 <=? graceYears i)%Z then nextInterest
      else nextInterest + nextPrincipal
    else zero in
  let reserveTarget := nextYearDS in
  let reserveAlloc :=
    Math_max (reserveTarget - cur_reserveBeg s) zero * reserveRatio i in
  let reserveEnd := cur_reserveBeg s + reserveAlloc in
  let availForDS := cur_revenue s - cur_opex s in
  let dscr := if debtService >? zero then Some (availForDS / debtService)
              else None in
  let surplus := cur_revenue s - cur_opex s - debtService - reserveAlloc in
  (mkRow y (prevBeg s) interest principal debtService (cur_revenue s)
         (cur_opex s) availForDS dscr reserveTarget reserveAlloc
         (cur_reserveBeg s) reserveEnd surplus,
   mkLoop (Math_max (prevBeg s - principal) zero)
          (cur_revenue s * (one + revGrowth i))
          (cur_opex s * (one + opexGrowth i))
          reserveEnd).

Definition schedule_n (i : Inputs) : Z := Z.max 0 (Math_floor (termYears i)).

Definition schedule_amortYears (i : Inputs) : Z :=
  Z.max 0 (Math_floor (termYears i - graceYears i)).

Definition schedule_annuityPmt (i : Inputs) (allowedDebt : num) : num :=
  if is_annuity (paymentType i) && (0 <? schedule_amortYears i)%Z
  then pmt (rate i) (schedule_amortYears i) allowedDebt zero zero else zero.

Definition schedule_epPrincipal (i : Inputs) (allowedDebt : num) : num :=
  if negb (is_annuity (paymentType i)) && (0 <? schedule_amortYears i)%Z
  then allowedDebt / of_Z (schedule_amortYears i) else zero.

Definition schedule_init (i : Inputs) (allowedDebt : num) : Loop :=
  mkLoop allowedDebt
         ((getTotalRevenue i + getNettFinancing i) * (one + revGrowth i))
         (getTotalOpex i * (one + opexGrowth i))
         (initReserve i).

Definition buildSchedule (i : Inputs) (allowedDebt : num) : list Row :=
  let n := schedule_n i in
  let amortYears := schedule_amortYears i in
  let annuityPmt := schedule_annuityPmt i allowedDebt in
  let epPrincipal := schedule_epPrincipal i allowedDebt in
  run_loop (body i n amortYears annuityPmt epPrincipal)
           (Z.to_nat n) 1%Z (schedule_init i allowedDebt).

End Finance.

(** ** The engine variant with debt types *)

Module Variant.

Inductive DebtType : Type := bond | ptsmi_other.

Definition is_bond (d : DebtType) : bool :=
  match d with bond => true | ptsmi_other => false end.

Record Inputs : Type := mkInputs {
  localRevenuePAD : num;
  balancingFundPerimbangan : num;
  otherTransferCentral : num;
  transferSharingTax : num;
  otherFinancialAid : num;
  otherLegalRevenue : num;
  financingReceipts : num;
  financingExpenditures : num;
  operatingExpenses : num;
  personnelExpenses : option num;
  goodsServicesExpenses : option num;
  capitalExpenditures : option num;
  revGrowth : num;
  opexGrowth : num;
  rate : num;
  termYears : Z;
  paymentType : PaymentType;
  debtType : DebtType;
  allowedDebt : num;
  finalDebtTaken : num;
  reserveRatio : num;
  minDSCR : num;
  initReserve : num;
  graceYears : Z
}.

Definition getTotalRevenue (i : Inputs) : num :=
  localRevenuePAD i + balancingFundPerimbangan i + otherTransferCentral i
  + transferSharingTax i + otherFinancialAid i + otherLegalRevenue i.

Definition getNettFinancing (i : Inputs) : num :=
  financingReceipts i - financingExpenditures i.

Definition getTotalOpex (i : Inputs) : num :=
  if truthy (operatingExpenses i) then operatingExpenses i
  else opt_or_zero (personnelExpenses i)
       + opt_or_zero (goodsServicesExpenses i)
       + opt_or_zero (capitalExpenditures i).

Record Capacity : Type := mkCapacity {
  NOI : num;
  totalRevenue : num;
  nettFinancing : num;
  totalOpex : num;
  maxDebtRevenueRule : num;
  maxAnnualDS : num;
  dscrPV : num;
  calculatedMaxDebt : num;
  binding : string
}.

Definition computeCapacity (i : Inputs) : Capacity :=
  let totalRevenue := getTotalRevenue i in
  let nettFinancing := getNettFinancing i in
  let totalOpex := getTotalOpex i in
  let NOI := Math_max (totalRevenue + nettFinancing - totalOpex) zero in
  let maxDebtRevenueRule := dec 75 100 * totalRevenue in
  let maxAnnualDS := NOI / minDSCR i in
  let amortYears := Z.max (termYears i - graceYears i) 0 in
  let pvAnnuityAfterGrace :=
    if (0 <? amortYears)%Z
    then pv (rate i) amortYears maxAnnualDS zero zero
         / Math_pow (one + rate i) (graceYears i)
    else zero in
  let capFromInterestOnly :=
    if rate i >? zero then maxAnnualDS / rate i else PInf in
  let dscrPV := Math_min (or_else pvAnnuityAfterGrace zero) capFromInterestOnly in
  let allowedDebt := Math_max zero (Math_min maxDebtRevenueRule dscrPV) in
  let binding :=
    if Math_abs (allowedDebt - maxDebtRevenueRule) <? dec 1 1000000
    then binding_statutory else binding_coverage in
  mkCapacity NOI totalRevenue nettFinancing totalOpex maxDebtRevenueRule
             maxAnnualDS dscrPV allowedDebt binding.

(** [Math.min (i.finalDebtTaken, i.allowedDebt)]: the principal amortized. *)
Definition actualDebt (i : Inputs) : num :=
  Math_min (finalDebtTaken i) (allowedDebt i).

(** One pass through the body of the year loop. *)
Definition body (i : Inputs) (n amortYears : Z) (annuityPmt epPrincipal : num)
  (y : Z) (s : Loop) : Row * Loop :=
  let inGrace := (y <=? graceYears i)%Z in
  let interest :=
    if (y <=? termYears i)%Z then
      if is_bond (debtType i) then actualDebt i * rate i
      else prevBeg s * rate i
    else zero in
  let principal :=
    if negb inGrace && (y <=? termYears i)%Z then
      if is_bond (debtType i)
      then Math_max zero
             (Math_min (prevBeg s) (actualDebt i / of_Z (termYears i)))
      else if is_annuity (paymentType i)
      then Math_max zero (Math_min (prevBeg s) (annuityPmt - interest))
      else Math_max zero (Math_min (prevBeg s) epPrincipal)
    else zero in
  let debtService := if inGrace then interest else interest + principal in
  let nextYearDS :=
    if (y <? n)%Z then
      let nextBeg := Math_max (prevBeg s - principal) zero in
      let nextInterest :=
        if is_bond (debtType i) then actualDebt i * rate i
        else nextBeg * rate i in
      let nextPrincipal :=
        if (y + 1 <=? graceYears i)%Z then zero
        else if is_bond (debtType i)
        then Math_max zero
               (Math_min nextBeg (actualDebt i / of_Z (termYears i)))
        else if is_annuity (paymentType i) && (0 <? amortYears)%Z
        then Math_max zero (Math_min nextBeg (annuityPmt - nextInterest))
        else if (0 <? amortYears)%Z
        then Math_max zero (Math_min nextBeg epPrincipal)
        else zero in
      if (y + 1 <=? graceYears i)%Z then nextInterest
      else nextInterest + nextPrincipal
    else zero in
  let reserveTarget := nextYearDS in
  let reserveAlloc :=
    Math_max (reserveTarget - cur_reserveBeg s) zero * reserveRatio i in
  let reserveEnd := cur_reserveBeg s + reserveAlloc in
  let availForDS := cur_revenue s - cur_opex s in
  let dscr := if debtService >? zero then Some (availForDS / debtService)
              else None in
  let surplus := cur_revenue s - cur_opex s - debtService - reserveAlloc in
  (mkRow y (prevBeg s) interest principal debtService (cur_revenue s)
         (cur_opex s) availForDS dscr reserveTarget reserveAlloc
         (cur_reserveBeg s) reserveEnd surplus,
   mkLoop (Math_max (prevBeg s - principal) zero)
          (cur_revenue s * (one + revGrowth i))
          (cur_opex s * (one + opexGrowth i))
          reserveEnd).

Definition schedule_n (i : Inputs) : Z := Z.max 0 (Math_floor (termYears i)).

Definition schedule_amortYears (i : Inputs) : Z :=
  Z.max 0 (Math_floor (termYears i - graceYears i)).

Definition schedule_annuityPmt (i : Inputs) : num :=
  if is_annuity (paymentType i) && (0 <? schedule_amortYears i)%Z
  then pmt (rate i) (schedule_amortYears i) (actualDebt i) zero zero else zero.

Definition schedule_epPrincipal (i : Inputs) : num :=
  if negb (is_annuity (paymentType i)) && (0 <? schedule_amortYears i)%Z
  then actualDebt i / of_Z (schedule_amortYears i) else zero.

Definition schedule_init (i : Inputs) : Loop :=
  mkLoop (actualDebt i)
         ((getTotalRevenue i + getNettFinancing i) * (one + revGrowth i))
         (getTotalOpex i * (one + opexGrowth i))
         (initReserve i).

Definition buildSchedule (i : Inputs) : list Row :=
  let n := schedule_n i in
  let amortYears := schedule_amortYears i in
  let annuityPmt := schedule_annuityPmt i in
  let epPrincipal := schedule_epPrincipal i in
  run_loop (body i n amortYears annuityPmt epPrincipal)
           (Z.to_nat n) 1%Z (schedule_init i).

End Variant.

(** ** The pages *)

(** The two pages (src/unnamed/part_001 over [src/lib/finance.ts],
    src/unnamed/part_000 over the engine with debt types) compute a base case
    and a stressed scenario from the inputs, two checks on the base case, and
    export the schedule as a table.  What they compute is modelled here; what
    they draw is not. *)

(** [a >= b] on numbers. *)
Definition geb (a b : num) : bool := leb b a.

Notation "a >=? b" := (geb a b) : num_scope.

(** [Math.round]: the nearest integer, a half rounded up. *)
Definition Math_round (a : num) : num :=
  match a with
  | Fin q => of_Z (Qfloor (this q + (1 # 2))%Q)
  | _ => a
  end.

(** [rows.slice (0, end)] for an integer [end]. *)
Definition slice_0 {A : Type} (rows : list A) (e : Z) : list A :=
  let len := Z.of_nat (List.length rows) in
  let final := if (e <? 0)%Z then Z.max (len + e) 0 else Z.min e len in
  firstn (Z.to_nat final) rows.

(** What [base] and [stressed] hold. *)
Record Analysis (C : Type) : Type := mkAnalysis {
  cap : C;
  sched : list Row;
  minD : num
}.

Arguments mkAnalysis {C}.
Arguments cap {C}.
Arguments sched {C}.
Arguments minD {C}.

(** A cell of the exported table: a number or a text. *)
Inductive Cell : Type :=
| CNum (x : num)
| CText (s : string).

Definition headers : list string :=
  ["Year"; "Beg Balance"; "Interest"; "Principal"; "Debt Service"; "Revenue";
   "O&M"; "Available for DS"; "DSCR"; "Reserve Target"; "Reserve Allocation";
   "Reserve Begin"; "Reserve End"; "Surplus/Deficit"]%string.

(** [r.dscr ?? ''] *)
Definition dscr_or_empty (r : Row) : Cell :=
  match dscr r with
  | Some d => CNum d
  | None => CText EmptyString
  end.

(** [typeof x === 'number' ? Math.round (x) : x] *)
Definition round_cell (c : Cell) : Cell :=
  match c with
  | CNum x => CNum (Math_round x)
  | CText s => CText s
  end.

(** The cells of one line of [downloadCSV] (the same function in every page),
    before they are joined with commas. *)
Definition csv_cells (r : Row) : list Cell :=
  map round_cell
    [CNum (of_Z (year r)); CNum (begBal r); CNum (interest r);
     CNum (principal r); CNum (debtService r); CNum (revenue r);
     CNum (opex r); CNum (availForDS r); dscr_or_empty r;
     CNum (reserveTarget r); CNum (reserveAlloc r); CNum (reserveBeg r);
     CNum (reserveEnd r); CNum (surplus r)].

(** The page over [src/lib/finance.ts].  Its state carries two more fields,
    [debtType] and [finalDebtTaken], which that engine does not read. *)
Module Page.

Definition base (inputs : Finance.Inputs) : Analysis Finance.Capacity :=
  let cap := Finance.computeCapacity inputs in
  let sched := Finance.buildSchedule inputs (Finance.allowedDebt cap) in
  let minD := minDSCR sched in
  mkAnalysis cap sched minD.

(** The inputs [i] of the stressed scenario: [{ ...inputs, rate,
    localRevenuePAD, personnelExpenses }]. *)
Definition stressed_inputs (inputs : Finance.Inputs)
  (rateShockBps revShockPct opexShockPct : num) : Finance.Inputs :=
  Finance.mkInputs
    (Finance.localRevenuePAD inputs * (one + revShockPct / of_Z 100))
    (Finance.balancingFundPerimbangan inputs)
    (Finance.otherLegalRevenue inputs)
    (Finance.financingReceipts inputs)
    (Finance.financingExpenditures inputs)
    (Finance.personnelExpenses inputs * (one + opexShockPct / of_Z 100))
    (Finance.goodsServicesExpenses inputs)
    (Finance.capitalExpenditures inputs)
    (Finance.revGrowth inputs)
    (Finance.opexGrowth inputs)
    (Math_max zero (Finance.rate inputs + rateShockBps / of_Z 10000))
    (Finance.termYears inputs)
    (Finance.paymentType inputs)
    (Finance.reserveRatio inputs)
    (Finance.minDSCR inputs)
    (Finance.initReserve inputs)
    (Finance.graceYears inputs).

Definition stressed (inputs : Finance.Inputs)
  (rateShockBps revShockPct opexShockPct : num) : Analysis Finance.Capacity :=
  let i := stressed_inputs inputs rateShockBps revShockPct opexShockPct in
  let cap := Finance.computeCapacity i in
  let sched := Finance.buildSchedule i (Finance.allowedDebt cap) in
  let minD := minDSCR sched in
  mkAnalysis cap sched minD.

Definition dscrOk (inputs : Finance.Inputs) : bool :=
  (minD (base inputs) >=? Finance.minDSCR inputs)
  && (minD (base inputs) >? zero).

Definition seventyFiveOk (inputs : Finance.Inputs) : bool :=
  Finance.allowedDebt (cap (base inputs))
  <=? dec 75 100 * Finance.getTotalRevenue inputs + dec 1 1000000.

(** [stressed.minD >= inputs.minDSCR] *)
Definition resilient (inputs : Finance.Inputs)
  (rateShockBps revShockPct opexShockPct : num) : bool :=
  minD (stressed inputs rateShockBps revShockPct opexShockPct)
  >=? Finance.minDSCR inputs.

(** [base.sched.slice (0, inputs.termYears)]: the rows shown. *)
Definition shown (inputs : Finance.Inputs) : list Row :=
  slice_0 (sched (base inputs)) (Finance.termYears inputs).

End Page.

(** The page over the engine with debt types. *)
Module VariantPage.

Definition base (inputs : Variant.Inputs) : Analysis Variant.Capacity :=
  let cap := Variant.computeCapacity inputs in
  let sched := Variant.buildSchedule inputs in
  let minD := minDSCR sched in
  mkAnalysis cap sched minD.

(** The inputs [i] of the stressed scenario: the six revenue components and
    the operating expense are shocked. *)
Definition stressed_inputs (inputs : Variant.Inputs)
  (rateShockBps revShockPct opexShockPct : num) : Variant.Inputs :=
  Variant.mkInputs
    (Variant.localRevenuePAD inputs * (one + revShockPct / of_Z 100))
    (Variant.balancingFundPerimbangan inputs * (one + revShockPct / of_Z 100))
    (Variant.otherTransferCentral inputs * (one + revShockPct / of_Z 100))
    (Variant.transferSharingTax inputs * (one + revShockPct / of_Z 100))
    (Variant.otherFinancialAid inputs * (one + revShockPct / of_Z 100))
    (Variant.otherLegalRevenue inputs * (one + revShockPct / of_Z 100))
    (Variant.financingReceipts inputs)
    (Variant.financingExpenditures inputs)
    (Variant.operatingExpenses inputs * (one + opexShockPct / of_Z 100))
    (Variant.personnelExpenses inputs)
    (Variant.goodsServicesExpenses inputs)
    (Variant.capitalExpenditures inputs)
    (Variant.revGrowth inputs)
    (Variant.opexGrowth inputs)
    (Math_max zero (Variant.rate inputs + rateShockBps / of_Z 10000))
    (Variant.termYears inputs)
    (Variant.paymentType inputs)
    (Variant.debtType inputs)
    (Variant.allowedDebt inputs)
    (Variant.finalDebtTaken inputs)
    (Variant.reserveRatio inputs)
    (Variant.minDSCR inputs)
    (Variant.initReserve inputs)
    (Variant.graceYears inputs).

Definition stressed (inputs : Variant.Inputs)
  (rateShockBps revShockPct opexShockPct : num) : Analysis Variant.Capacity :=
  let i := stressed_inputs inputs rateShockBps revShockPct opexShockPct in
  let cap := Variant.computeCapacity i in
  let sched := Variant.buildSchedule i in
  let minD := minDSCR sched in
  mkAnalysis cap sched minD.

Definition dscrOk (inputs : Variant.Inputs) : bool :=
  (minD (base inputs) >=? Variant.minDSCR inputs)
  && (minD (base inputs) >? zero).

Definition seventyFiveOk (inputs : Variant.Inputs) : bool :=
  Variant.allowedDebt inputs
  <=? dec 75 100 * Variant.getTotalRevenue inputs + dec 1 1000000.

End VariantPage.

(** ** The time-value primitives on binary64 numbers *)

(** The same two functions on IEEE 754 binary64 numbers, the numbers the
    source computes on: [+], [-], [*], [/] and the comparisons are the
    machine's.  [Math.pow] is not an IEEE operation and implementations
    differ in its last bit; for an integer exponent it is taken here as the
    repeated product, which is what every implementation returns where that
    product is exact (a base of 1, a power of two).  The number of periods
    is an integer, converted to a number where the source divides or
    multiplies by it. *)
Module Binary64.

Import PrimFloat.
Local Open Scope float_scope.

Definition of_Z (z : Z) : float :=
  match z with
  | Z0 => 0
  | Zpos _ => of_uint63 (Uint63.of_Z z)
  | Zneg _ => - of_uint63 (Uint63.of_Z (- z))
  end.

Definition Math_pow (x : float) (n : Z) : float :=
  match n with
  | Z0 => 1
  | Zpos p => Pos.iter (fun acc => acc * x) 1 p
  | Zneg p => 1 / Pos.iter (fun acc => acc * x) 1 p
  end.

Definition pmt (rate : float) (nper : Z) (pv fv type : float) : float :=
  if (nper <=? 0)%Z then 0
  else if rate =? 0 then (pv + fv) / of_Z nper
  else
    let pow := Math_pow (1 + rate) nper in
    (rate * (pv * pow + fv)) / ((1 + rate * type) * (pow - 1)).

Definition pv (rate : float) (nper : Z) (pmtAmt fv type : float) : float :=
  if (nper <=? 0)%Z then 0
  else if rate =? 0 then pmtAmt * of_Z nper + fv
  else
    let factor := (1 - Math_pow (1 + rate) (- nper)) / rate in
    pmtAmt * (1 + rate * type) * factor + fv * Math_pow (1 + rate) (- nper).

End Binary64.

(** * Vocabulary of the specification *)

(** ** The capacity calculator (section 4.2 of the specification) *)

Definition spec_NOI (totalRevenue netFinancing totalOpex : num) : num :=
  Math_max (totalRevenue + netFinancing - totalOpex) zero.

Definition spec_maxDebtRevenueRule (totalRevenue : num) : num :=
  dec 75 100 * totalRevenue.

Definition spec_pvAfterGrace (rate : num) (termYears graceYears : Z)
  (maxAnnualDS : num) : num :=
  let amortYears := Z.max (termYears - graceYears) 0 in
  if (0 <? amortYears)%Z
  then pv rate amortYears maxAnnualDS zero zero
       / Math_pow (one + rate) graceYears
  else zero.

Definition spec_capInterestOnly (rate maxAnnualDS : num) : num :=
  if rate >? zero then maxAnnualDS / rate else PInf.

(** Steps 10 and 11 as written: [dscrCeiling = min (pvAfterGrace,
    capInterestOnly)] and [allowedDebt = max (0, min (maxDebtRevenueRule,
    dscrCeiling))]. *)
Definition spec_allowedDebt (totalRevenue maxAnnualDS rate : num)
  (termYears graceYears : Z) : num :=
  let dscrCeiling :=
    Math_min (spec_pvAfterGrace rate termYears graceYears maxAnnualDS)
             (spec_capInterestOnly rate maxAnnualDS) in
  Math_max zero (Math_min (spec_maxDebtRevenueRule totalRevenue) dscrCeiling).

(** The same with the present value replaced by 0 when it is NaN (or 0). *)
Definition guarded_allowedDebt (totalRevenue maxAnnualDS rate : num)
  (termYears graceYears : Z) : num :=
  let dscrCeiling :=
    Math_min (or_else (spec_pvAfterGrace rate termYears graceYears maxAnnualDS)
                      zero)
             (spec_capInterestOnly rate maxAnnualDS) in
  Math_max zero (Math_min (spec_maxDebtRevenueRule totalRevenue) dscrCeiling).

(** What C1 states, for the engine of [src/lib/finance.ts]. *)
Definition capacity_as_specified (i : Finance.Inputs) : Prop :=
  let c := Finance.computeCapacity i in
  Finance.NOI c
  = spec_NOI (Finance.getTotalRevenue i) (Finance.getNettFinancing i)
             (Finance.getTotalOpex i) /\
  Finance.allowedDebt c
  = spec_allowedDebt (Finance.getTotalRevenue i)
      (Finance.NOI c / Finance.minDSCR i) (Finance.rate i)
      (Finance.termYears i) (Finance.graceYears i).

(** ** The binding constraint *)

Definition tolerance : num := dec 1 1000000.

(** [a] and [b] differ by less than [1e-6]. *)
Definition within_absolute_tolerance (a b : num) : bool :=
  Math_abs (a - b) <? tolerance.

(** [a] and [b] differ by less than [1e-6] of the larger magnitude. *)
Definition within_relative_tolerance (a b : num) : bool :=
  Math_abs (a - b) <? tolerance * Math_max (Math_abs a) (Math_abs b).

(** What C9 states: the label follows a relative tolerance. *)
Definition binding_by_relative_tolerance (i : Finance.Inputs) : Prop :=
  let c := Finance.computeCapacity i in
  (Finance.binding c = binding_statutory <->
   within_relative_tolerance (Finance.allowedDebt c)
                             (Finance.maxDebtRevenueRule c) = true) /\
  (Finance.binding c = binding_coverage <->
   within_relative_tolerance (Finance.allowedDebt c)
                             (Finance.maxDebtRevenueRule c) = false).

(** ** Monotonicity of the ceiling *)

(** The allowed-debt ceiling [computeCapacity] returns. *)
Definition ceiling (i : Finance.Inputs) : num :=
  Finance.allowedDebt (Finance.computeCapacity i).

(** The inputs [i] with another coverage floor, all else the same. *)
Definition with_minDSCR (i : Finance.Inputs) (d : num) : Finance.Inputs :=
  Finance.mkInputs
    (Finance.localRevenuePAD i) (Finance.balancingFundPerimbangan i)
    (Finance.otherLegalRevenue i)
    (Finance.financingReceipts i) (Finance.financingExpenditures i)
    (Finance.personnelExpenses i) (Finance.goodsServicesExpenses i)
    (Finance.capitalExpenditures i)
    (Finance.revGrowth i) (Finance.opexGrowth i)
    (Finance.rate i) (Finance.termYears i) (Finance.paymentType i)
    (Finance.reserveRatio i) d (Finance.initReserve i)
    (Finance.graceYears i).

(** The inputs [i] with other revenue components, all else the same. *)
Definition with_revenue (i : Finance.Inputs) (pad perimbangan other : num)
  : Finance.Inputs :=
  Finance.mkInputs
    pad perimbangan other
    (Finance.financingReceipts i) (Finance.financingExpenditures i)
    (Finance.personnelExpenses i) (Finance.goodsServicesExpenses i)
    (Finance.capitalExpenditures i)
    (Finance.revGrowth i) (Finance.opexGrowth i)
    (Finance.rate i) (Finance.termYears i) (Finance.paymentType i)
    (Finance.reserveRatio i) (Finance.minDSCR i) (Finance.initReserve i)
    (Finance.graceYears i).

(** The amounts and the rate from which the capacity is computed are
    finite. *)
Definition finite_capacity_inputs (i : Finance.Inputs) : Prop :=
  isFinite (Finance.localRevenuePAD i) = true /\
  isFinite (Finance.balancingFundPerimbangan i) = true /\
  isFinite (Finance.otherLegalRevenue i) = true /\
  isFinite (Finance.financingReceipts i) = true /\
  isFinite (Finance.financingExpenditures i) = true /\
  isFinite (Finance.personnelExpenses i) = true /\
  isFinite (Finance.goodsServicesExpenses i) = true /\
  isFinite (Finance.capitalExpenditures i) = true /\
  isFinite (Finance.rate i) = true.

(** The amounts [computeCapacity] works from are numbers: the total revenue
    it computes is finite, revenue plus net financing less operating expense
    as it computes it is not NaN, and the rate and the coverage floor are
    finite, the floor other than 0. *)
Definition capacity_amounts_defined (i : Finance.Inputs) : Prop :=
  isFinite (Finance.getTotalRevenue i) = true /\
  isNaN (Finance.getTotalRevenue i + Finance.getNettFinancing i
         - Finance.getTotalOpex i) = false /\
  isFinite (Finance.rate i) = true /\
  isFinite (Finance.minDSCR i) = true /\
  eqb (Finance.minDSCR i) zero = false.

(** The same, and the level payment [annuityPmt] that [buildSchedule]
    computes for the allowed debt is finite. *)
Definition schedule_amounts_defined (i : Finance.Inputs) : Prop :=
  capacity_amounts_defined i /\
  isFinite (Finance.schedule_annuityPmt i (ceiling i)) = true.

(** What the first half of C5 states: raising the coverage floor from [d] to [d']
    does not raise the ceiling. *)
Definition minDSCR_never_raises_ceiling (i : Finance.Inputs) (d d' : num)
  : Prop :=
  (d <=? d') = true ->
  (ceiling (with_minDSCR i d) <? ceiling (with_minDSCR i d')) = false.

(** ** Total operating expense in the engine with debt types *)

(** An optional component, counted as 0 when it is missing. *)
Definition component (x : option num) : num :=
  match x with Some v => v | None => zero end.

(** A component as the engine counts it: 0 when it is missing, and also
    when it is NaN. *)
Definition counted (x : option num) : num :=
  match x with
  | Some v => if isNaN v then zero else v
  | None => zero
  end.

(** What C10 states: with a zero override the result is the sum of the
    components, a missing one counted as 0. *)
Definition opex_as_specified (i : Variant.Inputs) : Prop :=
  Variant.operatingExpenses i = zero ->
  Variant.getTotalOpex i
  = component (Variant.personnelExpenses i)
    + component (Variant.goodsServicesExpenses i)
    + component (Variant.capitalExpenditures i).

(** ** The round trip of the time-value primitives *)

(** [pmt (rate, n, pv (rate, n, P))] is within the relative tolerance [tol]
    of [P], on binary64 numbers. *)
Definition round_trip_within (tol rate : PrimFloat.float) (n : Z)
  (P : PrimFloat.float) : bool :=
  PrimFloat.leb
    (PrimFloat.abs
       (PrimFloat.sub
          (Binary64.pmt rate n
             (Binary64.pv rate n P PrimFloat.zero PrimFloat.zero)
             PrimFloat.zero PrimFloat.zero)
          P))
    (PrimFloat.mul tol P).

(** What the second half of C8 states, for a tolerance [tol]: the round trip
    is within tolerance for every positive rate, number of periods and
    amount. *)
Definition round_trip_within_tolerance (tol : PrimFloat.float) : Prop :=
  forall (rate : PrimFloat.float) (n : Z) (P : PrimFloat.float),
    PrimFloat.ltb PrimFloat.zero rate = true -> (0 < n)%Z ->
    PrimFloat.ltb PrimFloat.zero P = true ->
    round_trip_within tol rate n P = true.

(** ** Schedules *)

(** The row of year [y] of a schedule (rows are produced for the years
    1, 2, ... in order). *)
Definition row_at (rows : list Row) (y : Z) : option Row :=
  if (1 <=? y)%Z then nth_error rows (Z.to_nat (y - 1)) else None.

(** What C3 states: in every row the beginning balance is not negative and
    the principal paid does not exceed it, so that the balance left at the
    end of the year (after the last year, the final balance) is not negative
    either; and from one row to the next the beginning balance does not
    increase. *)
Definition balances_in_order (rows : list Row) : Prop :=
  (forall y r, row_at rows y = Some r ->
     (zero <=? begBal r) = true /\
     (principal r <=? begBal r) = true /\
     (zero <=? begBal r - principal r) = true) /\
  (forall y r r', row_at rows y = Some r -> row_at rows (y + 1) = Some r' ->
     (begBal r' <=? begBal r) = true).

(** The invariant of the year loop on the balance it carries: a finite
    number that is not negative. *)
Definition balance_ok (y : Z) (s : Loop) : Prop :=
  exists b, prevBeg s = Fin b /\ (0 <= b)%Qc.

(** What C7 states: the ratio of a row is null exactly when its debt service
    is [== 0]. *)
Definition dscr_null_exactly_at_zero (r : Row) : Prop :=
  dscr r = None <-> eqb (debtService r) zero = true.

(** ** The minimum-DSCR reducer *)

(** The ratios of the rows with [debtService > 0] and a ratio that is not
    null, in row order. *)
Definition qualifying_values (rows : list Row) : list num :=
  fold_right
    (fun r acc => match qualifying r with Some d => d :: acc | None => acc end)
    [] rows.

(** [m] is the minimum of [l]: an element of [l] below all of them. *)
Definition is_minimum (m : num) (l : list num) : Prop :=
  In m l /\ Forall (fun d => (m <=? d) = true) l.

(** What C6 states: 0 when no row qualifies, and otherwise the minimum of
    the qualifying ratios. *)
Definition reducer_as_specified (rows : list Row) : Prop :=
  (qualifying_values rows = [] -> minDSCR rows = zero) /\
  (forall m, is_minimum m (qualifying_values rows) -> minDSCR rows = m).

(** ** Concrete inputs *)

(** The scenario of the specification: revenue 1,000,000,000,000, operating
    expense 800,000,000,000, rate 8%, ten years of which two of grace,
    coverage floor 2.5, annuity payments. *)
Definition scenario : Finance.Inputs :=
  Finance.mkInputs
    (dec 1000000000000 1) zero zero
    zero zero
    (dec 800000000000 1) zero zero
    (dec 3 100) (dec 2 100)
    (dec 8 100) 10 annuity
    one (dec 5 2) zero 2.

(** The scenario with the rate set to -100%. *)
Definition total_loss_rate : Finance.Inputs :=
  Finance.mkInputs
    (dec 1000000000000 1) zero zero
    zero zero
    (dec 800000000000 1) zero zero
    (dec 3 100) (dec 2 100)
    (dec (-1) 1) 10 annuity
    one (dec 5 2) zero 2.

(** An interest-free loan of one year whose coverage ceiling,
    749,999,999,000, lies 1,000 below the revenue rule, 750,000,000,000. *)
Definition near_statutory : Finance.Inputs :=
  Finance.mkInputs
    (dec 1000000000000 1) zero zero
    zero zero
    (dec 250000001000 1) zero zero
    zero zero
    zero 1 annuity
    one one zero 0.

(** A loan at a negative rate (-5%) over two years, the first of grace. *)
Definition negative_rate : Finance.Inputs :=
  Finance.mkInputs
    (dec 1000 1) zero zero
    zero zero
    (dec 800 1) zero zero
    zero zero
    (dec (-5) 100) 2 annuity
    one (dec 5 2) zero 1.

(** The bond scenario of the specification: principal 1,000,000,000,000 at
    8% over ten years. *)
Definition bond_scenario : Variant.Inputs :=
  Variant.mkInputs
    (dec 1000000000000 1) zero zero zero zero zero
    zero zero
    (dec 800000000000 1) None None None
    (dec 3 100) (dec 2 100)
    (dec 8 100) 10 annuity
    Variant.bond (dec 1000000000000 1) (dec 1000000000000 1)
    one (dec 5 2) zero 2.

(** No override, and a breakdown whose first component is NaN. *)
Definition nan_component : Variant.Inputs :=
  Variant.mkInputs
    (dec 1000 1) zero zero zero zero zero
    zero zero
    zero (Some NaN) (Some (dec 5 1)) None
    zero zero
    (dec 8 100) 10 annuity
    Variant.ptsmi_other (dec 100 1) (dec 100 1)
    one (dec 5 2) zero 2.

(** Three rows: ratios 3 and 2 with a positive debt service, and a row
    without debt service. *)
Definition three_rows : list Row :=
  [mkRow 1 zero zero zero one zero zero zero (Some (dec 3 1))
         zero zero zero zero zero;
   mkRow 2 zero zero zero zero zero zero zero None
         zero zero zero zero zero;
   mkRow 3 zero zero zero one zero zero zero (Some (dec 2 1))
         zero zero zero zero zero].

(** One row with a positive debt service and an infinite ratio. *)
Definition infinite_ratio_rows : list Row :=
  [mkRow 1 zero zero zero one PInf zero PInf (Some PInf)
         zero zero zero zero PInf].

(** The rate 1e-17, the binary64 number nearest to it: a positive rate that
    [1 + rate] absorbs. *)
Definition absorbed_rate : PrimFloat.float :=
  PrimFloat.div (Binary64.of_Z 1) (Binary64.of_Z (10 ^ 17)).

(** A loan that is not a bond, with the figures of the scenario. *)
Definition loan_scenario : Variant.Inputs :=
  Variant.mkInputs
    (dec 1000000000000 1) zero zero zero zero zero
    zero zero
    (dec 800000000000 1) None None None
    (dec 3 100) (dec 2 100)
    (dec 8 100) 10 annuity
    Variant.ptsmi_other (dec 1000000000000 1) (dec 500000000000 1)
    one (dec 5 2) zero 2.

(** The scenario with equal instalments of principal. *)
Definition equal_principal_scenario : Finance.Inputs :=
  Finance.mkInputs
    (dec 1000000000000 1) zero zero
    zero zero
    (dec 800000000000 1) zero zero
    (dec 3 100) (dec 2 100)
    (dec 8 100) 10 equal_principal
    one (dec 5 2) zero 2.

(** The scenario with ten years of grace, as many as the term. *)
Definition grace_covers_term : Finance.Inputs :=
  Finance.mkInputs
    (dec 1000000000000 1) zero zero
    zero zero
    (dec 800000000000 1) zero zero
    (dec 3 100) (dec 2 100)
    (dec 8 100) 10 annuity
    one (dec 5 2) zero 10.

(** * Properties *)

(** ** Rational arithmetic *)

Local Open Scope Qc_scope.

Lemma Qc_eq_Q (x y : Qc) : x = y <-> (this x == this y)%Q.
Proof. split; intros E; [ subst; reflexivity | now apply Qc_is_canon ]. Qed.

Lemma Qc_neq_Q (x y : Qc) : x <> y <-> ~ (this x == this y)%Q.
Proof. rewrite Qc_eq_Q. tauto. Qed.

(** Turn a goal on canonical rationals into one on [Q], where [lra], [nra]
    and [field] work. *)
Ltac qc_prep :=
  repeat match goal with
  | H : @eq Qc _ _ |- _ => apply Qc_eq_Q in H
  | H : ~ @eq Qc _ _ |- _ => apply Qc_neq_Q in H
  | |- @eq Qc _ _ => apply Qc_eq_Q
  | |- ~ @eq Qc _ _ => apply Qc_neq_Q
  end;
  unfold Qclt, Qcle, Qcdiv, Qcminus, Qcplus, Qcmult, Qcopp, Qcinv, Q2Qc in *;
  cbn [this] in *;
  rewrite ?Qred_correct in *.

Lemma Qc_ltb_true (x y : Qc) : Qc_ltb x y = true <-> x < y.
Proof.
  unfold Qc_ltb. rewrite Qclt_alt. destruct (x ?= y); intuition congruence.
Qed.

Lemma Qc_ltb_false (x y : Qc) : Qc_ltb x y = false <-> y <= x.
Proof.
  rewrite <- not_true_iff_false, Qc_ltb_true. split.
  - apply Qcnot_lt_le.
  - apply Qcle_not_lt.
Qed.

Lemma Qc_leb_true (x y : Qc) : Qc_leb x y = true <-> x <= y.
Proof.
  unfold Qc_leb. rewrite Qcle_alt. destruct (x ?= y); intuition congruence.
Qed.

Lemma Qc_eqb_true (x y : Qc) : Qc_eqb x y = true <-> x = y.
Proof.
  unfold Qc_eqb. rewrite Qceq_alt. destruct (x ?= y); intuition congruence.
Qed.

Lemma Qc_eqb_false (x y : Qc) : Qc_eqb x y = false <-> x <> y.
Proof. rewrite <- not_true_iff_false, Qc_eqb_true. tauto. Qed.

Lemma Qcinv_nonzero (w : Qc) : w <> 0%Qc -> (/ w)%Qc <> 0%Qc.
Proof.
  intros Hw E. pose proof (Qcmult_inv_r w Hw) as H. rewrite E in H.
  rewrite Qcmult_0_r in H. discriminate H.
Qed.

Lemma Qc_div_pos (r : Qc) : (0 < r)%Qc -> (0 < / r)%Qc.
Proof.
  intros H. qc_prep. now apply Qinv_lt_0_compat.
Qed.

Lemma Qc_div_antitone (N d d' : Qc) :
  (0 <= N)%Qc -> (0 < d)%Qc -> (d <= d')%Qc ->
  (0 <= N / d')%Qc /\ (N / d' <= N / d)%Qc.
Proof.
  intros HN Hd Hdd.
  assert (Hd' : (0 < d')%Qc) by (eapply Qclt_le_trans; eauto).
  qc_prep.
  assert (Hi' : (0 < / d')%Q) by now apply Qinv_lt_0_compat.
  assert (Hx : (/ d' <= / d)%Q).
  { destruct (Qle_lt_or_eq _ _ Hdd) as [Hlt | Heq].
    - apply Qlt_le_weak.
      apply (proj1 (Qinv_lt_contravar d d' Hd Hd')). exact Hlt.
    - rewrite Heq. apply Qle_refl. }
  split; nra.
Qed.

Lemma inject_Z_nonzero (n : Z) : (0 < n)%Z -> Q2Qc (inject_Z n) <> 0%Qc.
Proof.
  intros Hn. qc_prep. unfold Qeq. simpl. lia.
Qed.

Lemma Qcpower_nonzero (q : Qc) (n : nat) : q <> 0 -> q ^ n <> 0.
Proof.
  intros Hq. induction n as [|n IH]; simpl.
  - intro E. discriminate E.
  - intro E. apply Qcmult_integral in E. tauto.
Qed.

Lemma Qcpower_gt_1 (q : Qc) (n : nat) : 1 < q -> (0 < n)%nat -> 1 < q ^ n.
Proof.
  intros Hq Hn. induction n as [|n IH]; [lia|].
  destruct n as [|n].
  - simpl. now rewrite Qcmult_1_r.
  - assert (H : 1 < q ^ S n) by (apply IH; lia).
    change (q ^ S (S n)) with (q * q ^ S n).
    generalize dependent (q ^ S n). intros p _ Hp.
    qc_prep. nra.
Qed.

Lemma Qcpower_mult_distr (x y : Qc) (n : nat) : (x * y) ^ n = x ^ n * y ^ n.
Proof.
  induction n as [|n IH]; simpl.
  - now rewrite Qcmult_1_l.
  - rewrite IH. ring.
Qed.

Lemma Qcpower_lt_1 (a : Qc) (n : nat) :
  0 <= a -> a < 1 -> (0 < n)%nat -> 0 <= a ^ n /\ a ^ n < 1.
Proof.
  intros H0 H1 Hn. induction n as [|n IH]; [lia|].
  destruct n as [|n].
  - simpl. rewrite Qcmult_1_r. auto.
  - destruct IH as [IH0 IH1]; [lia|].
    change (a ^ S (S n)) with (a * a ^ S n).
    set (p := a ^ S n) in *. clearbody p.
    split; qc_prep; nra.
Qed.

Lemma Qcpower_eq_1 (q : Qc) (n : nat) :
  (0 < n)%nat -> q ^ n = 1 -> q = 1 \/ q = - (1).
Proof.
  intros Hn Hq.
  assert (Ha : (q * q) ^ n = 1).
  { rewrite Qcpower_mult_distr, Hq. ring. }
  assert (H0 : 0 <= q * q) by (qc_prep; nra).
  assert (H1 : q * q = 1).
  { destruct (Qc_dec (q * q) 1) as [[Hlt | Hgt] | Heq]; [| |exact Heq].
    - destruct (Qcpower_lt_1 _ n H0 Hlt Hn) as [_ H]. rewrite Ha in H.
      exfalso. clear - H. qc_prep. lra.
    - pose proof (Qcpower_gt_1 _ n Hgt Hn) as H. rewrite Ha in H.
      exfalso. clear - H. qc_prep. lra. }
  assert (H2 : (q - 1) * (q + 1) = 0).
  { replace ((q - 1) * (q + 1)) with (q * q - 1) by ring. rewrite H1. ring. }
  apply Qcmult_integral in H2. destruct H2 as [H2 | H2].
  - left. clear - H2. qc_prep. lra.
  - right. clear - H2. qc_prep. lra.
Qed.

(** ** Arithmetic of finite numbers *)

Local Open Scope num_scope.

Lemma one_Fin : one = Fin 1%Qc.
Proof. reflexivity. Qed.

Lemma zero_Fin : zero = Fin 0%Qc.
Proof. reflexivity. Qed.

Lemma add_Fin (x y : Qc) : Fin x + Fin y = Fin (x + y).
Proof. reflexivity. Qed.

Lemma sub_Fin (x y : Qc) : Fin x - Fin y = Fin (x - y).
Proof. reflexivity. Qed.

Lemma mul_Fin (x y : Qc) : Fin x * Fin y = Fin (x * y).
Proof. reflexivity. Qed.

Lemma div_Fin (x y : Qc) : y <> 0%Qc -> Fin x / Fin y = Fin (x / y).
Proof. intros H. unfold div. apply Qc_eqb_false in H. now rewrite H. Qed.

Lemma Math_pow_Fin_pos (q : Qc) (p : positive) :
  Math_pow (Fin q) (Z.pos p) = Fin (q ^ Pos.to_nat p).
Proof. reflexivity. Qed.

Lemma Math_pow_Fin_neg (q : Qc) (p : positive) :
  q <> 0%Qc -> Math_pow (Fin q) (Z.neg p) = Fin (/ q ^ Pos.to_nat p).
Proof. intros H. unfold Math_pow. apply Qc_eqb_false in H. now rewrite H. Qed.

Lemma Math_pow_Fin_nonzero (q : Qc) (g : Z) :
  q <> 0%Qc -> exists w, Math_pow (Fin q) g = Fin w /\ w <> 0%Qc.
Proof.
  intros Hq. destruct g as [|p|p].
  - exists 1%Qc. split; [reflexivity|discriminate].
  - exists (q ^ Pos.to_nat p)%Qc. split; [reflexivity|].
    now apply Qcpower_nonzero.
  - exists (/ q ^ Pos.to_nat p)%Qc. split; [now apply Math_pow_Fin_neg|].
    now apply Qcinv_nonzero, Qcpower_nonzero.
Qed.

Lemma eqb_Fin_false (x y : Qc) : x <> y -> eqb (Fin x) (Fin y) = false.
Proof. intros H. now apply Qc_eqb_false. Qed.

Create Rewrite HintDb num_fin.

#[global] Hint Rewrite one_Fin zero_Fin add_Fin sub_Fin mul_Fin
  Math_pow_Fin_pos : num_fin.

Lemma isFinite_Fin (x : num) : isFinite x = true -> exists q, x = Fin q.
Proof. destruct x; try discriminate. eauto. Qed.

Lemma isFinite_not_NaN (x : num) : isFinite x = true -> isNaN x = false.
Proof. now destruct x. Qed.

Lemma sub_Fin_not_NaN (a : num) (x : Qc) :
  isNaN a = false -> isNaN (a - Fin x) = false.
Proof. now destruct a. Qed.

Lemma leb_Fin (x y : Qc) : (Fin x <=? Fin y) = true <-> (x <= y)%Qc.
Proof. apply Qc_leb_true. Qed.

Ltac ltb_cases :=
  repeat match goal with
  | |- context [Qc_ltb ?a ?b] =>
      let E := fresh "E" in
      destruct (Qc_ltb a b) eqn:E;
      [apply Qc_ltb_true in E | apply Qc_ltb_false in E]
  end.

Lemma or_else_zero_not_NaN (x : num) : isNaN x = false -> or_else x zero = x.
Proof.
  destruct x as [q| | |]; try reflexivity; [|discriminate].
  intros _. unfold or_else, truthy.
  destruct (Qc_eqb q 0) eqn:E; [|reflexivity].
  apply Qc_eqb_true in E. now subst.
Qed.

(** ** Order on numbers *)

Lemma leb_not_NaN (a b : num) : (a <=? b) = true -> isNaN a = false /\ isNaN b = false.
Proof. destruct a, b; cbn; intros H; try discriminate H; auto. Qed.

Lemma leb_refl (a : num) : isNaN a = false -> (a <=? a) = true.
Proof. destruct a; cbn; try discriminate; auto. intros _. apply Qc_leb_true, Qcle_refl. Qed.

Lemma leb_trans (a b c : num) :
  (a <=? b) = true -> (b <=? c) = true -> (a <=? c) = true.
Proof.
  destruct a as [x| | |], b as [y| | |], c as [z| | |]; cbn;
    try discriminate; auto.
  rewrite !Qc_leb_true. apply Qcle_trans.
Qed.

Lemma leb_PInf (m : num) : isNaN m = false -> (m <=? PInf) = true.
Proof. destruct m; cbn; auto. Qed.

Lemma ltb_false_leb (a b : num) :
  isNaN a = false -> isNaN b = false -> (a <? b) = false -> (b <=? a) = true.
Proof.
  destruct a as [x| | |], b as [y| | |]; cbn; try discriminate; auto.
  intros _ _. rewrite Qc_ltb_false, Qc_leb_true. auto.
Qed.

Lemma ltb_true_leb (a b : num) : (a <? b) = true -> (a <=? b) = true.
Proof.
  destruct a as [x| | |], b as [y| | |]; cbn; try discriminate; auto.
  rewrite Qc_ltb_true, Qc_leb_true. apply Qclt_le_weak.
Qed.

Lemma leb_ltb_false (a b : num) : (a <=? b) = true -> (b <? a) = false.
Proof.
  destruct a as [x| | |], b as [y| | |]; cbn; try discriminate; auto.
  rewrite Qc_ltb_false, Qc_leb_true. auto.
Qed.

Lemma gtb_zero_nonneg (x : num) :
  (zero <=? x) = true -> ((x >? zero) = false <-> x = zero).
Proof.
  destruct x as [q| | |]; cbn; try discriminate.
  - intros Hle. apply Qc_leb_true in Hle. rewrite Qc_ltb_false. split.
    + intros Hge. unfold zero, of_Z. f_equal. now apply Qcle_antisym.
    + intros E. injection E as ->. apply Qcle_refl.
  - intros _. split; discriminate.
Qed.

Lemma Math_min_cases (a b : num) :
  isNaN a = false -> isNaN b = false ->
  Math_min a b = a \/ Math_min a b = b.
Proof.
  intros Ha Hb. unfold Math_min. rewrite Ha, Hb. cbn [orb].
  destruct (b <? a); auto.
Qed.

Lemma Math_max_cases (a b : num) :
  isNaN a = false -> isNaN b = false ->
  Math_max a b = a \/ Math_max a b = b.
Proof.
  intros Ha Hb. unfold Math_max. rewrite Ha, Hb. cbn [orb].
  destruct (a <? b); auto.
Qed.

Lemma Math_min_not_NaN (a b : num) :
  isNaN a = false -> isNaN b = false -> isNaN (Math_min a b) = false.
Proof. intros Ha Hb. destruct (Math_min_cases a b Ha Hb) as [-> | ->]; auto. Qed.

Lemma Math_max_not_NaN (a b : num) :
  isNaN a = false -> isNaN b = false -> isNaN (Math_max a b) = false.
Proof. intros Ha Hb. destruct (Math_max_cases a b Ha Hb) as [-> | ->]; auto. Qed.

Lemma Math_min_le_l (a b : num) :
  isNaN a = false -> isNaN b = false -> (Math_min a b <=? a) = true.
Proof.
  intros Ha Hb. unfold Math_min. rewrite Ha, Hb. cbn [orb].
  destruct (b <? a) eqn:E.
  - now apply ltb_true_leb.
  - now apply leb_refl.
Qed.

Lemma Math_min_le_r (a b : num) :
  isNaN a = false -> isNaN b = false -> (Math_min a b <=? b) = true.
Proof.
  intros Ha Hb. unfold Math_min. rewrite Ha, Hb. cbn [orb].
  destruct (b <? a) eqn:E.
  - now apply leb_refl.
  - now apply ltb_false_leb.
Qed.

Lemma Math_max_ge_l (a b : num) :
  isNaN a = false -> isNaN b = false -> (a <=? Math_max a b) = true.
Proof.
  intros Ha Hb. unfold Math_max. rewrite Ha, Hb. cbn [orb].
  destruct (a <? b) eqn:E.
  - now apply ltb_true_leb.
  - now apply leb_refl.
Qed.

Lemma Math_max_ge_r (a b : num) :
  isNaN a = false -> isNaN b = false -> (b <=? Math_max a b) = true.
Proof.
  intros Ha Hb. unfold Math_max. rewrite Ha, Hb. cbn [orb].
  destruct (a <? b) eqn:E.
  - now apply leb_refl.
  - now apply ltb_false_leb.
Qed.

Lemma Math_min_mono (a a' b b' : num) :
  (a <=? a') = true -> (b <=? b') = true ->
  (Math_min a b <=? Math_min a' b') = true.
Proof.
  intros Ha Hb.
  destruct (leb_not_NaN _ _ Ha) as [Na Na'].
  destruct (leb_not_NaN _ _ Hb) as [Nb Nb'].
  destruct (Math_min_cases a' b' Na' Nb') as [-> | ->].
  - eapply leb_trans; [apply Math_min_le_l|]; eauto.
  - eapply leb_trans; [apply Math_min_le_r|]; eauto.
Qed.

Lemma Math_max_mono (a a' b b' : num) :
  (a <=? a') = true -> (b <=? b') = true ->
  (Math_max a b <=? Math_max a' b') = true.
Proof.
  intros Ha Hb.
  destruct (leb_not_NaN _ _ Ha) as [Na Na'].
  destruct (leb_not_NaN _ _ Hb) as [Nb Nb'].
  destruct (Math_max_cases a b Na Nb) as [-> | ->].
  - eapply leb_trans; [|apply Math_max_ge_l]; eauto.
  - eapply leb_trans; [|apply Math_max_ge_r]; eauto.
Qed.

Lemma Math_min_l (m d : num) : (m <=? d) = true -> Math_min m d = m.
Proof.
  intros H. destruct (leb_not_NaN _ _ H) as [Hm Hd].
  unfold Math_min. rewrite Hm, Hd. cbn [orb].
  destruct m as [x| | |], d as [y| | |]; cbn in *; try discriminate; auto.
  apply Qc_leb_true in H.
  replace (Qc_ltb y x) with false; [reflexivity|].
  symmetry. now apply Qc_ltb_false.
Qed.

Lemma Math_min_r (m a : num) : (m <=? a) = true -> Math_min a m = m.
Proof.
  intros H. destruct (leb_not_NaN _ _ H) as [Hm Ha].
  unfold Math_min. rewrite Hm, Ha. cbn [orb].
  destruct m as [x| | |], a as [y| | |]; cbn in *; try discriminate; auto.
  apply Qc_leb_true in H.
  destruct (Qc_ltb x y) eqn:E; [reflexivity|].
  apply Qc_ltb_false in E. f_equal. now apply Qcle_antisym.
Qed.

Lemma Math_min_glb (m a d : num) :
  (m <=? a) = true -> (m <=? d) = true -> (m <=? Math_min a d) = true.
Proof.
  intros Ha Hd. destruct (leb_not_NaN _ _ Ha) as [_ Ha'].
  destruct (leb_not_NaN _ _ Hd) as [_ Hd'].
  unfold Math_min. rewrite Ha', Hd'. cbn [orb]. now destruct (d <? a).
Qed.

Lemma Math_min_NaN_l (d : num) : Math_min NaN d = NaN.
Proof. reflexivity. Qed.

Lemma Math_min_NaN_r (a : num) : Math_min a NaN = NaN.
Proof. unfold Math_min. cbn [isNaN]. now rewrite orb_true_r. Qed.

Lemma Math_max_zero_nonpos (y : num) :
  (y <=? zero) = true -> Math_max zero y = zero.
Proof.
  intros H. destruct (leb_not_NaN _ _ H) as [Ny _].
  unfold Math_max. rewrite Ny. cbn [isNaN orb].
  now rewrite (leb_ltb_false _ _ H).
Qed.

Lemma Math_max_zero_not_negative (x : num) : (Math_max x zero <? zero) = false.
Proof.
  destruct x as [q| | |]; try reflexivity.
  unfold Math_max. cbn [isNaN orb zero of_Z ltb].
  destruct (Qc_ltb q (Q2Qc (inject_Z 0))) eqn:E; cbn [ltb].
  - reflexivity.
  - apply Qc_ltb_false. now apply Qc_ltb_false in E.
Qed.

(** ** The time-value primitives *)

(** C8, amended.  For a rate [rate > 0], a whole number of periods [n > 0]
    and an amount [P > 0], the level payment that amortizes the present value
    of an annuity of [P] is [P] again: [pmt (rate, n, pv (rate, n, P)) = P],
    exactly, over exact arithmetic. *)
Theorem pmt_pv_inverse (rate P : Qc) (n : Z) :
  (0 < rate)%Qc -> (0 < n)%Z -> (0 < P)%Qc ->
  pmt (Fin rate) n (pv (Fin rate) n (Fin P) zero zero) zero zero = Fin P.
Proof.
  intros Hr Hn HP.
  destruct n as [|p|p]; try lia.
  assert (Hr0 : rate <> 0%Qc) by (intro E; subst; discriminate Hr).
  assert (Hq : (1 < 1 + rate)%Qc) by (qc_prep; lra).
  assert (Hq0 : (1 + rate <> 0)%Qc) by (clear - Hr; qc_prep; lra).
  pose proof (Qcpower_gt_1 _ (Pos.to_nat p) Hq (Pos2Nat.is_pos p)) as Hpow.
  pose proof (Qcpower_nonzero _ (Pos.to_nat p) Hq0) as Hpow0.
  unfold pmt, pv.
  replace (Z.pos p <=? 0)%Z with false by (symmetry; apply Z.leb_gt; lia).
  rewrite zero_Fin, eqb_Fin_false by assumption.
  autorewrite with num_fin. cbn [Z.opp].
  rewrite Math_pow_Fin_neg by assumption.
  set (w := ((1 + rate) ^ Pos.to_nat p)%Qc) in *.
  autorewrite with num_fin.
  rewrite div_Fin by assumption. autorewrite with num_fin.
  rewrite div_Fin.
  - f_equal. field. repeat split; auto. clear - Hpow. qc_prep. lra.
  - clear - Hpow. intro E. qc_prep. lra.
Qed.

Lemma pmt_pv_inverse_witness :
  pmt (Fin (Q2Qc (2 # 25))) 8
      (pv (Fin (Q2Qc (2 # 25))) 8 (Fin (Q2Qc 80000000000)) zero zero)
      zero zero
  = Fin (Q2Qc 80000000000).
Proof. apply pmt_pv_inverse; reflexivity. Defined.

(** Counterexample to C8 as stated: on binary64 numbers the round trip is
    within no tolerance for every positive rate.  At the rate 1e-17 over 10
    periods [1 + rate] is 1, the present value of 100 is 0 and the payment on
    it is [0/0]: the result is NaN, which is not within the tolerance
    [Infinity], the one every number meets. *)
Lemma round_trip_not_within_tolerance :
  ~ round_trip_within_tolerance PrimFloat.infinity.
Proof.
  intros H.
  specialize (H absorbed_rate 10%Z (Binary64.of_Z 100) eq_refl eq_refl eq_refl).
  vm_compute in H. discriminate H.
Qed.

(** ** The capacity calculator *)

(** For a finite debt service and a finite rate other than -100% the present
    value after grace is finite, and linear in the debt service. *)
Lemma pvAfterGrace_Fin (r : Qc) (t g : Z) :
  (1 + r)%Qc <> 0%Qc ->
  exists c : Qc, forall m : Qc,
    spec_pvAfterGrace (Fin r) t g (Fin m) = Fin (c * m).
Proof.
  intros E1. unfold spec_pvAfterGrace.
  destruct (Z.ltb_spec 0 (Z.max (t - g) 0)) as [Hn | Hn].
  2:{ exists 0%Qc. intros m. rewrite Qcmult_0_l. reflexivity. }
  destruct (Z.max (t - g) 0) as [|p|p] eqn:En; try lia.
  destruct (Math_pow_Fin_nonzero (1 + r)%Qc g E1) as (w & Hw & Hw0).
  unfold pv. replace (Z.pos p <=? 0)%Z with false by reflexivity.
  rewrite zero_Fin. unfold eqb. cbn [Z.opp].
  destruct (Qc_eqb r 0) eqn:E0.
  - exists (Q2Qc (inject_Z (Z.pos p)) / w)%Qc. intros m.
    unfold of_Z. autorewrite with num_fin. rewrite Hw, div_Fin by exact Hw0.
    f_equal. now field.
  - apply Qc_eqb_false in E0.
    exists ((1 + r * 0) * ((1 - / (1 + r) ^ Pos.to_nat p) / r) / w)%Qc.
    intros m. autorewrite with num_fin.
    rewrite Math_pow_Fin_neg by exact E1.
    autorewrite with num_fin. rewrite div_Fin by exact E0.
    autorewrite with num_fin. rewrite Hw, div_Fin by exact Hw0.
    f_equal.
    set (v := (/ (1 + r) ^ Pos.to_nat p)%Qc). clearbody v.
    field. auto.
Qed.

(** At a rate of -100% it is NaN as soon as there are amortizing years (and 0
    when there are none). *)
Lemma pvAfterGrace_at_total_loss (r : Qc) (t g : Z) (m : Qc) :
  (1 + r)%Qc = 0%Qc ->
  spec_pvAfterGrace (Fin r) t g (Fin m) = NaN \/
  spec_pvAfterGrace (Fin r) t g (Fin m) = zero.
Proof.
  intros E1. unfold spec_pvAfterGrace.
  destruct (Z.ltb_spec 0 (Z.max (t - g) 0)) as [Hn | Hn]; [left | now right].
  destruct (Z.max (t - g) 0) as [|p|p] eqn:En; try lia.
  assert (Hr : Qc_ltb r 0 = true).
  { apply Qc_ltb_true. clear - E1. qc_prep. lra. }
  assert (E0 : Qc_eqb r 0 = false).
  { apply Qc_eqb_false. intros ->. discriminate E1. }
  unfold pv. replace (Z.pos p <=? 0)%Z with false by reflexivity.
  rewrite zero_Fin. unfold eqb. rewrite E0. cbn [Z.opp].
  autorewrite with num_fin. rewrite E1.
  unfold Math_pow at 1 2.
  replace (Qc_eqb 0 0) with true by reflexivity.
  cbn [sub neg add div]. rewrite Hr. cbn [mul].
  replace (signed_inf 0) with NaN by reflexivity.
  destruct (signed_inf _); reflexivity.
Qed.

Lemma guarded_allowedDebt_spec (rev m rate : num) (t g : Z) :
  isNaN (spec_pvAfterGrace rate t g m) = false ->
  guarded_allowedDebt rev m rate t g = spec_allowedDebt rev m rate t g.
Proof.
  intros H. unfold guarded_allowedDebt, spec_allowedDebt.
  now rewrite or_else_zero_not_NaN.
Qed.

(** C1, amended.  In both engines, for every input record, [computeCapacity]
    returns [NOI = max (totalRevenue + netFinancing - totalOpex, 0)], which is
    never negative, and an allowed debt equal to
    [max (0, min (0.75 * totalRevenue, dscrCeiling))] where
    [dscrCeiling = min (pvAfterGrace || 0, capInterestOnly)]: a present value
    that is NaN counts as 0.  Whenever the present value the code computes is
    not NaN, this is the formula with
    [dscrCeiling = min (pvAfterGrace, capInterestOnly)]. *)
Theorem capacity_formulas :
  (forall i : Finance.Inputs,
     let c := Finance.computeCapacity i in
     let maxAnnualDS := Finance.NOI c / Finance.minDSCR i in
     Finance.NOI c
     = spec_NOI (Finance.getTotalRevenue i) (Finance.getNettFinancing i)
                (Finance.getTotalOpex i) /\
     (Finance.NOI c <? zero) = false /\
     Finance.allowedDebt c
     = guarded_allowedDebt (Finance.getTotalRevenue i) maxAnnualDS
         (Finance.rate i) (Finance.termYears i) (Finance.graceYears i) /\
     (isNaN (spec_pvAfterGrace (Finance.rate i) (Finance.termYears i)
               (Finance.graceYears i) maxAnnualDS) = false ->
      Finance.allowedDebt c
      = spec_allowedDebt (Finance.getTotalRevenue i) maxAnnualDS
          (Finance.rate i) (Finance.termYears i) (Finance.graceYears i))) /\
  (forall i : Variant.Inputs,
     let c := Variant.computeCapacity i in
     let maxAnnualDS := Variant.NOI c / Variant.minDSCR i in
     Variant.NOI c
     = spec_NOI (Variant.getTotalRevenue i) (Variant.getNettFinancing i)
                (Variant.getTotalOpex i) /\
     (Variant.NOI c <? zero) = false /\
     Variant.calculatedMaxDebt c
     = guarded_allowedDebt (Variant.getTotalRevenue i) maxAnnualDS
         (Variant.rate i) (Variant.termYears i) (Variant.graceYears i) /\
     (isNaN (spec_pvAfterGrace (Variant.rate i) (Variant.termYears i)
               (Variant.graceYears i) maxAnnualDS) = false ->
      Variant.calculatedMaxDebt c
      = spec_allowedDebt (Variant.getTotalRevenue i) maxAnnualDS
          (Variant.rate i) (Variant.termYears i) (Variant.graceYears i))).
Proof.
  split; intros i c maxAnnualDS.
  - split; [reflexivity|]. split; [apply Math_max_zero_not_negative|].
    split; [reflexivity|].
    intros H. rewrite <- guarded_allowedDebt_spec by exact H. reflexivity.
  - split; [reflexivity|]. split; [apply Math_max_zero_not_negative|].
    split; [reflexivity|].
    intros H. rewrite <- guarded_allowedDebt_spec by exact H. reflexivity.
Qed.

Lemma capacity_formulas_witness :
  Finance.allowedDebt (Finance.computeCapacity scenario)
  = spec_allowedDebt (Finance.getTotalRevenue scenario)
      (Finance.NOI (Finance.computeCapacity scenario) / Finance.minDSCR scenario)
      (Finance.rate scenario) (Finance.termYears scenario)
      (Finance.graceYears scenario).
Proof.
  apply (proj1 capacity_formulas scenario); reflexivity.
Defined.

(** Counterexample to C1 as stated: at a rate of -100% the present value
    after grace is NaN, so the stated formula gives NaN, while the engine
    returns 0. *)
Lemma capacity_not_as_specified_at_total_loss_rate :
  ~ capacity_as_specified total_loss_rate.
Proof.
  intros [_ H]. apply (f_equal isNaN) in H. vm_compute in H. discriminate H.
Qed.

(** ** The binding constraint *)

Lemma binding_labels_differ : binding_statutory <> binding_coverage.
Proof. discriminate. Qed.

(** C9, amended.  In both engines [computeCapacity] labels the binding
    constraint as the statutory rule (75% of prior revenue) if and only if the
    allowed debt differs from [maxDebtRevenueRule] by less than 1e-6 in
    absolute value, and as the coverage (DSCR) rule otherwise. *)
Theorem binding_by_absolute_tolerance :
  (forall i : Finance.Inputs,
     let c := Finance.computeCapacity i in
     (Finance.binding c = binding_statutory <->
      within_absolute_tolerance (Finance.allowedDebt c)
                                (Finance.maxDebtRevenueRule c) = true) /\
     (Finance.binding c = binding_coverage <->
      within_absolute_tolerance (Finance.allowedDebt c)
                                (Finance.maxDebtRevenueRule c) = false)) /\
  (forall i : Variant.Inputs,
     let c := Variant.computeCapacity i in
     (Variant.binding c = binding_statutory <->
      within_absolute_tolerance (Variant.calculatedMaxDebt c)
                                (Variant.maxDebtRevenueRule c) = true) /\
     (Variant.binding c = binding_coverage <->
      within_absolute_tolerance (Variant.calculatedMaxDebt c)
                                (Variant.maxDebtRevenueRule c) = false)).
Proof.
  pose proof binding_labels_differ as Hd.
  split; intros i c; subst c;
    unfold Finance.computeCapacity, Variant.computeCapacity;
    cbn [Finance.binding Finance.allowedDebt Finance.maxDebtRevenueRule
         Variant.binding Variant.calculatedMaxDebt Variant.maxDebtRevenueRule];
    unfold within_absolute_tolerance, tolerance;
    match goal with |- context [if ?b then _ else _] => destruct b end;
    repeat split; intros; congruence.
Qed.

Lemma binding_by_absolute_tolerance_witness :
  Finance.binding (Finance.computeCapacity near_statutory) = binding_coverage.
Proof.
  apply (proj1 binding_by_absolute_tolerance near_statutory).
  vm_compute. reflexivity.
Defined.

(** Counterexample to C9 as stated: an allowed debt of 749,999,999,000 is
    within a relative 1e-6 of the rule, 750,000,000,000, and is labelled as
    the coverage constraint. *)
Lemma binding_not_by_relative_tolerance :
  ~ binding_by_relative_tolerance near_statutory.
Proof.
  intros [_ H].
  assert (Hb : Finance.binding (Finance.computeCapacity near_statutory)
               = binding_coverage) by (vm_compute; reflexivity).
  apply H in Hb. vm_compute in Hb. discriminate Hb.
Qed.

(** ** Monotonicity of the ceiling *)

(** The guarded present value after grace is linear in the annual debt
    service. *)
Lemma pvAfterGrace_linear (r : Qc) (t g : Z) :
  exists c : Qc, forall m : Qc,
    or_else (spec_pvAfterGrace (Fin r) t g (Fin m)) zero = Fin (c * m).
Proof.
  destruct (Qc_eq_dec (1 + r) 0) as [E1 | E1].
  - exists 0%Qc. intros m. rewrite Qcmult_0_l.
    destruct (pvAfterGrace_at_total_loss r t g m E1) as [-> | ->]; reflexivity.
  - destruct (pvAfterGrace_Fin r t g E1) as [c Hc]. exists c. intros m.
    rewrite Hc. now apply or_else_zero_not_NaN.
Qed.

Lemma capInterestOnly_Fin (r m : Qc) :
  spec_capInterestOnly (Fin r) (Fin m)
  = if Qc_ltb 0 r then Fin (m / r) else PInf.
Proof.
  unfold spec_capInterestOnly, gtb. rewrite zero_Fin. cbn [ltb].
  destruct (Qc_ltb 0 r) eqn:E; [|reflexivity].
  apply Qc_ltb_true in E. apply div_Fin.
  intros ->. discriminate E.
Qed.

(** [max (0, min (rule, min (x, cap)))] is 0 as soon as [x] or [cap] is not
    positive. *)
Lemma clamped_zero (rule x cap : num) :
  isNaN rule = false -> isNaN x = false -> isNaN cap = false ->
  (x <=? zero) = true \/ (cap <=? zero) = true ->
  Math_max zero (Math_min rule (Math_min x cap)) = zero.
Proof.
  intros Nr Nx Nc H. apply Math_max_zero_nonpos.
  pose proof (Math_min_not_NaN x cap Nx Nc) as Nm.
  eapply leb_trans; [apply Math_min_le_r; auto|].
  destruct H as [H | H].
  - eapply leb_trans; [apply Math_min_le_l; auto|exact H].
  - eapply leb_trans; [apply Math_min_le_r; auto|exact H].
Qed.

Lemma clamped_mono (rule rule' x x' cap cap' : num) :
  (rule <=? rule') = true -> (x <=? x') = true -> (cap <=? cap') = true ->
  (Math_max zero (Math_min rule (Math_min x cap))
   <=? Math_max zero (Math_min rule' (Math_min x' cap'))) = true.
Proof.
  intros Hr Hx Hc. apply Math_max_mono; [reflexivity|].
  apply Math_min_mono; [exact Hr|]. now apply Math_min_mono.
Qed.

Lemma guarded_allowedDebt_Fin (r : Qc) (t g : Z) :
  exists c : Qc, forall rho m : Qc,
    guarded_allowedDebt (Fin rho) (Fin m) (Fin r) t g
    = Math_max zero
        (Math_min (Fin (Q2Qc (75 # 100) * rho))
           (Math_min (Fin (c * m))
                     (if Qc_ltb 0 r then Fin (m / r) else PInf))).
Proof.
  destruct (pvAfterGrace_linear r t g) as [c Hc]. exists c. intros rho m.
  unfold guarded_allowedDebt. rewrite Hc, capInterestOnly_Fin. reflexivity.
Qed.

(** The ceiling does not decrease when the revenue rule and a debt service
    that is not negative grow. *)
Lemma guarded_allowedDebt_mono_nonneg (r : Qc) (t g : Z)
  (rho rho' m m' : Qc) :
  (rho <= rho')%Qc -> (0 <= m)%Qc -> (m <= m')%Qc ->
  (guarded_allowedDebt (Fin rho) (Fin m) (Fin r) t g
   <=? guarded_allowedDebt (Fin rho') (Fin m') (Fin r) t g) = true.
Proof.
  intros Hrho Hm Hmm.
  destruct (guarded_allowedDebt_Fin r t g) as [c Hc]. rewrite !Hc.
  assert (Hcap : isNaN (if Qc_ltb 0 r then Fin (m / r) else PInf) = false)
    by (destruct (Qc_ltb 0 r); reflexivity).
  assert (Hcap' : isNaN (if Qc_ltb 0 r then Fin (m' / r) else PInf) = false)
    by (destruct (Qc_ltb 0 r); reflexivity).
  destruct (Qclt_le_dec c 0) as [Hneg | Hpos].
  - rewrite !clamped_zero; auto; left; rewrite zero_Fin; apply leb_Fin;
      clear - Hneg Hm Hmm; qc_prep; nra.
  - apply clamped_mono; try (apply leb_Fin; clear - Hpos Hrho Hm Hmm; qc_prep; nra).
    destruct (Qc_ltb 0 r) eqn:E; [|reflexivity].
    apply Qc_ltb_true in E. apply Qc_div_pos in E. apply leb_Fin.
    unfold Qcdiv. set (ir := (/ r)%Qc) in *. clearbody ir.
    clear - E Hm Hmm. qc_prep. nra.
Qed.

(** The same when the debt service is not positive and decreases. *)
Lemma guarded_allowedDebt_mono_nonpos (r : Qc) (t g : Z)
  (rho rho' m m' : Qc) :
  (rho <= rho')%Qc -> (m <= 0)%Qc -> (m' <= m)%Qc ->
  (guarded_allowedDebt (Fin rho) (Fin m) (Fin r) t g
   <=? guarded_allowedDebt (Fin rho') (Fin m') (Fin r) t g) = true.
Proof.
  intros Hrho Hm Hmm.
  destruct (guarded_allowedDebt_Fin r t g) as [c Hc]. rewrite !Hc.
  destruct (Qc_ltb 0 r) eqn:E.
  - apply Qc_ltb_true in E. apply Qc_div_pos in E.
    rewrite !clamped_zero; auto; right; rewrite zero_Fin; apply leb_Fin;
      unfold Qcdiv; set (ir := (/ r)%Qc) in *; clearbody ir;
      clear - E Hm Hmm; qc_prep; nra.
  - destruct (Qclt_le_dec c 0) as [Hneg | Hpos].
    + apply clamped_mono; try reflexivity;
        apply leb_Fin; clear - Hneg Hrho Hm Hmm; qc_prep; nra.
    + rewrite !clamped_zero; auto; left; rewrite zero_Fin; apply leb_Fin;
        clear - Hpos Hm Hmm; qc_prep; nra.
Qed.

Lemma NOI_Fin (x : Qc) :
  exists N, Math_max (Fin x) zero = Fin N /\
            (0 <= N)%Qc /\ (x <= N)%Qc /\ (N = x \/ N = 0%Qc).
Proof.
  unfold Math_max. rewrite zero_Fin. cbn [isNaN orb ltb].
  destruct (Qc_ltb x 0) eqn:E.
  - apply Qc_ltb_true in E. exists 0%Qc.
    split; [reflexivity|]. split; [apply Qcle_refl|].
    split; [now apply Qclt_le_weak | now right].
  - apply Qc_ltb_false in E. exists x.
    split; [reflexivity|]. split; [exact E|].
    split; [apply Qcle_refl | now left].
Qed.

Ltac finite_fields :=
  repeat match goal with
  | H : isFinite ?x = true |- _ =>
      apply isFinite_Fin in H; let q := fresh "q" in destruct H as [q ->]
  end.

Ltac finance_fields :=
  cbn [Finance.localRevenuePAD
         Finance.balancingFundPerimbangan Finance.otherLegalRevenue
         Finance.financingReceipts Finance.financingExpenditures
         Finance.personnelExpenses Finance.goodsServicesExpenses
         Finance.capitalExpenditures Finance.rate Finance.termYears
         Finance.graceYears Finance.minDSCR Finance.revGrowth
         Finance.opexGrowth Finance.paymentType Finance.reserveRatio
         Finance.initReserve].

(** The ceiling for finite inputs, in terms of the net operating income
    [N]. *)
Lemma ceiling_Fin (pad per oth frec fexp pers goods cap r d : Qc)
  (rg og rr ir : num) (t g : Z) (pt : PaymentType) :
  d <> 0%Qc ->
  exists N,
    Math_max (Fin (pad + per + oth + (frec - fexp) - (pers + goods + cap)))
             zero = Fin N /\
    (0 <= N)%Qc /\
    (pad + per + oth + (frec - fexp) - (pers + goods + cap) <= N)%Qc /\
    (N = (pad + per + oth + (frec - fexp) - (pers + goods + cap))%Qc
     \/ N = 0%Qc) /\
    ceiling (Finance.mkInputs (Fin pad) (Fin per) (Fin oth) (Fin frec)
               (Fin fexp) (Fin pers) (Fin goods) (Fin cap) rg og (Fin r) t pt
               rr (Fin d) ir g)
    = guarded_allowedDebt (Fin (pad + per + oth)) (Fin (N / d)) (Fin r) t g.
Proof.
  intros Hd.
  destruct (NOI_Fin (pad + per + oth + (frec - fexp) - (pers + goods + cap)))
    as (N & HN & H0 & Hx & Hc).
  exists N. repeat split; auto.
  unfold ceiling, Finance.computeCapacity,
    Finance.getTotalRevenue, Finance.getNettFinancing, Finance.getTotalOpex.
  cbn [Finance.allowedDebt Finance.localRevenuePAD
       Finance.balancingFundPerimbangan Finance.otherLegalRevenue
       Finance.financingReceipts Finance.financingExpenditures
       Finance.personnelExpenses Finance.goodsServicesExpenses
       Finance.capitalExpenditures Finance.rate Finance.termYears
       Finance.graceYears Finance.minDSCR].
  repeat (progress rewrite ?add_Fin, ?sub_Fin).
  rewrite HN, div_Fin by exact Hd. reflexivity.
Qed.

(** C5, amended.  For finite inputs: between two positive values of
    [minDSCR], all other inputs fixed, the larger never gives a larger
    allowed-debt ceiling; and for a [minDSCR] other than 0, increasing any of
    the revenue components never decreases the ceiling. *)
Theorem ceiling_monotone (i : Finance.Inputs) :
  finite_capacity_inputs i ->
  (forall d d' : Qc, (0 < d)%Qc -> (d <= d')%Qc ->
     (ceiling (with_minDSCR i (Fin d')) <=? ceiling (with_minDSCR i (Fin d)))
     = true /\
     minDSCR_never_raises_ceiling i (Fin d) (Fin d')) /\
  (forall d : Qc, Finance.minDSCR i = Fin d -> d <> 0%Qc ->
   forall a a' b b' c c' : Qc,
     (a <= a')%Qc -> (b <= b')%Qc -> (c <= c')%Qc ->
     (ceiling (with_revenue i (Fin a) (Fin b) (Fin c))
      <=? ceiling (with_revenue i (Fin a') (Fin b') (Fin c'))) = true).
Proof.
  destruct i as [pad per oth frec fexp pers goods cap rg og rate t pt rr md ir g].
  unfold finite_capacity_inputs. finance_fields.
  intros (H1 & H2 & H3 & H4 & H5 & H6 & H7 & H8 & H9). finite_fields.
  split.
  - intros d d' Hd Hdd.
    assert (Hd0 : d <> 0%Qc) by (intros ->; discriminate Hd).
    assert (Hd0' : d' <> 0%Qc).
    { intros ->. clear - Hd Hdd. qc_prep. lra. }
    match goal with
    | |- (ceiling ?i' <=? ceiling ?i) = true /\ _ =>
        assert (Hle : (ceiling i' <=? ceiling i) = true)
    end.
    { unfold with_minDSCR. finance_fields.
      match goal with
      | |- (ceiling (Finance.mkInputs (Fin ?pad) (Fin ?per) (Fin ?oth)
              (Fin ?frec) (Fin ?fexp) (Fin ?pers) (Fin ?goods) (Fin ?cap)
              _ _ (Fin ?r) _ _ _ _ _ _) <=? _) = true =>
          destruct (ceiling_Fin pad per oth frec fexp pers goods cap r d'
                      rg og rr ir t g pt Hd0') as (N' & EN' & HN' & _ & _ & ->);
          destruct (ceiling_Fin pad per oth frec fexp pers goods cap r d
                      rg og rr ir t g pt Hd0) as (N & EN & HN & _ & _ & ->)
      end.
      assert (N' = N) as -> by congruence.
      destruct (Qc_div_antitone N d d' HN Hd Hdd) as [Hm Hmm].
      apply guarded_allowedDebt_mono_nonneg; auto using Qcle_refl. }
    split; [exact Hle|]. intros _. now apply leb_ltb_false.
  - intros d -> Hd0 a a' b b' c c' Ha Hb Hc.
    unfold with_revenue. finance_fields.
    match goal with
    | |- (ceiling (Finance.mkInputs _ _ _
            (Fin ?frec) (Fin ?fexp) (Fin ?pers) (Fin ?goods) (Fin ?cap)
            _ _ (Fin ?r) _ _ _ _ _ _) <=? _) = true =>
        destruct (ceiling_Fin a b c frec fexp pers goods cap r d
                    rg og rr ir t g pt Hd0) as (N & _ & HN & HxN & HNc & ->);
        destruct (ceiling_Fin a' b' c' frec fexp pers goods cap r d
                    rg og rr ir t g pt Hd0) as (N' & _ & HN' & HxN' & HNc' & ->)
    end.
    assert (HNN : (N <= N')%Qc).
    { clear - Ha Hb Hc HN HxN HNc HN' HxN' HNc'.
      destruct HNc as [-> | ->]; [|exact HN'].
      eapply Qcle_trans; [|exact HxN']. qc_prep. lra. }
    assert (Hrho : (a + b + c <= a' + b' + c')%Qc)
      by (clear - Ha Hb Hc; qc_prep; lra).
    destruct (Qclt_le_dec 0 d) as [Hpos | Hneg].
    + pose proof (Qc_div_pos d Hpos) as Hi.
      apply guarded_allowedDebt_mono_nonneg; auto;
        unfold Qcdiv; set (x := (/ d)%Qc) in *; clearbody x;
        clear - Hi HN HNN; qc_prep; nra.
    + assert (Hlt : (0 < - d)%Qc).
      { clear - Hneg Hd0. qc_prep.
        destruct (Qlt_le_dec d 0); [lra|]. exfalso. apply Hd0. lra. }
      pose proof (Qc_div_pos _ Hlt) as Hi.
      assert (E : (/ d = - / - d)%Qc).
      { field. split; [|exact Hd0]. clear - Hlt. intros E. rewrite E in Hlt.
        discriminate Hlt. }
      apply guarded_allowedDebt_mono_nonpos; auto;
        unfold Qcdiv; rewrite E; set (x := (/ - d)%Qc) in *; clearbody x;
        clear - Hi HN HNN; qc_prep; nra.
Qed.

Lemma ceiling_monotone_witness :
  (ceiling (with_minDSCR scenario (Fin (Q2Qc 3)))
   <=? ceiling (with_minDSCR scenario (Fin (Q2Qc (5 # 2))))) = true.
Proof.
  apply (proj1 (ceiling_monotone scenario
                  ltac:(repeat split; reflexivity))
               (Q2Qc (5 # 2)) (Q2Qc 3));
    [reflexivity | apply Qc_leb_true; reflexivity].
Defined.

(** Counterexample to C5 as stated: raising [minDSCR] from -1 to 2.5 raises
    the ceiling from 0 to a positive amount. *)
Lemma negative_minDSCR_raises_ceiling :
  ~ minDSCR_never_raises_ceiling scenario (dec (-1) 1) (dec 5 2).
Proof.
  intros H. assert (Hle : (dec (-1) 1 <=? dec 5 2) = true) by reflexivity.
  apply H in Hle. vm_compute in Hle. discriminate Hle.
Qed.

(** ** Total operating expense *)

Lemma opt_or_zero_counted (x : option num) : opt_or_zero x = counted x.
Proof.
  destruct x as [v|]; [|reflexivity]. cbn [opt_or_zero counted].
  destruct v as [q| | |]; try reflexivity.
  now apply or_else_zero_not_NaN.
Qed.

(** C10, amended.  In the engine with a single operating-expense override,
    [getTotalOpex] returns the override when [operatingExpenses] is truthy
    (not zero and not NaN) and otherwise, in particular when it is 0, the sum
    of the three optional components, each counted as 0 when it is missing
    and also when it is NaN.  An override of 0 is thus treated as no
    override. *)
Theorem total_opex_override (i : Variant.Inputs) :
  (truthy (Variant.operatingExpenses i) = true ->
   Variant.getTotalOpex i = Variant.operatingExpenses i) /\
  (truthy (Variant.operatingExpenses i) = false ->
   Variant.getTotalOpex i
   = counted (Variant.personnelExpenses i)
     + counted (Variant.goodsServicesExpenses i)
     + counted (Variant.capitalExpenditures i)) /\
  (Variant.operatingExpenses i = zero ->
   Variant.getTotalOpex i
   = counted (Variant.personnelExpenses i)
     + counted (Variant.goodsServicesExpenses i)
     + counted (Variant.capitalExpenditures i)).
Proof.
  unfold Variant.getTotalOpex. rewrite !opt_or_zero_counted. repeat split.
  - intros ->. reflexivity.
  - intros ->. reflexivity.
  - intros ->. reflexivity.
Qed.

Lemma total_opex_override_witness :
  Variant.getTotalOpex nan_component
  = counted (Some NaN) + counted (Some (dec 5 1)) + counted None.
Proof.
  apply (proj2 (proj2 (total_opex_override nan_component))). reflexivity.
Defined.

(** Counterexample to C10 as stated: with no override and a NaN first
    component the sum of the components is NaN, while the engine returns 5. *)
Lemma opex_not_as_specified_with_nan_component :
  ~ opex_as_specified nan_component.
Proof.
  intros H. specialize (H eq_refl).
  apply (f_equal isNaN) in H. vm_compute in H. discriminate H.
Qed.

(** ** The year loop *)

Section Loop.
Variable body : Z -> Loop -> Row * Loop.

Lemma run_loop_length (k : nat) (y : Z) (s : Loop) :
  List.length (run_loop body k y s) = k.
Proof.
  revert y s. induction k as [|k IH]; intros y s; simpl; [reflexivity|].
  destruct (body y s) as [r s']. simpl. now rewrite IH.
Qed.

(** [I] is an invariant of the loop variables, indexed by the year. *)
Variable I : Z -> Loop -> Prop.
Hypothesis I_step : forall y s, I y s -> I (y + 1)%Z (snd (body y s)).

(** The row at position [j] is the one the body produces for the year
    [y + j] from a state satisfying the invariant, and the row after it is
    produced from the state the body leaves. *)
Lemma run_loop_nth (k : nat) (y : Z) (s : Loop) (j : nat) (r : Row) :
  I y s ->
  nth_error (run_loop body k y s) j = Some r ->
  exists s', I (y + Z.of_nat j)%Z s' /\
    r = fst (body (y + Z.of_nat j)%Z s') /\
    (j < k)%nat /\
    forall r', nth_error (run_loop body k y s) (S j) = Some r' ->
      r' = fst (body (y + Z.of_nat j + 1)%Z
                     (snd (body (y + Z.of_nat j)%Z s'))).
Proof.
  revert y s j. induction k as [|k IH]; intros y s j Hs Hj.
  - destruct j; discriminate Hj.
  - simpl in Hj |- *. destruct (body y s) as [r0 s0] eqn:E.
    destruct j as [|j].
    + simpl in Hj. injection Hj as <-. exists s.
      rewrite Z.add_0_r, E. repeat split; auto; try lia.
      intros r' Hr'. simpl in Hr'.
      destruct k as [|k]; [discriminate Hr'|]. simpl in Hr'.
      destruct (body (y + 1)%Z s0) as [r1 s1] eqn:E1.
      simpl in Hr'. injection Hr' as <-. simpl. now rewrite E1.
    + simpl in Hj.
      assert (Hs0 : I (y + 1)%Z s0).
      { generalize (I_step y s Hs). now rewrite E. }
      destruct (IH (y + 1)%Z s0 j Hs0 Hj) as (s' & Hs' & Hr & Hlt & Hnext).
      replace (y + 1 + Z.of_nat j)%Z with (y + Z.of_nat (S j))%Z in * by lia.
      exists s'. repeat split; auto; try lia.
Qed.
End Loop.

Lemma row_at_nth (rows : list Row) (y : Z) (r : Row) :
  row_at rows y = Some r ->
  (1 <= y)%Z /\ nth_error rows (Z.to_nat (y - 1)) = Some r.
Proof.
  unfold row_at. destruct (1 <=? y)%Z eqn:E; [|discriminate].
  apply Z.leb_le in E. auto.
Qed.

Lemma row_at_succ (rows : list Row) (y : Z) :
  (1 <= y)%Z -> row_at rows (y + 1) = nth_error rows (S (Z.to_nat (y - 1))).
Proof.
  intros Hy. unfold row_at.
  replace (1 <=? y + 1)%Z with true by (symmetry; apply Z.leb_le; lia).
  f_equal. lia.
Qed.

Lemma row_at_exists (rows : list Row) (y : Z) :
  (1 <= y <= Z.of_nat (List.length rows))%Z ->
  exists r, row_at rows y = Some r.
Proof.
  intros Hy. unfold row_at.
  replace (1 <=? y)%Z with true by (symmetry; apply Z.leb_le; lia).
  destruct (nth_error rows (Z.to_nat (y - 1))) as [r|] eqn:E; [eauto|].
  apply nth_error_None in E. lia.
Qed.

Lemma row_at_In (rows : list Row) (y : Z) (r : Row) :
  row_at rows y = Some r -> In r rows.
Proof.
  intros H. apply row_at_nth in H. destruct H as [_ H].
  eapply nth_error_In; eauto.
Qed.

Lemma In_row_at (rows : list Row) (r : Row) :
  In r rows -> exists y, row_at rows y = Some r.
Proof.
  intros H. apply In_nth_error in H. destruct H as [j Hj].
  exists (Z.of_nat j + 1)%Z. unfold row_at.
  replace (1 <=? Z.of_nat j + 1)%Z with true by (symmetry; apply Z.leb_le; lia).
  now replace (Z.to_nat (Z.of_nat j + 1 - 1)) with j by lia.
Qed.

Lemma Forall_row_at (P : Row -> Prop) (rows : list Row) (y : Z) (r : Row) :
  Forall P rows -> row_at rows y = Some r -> P r.
Proof.
  intros H Hr. rewrite Forall_forall in H. apply H. eapply row_at_In; eauto.
Qed.

(** ** Rows of a schedule *)

Ltac split_tests :=
  repeat match goal with
  | |- context [(?a <=? ?b)%Z] => destruct (Z.leb_spec a b)
  | |- context [(?a <? ?b)%Z] => destruct (Z.ltb_spec a b)
  | |- context [is_annuity ?p] => destruct (is_annuity p)
  | |- context [Variant.is_bond ?p] => destruct (Variant.is_bond p)
  end; cbn [negb andb orb]; try lia; try reflexivity.

Lemma Finance_schedule_length (i : Finance.Inputs) (D : num) :
  List.length (Finance.buildSchedule i D) = Z.to_nat (Finance.termYears i).
Proof.
  unfold Finance.buildSchedule. rewrite run_loop_length.
  unfold Finance.schedule_n, Math_floor. lia.
Qed.

Lemma Variant_schedule_length (i : Variant.Inputs) :
  List.length (Variant.buildSchedule i) = Z.to_nat (Variant.termYears i).
Proof.
  unfold Variant.buildSchedule. rewrite run_loop_length.
  unfold Variant.schedule_n, Math_floor. lia.
Qed.

(** The rows of a schedule, by year. *)
Lemma Finance_row_at (i : Finance.Inputs) (D : num) (y : Z) (r : Row) :
  let body := Finance.body i (Finance.schedule_n i) (Finance.schedule_amortYears i)
                (Finance.schedule_annuityPmt i D) (Finance.schedule_epPrincipal i D) in
  row_at (Finance.buildSchedule i D) y = Some r ->
  (1 <= y <= Finance.schedule_n i)%Z /\
  exists s, r = fst (body y s) /\
    forall r', row_at (Finance.buildSchedule i D) (y + 1) = Some r' ->
      r' = fst (body (y + 1)%Z (snd (body y s))).
Proof.
  intros body Hr. apply row_at_nth in Hr. destruct Hr as [Hy Hr].
  unfold Finance.buildSchedule in Hr.
  apply (run_loop_nth _ (fun _ _ => True)) in Hr; auto.
  destruct Hr as (s & _ & Hr & Hlt & Hnext).
  replace (1 + Z.of_nat (Z.to_nat (y - 1)))%Z with y in * by lia.
  split; [lia|]. exists s. split; [exact Hr|].
  intros r' Hr'. rewrite row_at_succ in Hr' by lia. now apply Hnext.
Qed.

Lemma Variant_row_at (i : Variant.Inputs) (y : Z) (r : Row) :
  let body := Variant.body i (Variant.schedule_n i) (Variant.schedule_amortYears i)
                (Variant.schedule_annuityPmt i) (Variant.schedule_epPrincipal i) in
  row_at (Variant.buildSchedule i) y = Some r ->
  (1 <= y <= Variant.schedule_n i)%Z /\
  exists s, r = fst (body y s) /\
    forall r', row_at (Variant.buildSchedule i) (y + 1) = Some r' ->
      r' = fst (body (y + 1)%Z (snd (body y s))).
Proof.
  intros body Hr. apply row_at_nth in Hr. destruct Hr as [Hy Hr].
  unfold Variant.buildSchedule in Hr.
  apply (run_loop_nth _ (fun _ _ => True)) in Hr; auto.
  destruct Hr as (s & _ & Hr & Hlt & Hnext).
  replace (1 + Z.of_nat (Z.to_nat (y - 1)))%Z with y in * by lia.
  split; [lia|]. exists s. split; [exact Hr|].
  intros r' Hr'. rewrite row_at_succ in Hr' by lia. now apply Hnext.
Qed.

Lemma Finance_row_exists (i : Finance.Inputs) (D : num) (y : Z) :
  (1 <= y <= Finance.termYears i)%Z ->
  exists r, row_at (Finance.buildSchedule i D) y = Some r.
Proof.
  intros Hy. apply row_at_exists. rewrite Finance_schedule_length. lia.
Qed.

Lemma Variant_row_exists (i : Variant.Inputs) (y : Z) :
  (1 <= y <= Variant.termYears i)%Z ->
  exists r, row_at (Variant.buildSchedule i) y = Some r.
Proof.
  intros Hy. apply row_at_exists. rewrite Variant_schedule_length. lia.
Qed.

Lemma Finance_row_In (i : Finance.Inputs) (D : num) (r : Row) :
  In r (Finance.buildSchedule i D) ->
  exists y s,
    r = fst (Finance.body i (Finance.schedule_n i)
               (Finance.schedule_amortYears i)
               (Finance.schedule_annuityPmt i D)
               (Finance.schedule_epPrincipal i D) y s).
Proof.
  intros H. apply In_row_at in H. destruct H as [y Hy].
  destruct (Finance_row_at i D y r Hy) as (_ & s & Hr & _). eauto.
Qed.

Lemma Variant_row_year (i : Variant.Inputs) (y : Z) (r : Row) :
  row_at (Variant.buildSchedule i) y = Some r -> year r = y.
Proof.
  intros Hr. destruct (Variant_row_at i y r Hr) as (_ & s & -> & _).
  reflexivity.
Qed.

(** ** Bond interest *)

Lemma Variant_bond_interest (i : Variant.Inputs) (y : Z) (r : Row) :
  Variant.debtType i = Variant.bond ->
  row_at (Variant.buildSchedule i) y = Some r ->
  interest r = Variant.actualDebt i * Variant.rate i.
Proof.
  intros Hb Hr. destruct (Variant_row_at i y r Hr) as (Hy & s & -> & _).
  unfold Variant.schedule_n, Math_floor in Hy.
  unfold Variant.body. cbn [fst interest]. rewrite Hb. cbn [Variant.is_bond].
  replace (y <=? Variant.termYears i)%Z with true
    by (symmetry; apply Z.leb_le; lia).
  reflexivity.
Qed.

(** C2.  In the engine with debt types, when [debtType] is [bond] every
    row [y] from 1 to [termYears] exists and its interest is
    [actualDebt * rate], the same in every year.  In particular, for a
    principal of 1,000,000,000,000 at 8% over ten years the interest of each of
    the ten rows is 80,000,000,000. *)
Theorem bond_interest_constant (i : Variant.Inputs) :
  Variant.debtType i = Variant.bond ->
  (forall y, (1 <= y <= Variant.termYears i)%Z ->
     exists r, row_at (Variant.buildSchedule i) y = Some r /\ year r = y /\
               interest r = Variant.actualDebt i * Variant.rate i) /\
  (Variant.actualDebt i = dec 1000000000000 1 ->
   Variant.rate i = dec 8 100 ->
   Variant.termYears i = 10%Z ->
   forall y, (1 <= y <= 10)%Z ->
     exists r, row_at (Variant.buildSchedule i) y = Some r /\ year r = y /\
               interest r = dec 80000000000 1).
Proof.
  intros Hb.
  assert (H : forall y, (1 <= y <= Variant.termYears i)%Z ->
     exists r, row_at (Variant.buildSchedule i) y = Some r /\ year r = y /\
               interest r = Variant.actualDebt i * Variant.rate i).
  { intros y Hy. destruct (Variant_row_exists i y Hy) as [r Hr].
    exists r. split; [exact Hr|]. split.
    - eapply Variant_row_year; eauto.
    - eapply Variant_bond_interest; eauto. }
  split; [exact H|].
  intros HD Hrate Ht y Hy.
  destruct (H y) as (r & Hr & Hyr & Hi); [lia|].
  exists r. repeat split; auto.
  rewrite Hi, HD, Hrate. unfold dec. rewrite mul_Fin. f_equal.
  apply Qc_is_canon. reflexivity.
Qed.

Lemma bond_interest_constant_witness :
  exists r, row_at (Variant.buildSchedule bond_scenario) 7 = Some r /\
            year r = 7%Z /\ interest r = dec 80000000000 1.
Proof.
  apply (proj2 (bond_interest_constant bond_scenario eq_refl));
    try reflexivity; lia.
Defined.

(** ** Balances of a schedule *)

(** Clamping a candidate principal to the balance: the result lies between
    0 and the balance as soon as the candidate is not NaN. *)
Lemma clamp_principal (b : Qc) (X : num) :
  (0 <= b)%Qc -> isNaN X = false ->
  exists p, Math_max zero (Math_min (Fin b) X) = Fin p /\
            (0 <= p)%Qc /\ (p <= b)%Qc.
Proof.
  intros Hb HX. destruct X as [x| | |]; [| | |discriminate HX];
    unfold Math_max, Math_min; cbn [isNaN orb ltb]; rewrite ?zero_Fin.
  - ltb_cases; cbn [isNaN orb ltb]; ltb_cases;
      eexists; (split; [reflexivity|]); split; qc_prep; lra.
  - cbn [isNaN orb ltb]; ltb_cases;
      eexists; (split; [reflexivity|]); split; qc_prep; lra.
  - cbn [isNaN orb ltb]. exists 0%Qc. split; [reflexivity|].
    split; qc_prep; lra. 
Qed.

Lemma next_balance (b p : Qc) :
  (p <= b)%Qc -> Math_max (Fin b - Fin p) zero = Fin (b - p).
Proof.
  intros H. rewrite sub_Fin, zero_Fin. unfold Math_max. cbn [isNaN orb ltb].
  ltb_cases; [|reflexivity]. exfalso. qc_prep. lra.
Qed.

Lemma Finance_body_balance (i : Finance.Inputs) (n a : Z) (ap ep : num)
  (y : Z) (s : Loop) (b r : Qc) :
  prevBeg s = Fin b -> (0 <= b)%Qc ->
  Finance.rate i = Fin r ->
  isNaN ap = false -> isNaN ep = false ->
  exists p,
    begBal (fst (Finance.body i n a ap ep y s)) = Fin b /\
    principal (fst (Finance.body i n a ap ep y s)) = Fin p /\
    (0 <= p)%Qc /\ (p <= b)%Qc /\
    prevBeg (snd (Finance.body i n a ap ep y s)) = Fin (b - p).
Proof.
  intros Hs Hb Hr Hap Hep.
  unfold Finance.body. cbn [fst snd begBal principal prevBeg].
  rewrite Hs, Hr.
  set (interest := if (y <=? Finance.termYears i)%Z then Fin b * Fin r else zero).
  assert (Hi : exists x, interest = Fin x).
  { subst interest. destruct (y <=? Finance.termYears i)%Z;
      rewrite ?mul_Fin, ?zero_Fin; eauto. }
  destruct Hi as [x Hx]. rewrite Hx. clearbody interest.
  set (principal :=
         if negb (y <=? Finance.graceYears i)%Z && (y <=? Finance.termYears i)%Z
         then _ else zero).
  assert (Hp : exists p, principal = Fin p /\ (0 <= p)%Qc /\ (p <= b)%Qc).
  { subst principal.
    destruct (negb (y <=? Finance.graceYears i)%Z && (y <=? Finance.termYears i)%Z).
    - destruct (is_annuity (Finance.paymentType i)).
      + apply clamp_principal; [exact Hb|]. now apply sub_Fin_not_NaN.
      + now apply clamp_principal.
    - exists 0%Qc. split; [reflexivity|]. split; [apply Qcle_refl|exact Hb]. }
  destruct Hp as (p & Hp & Hp0 & Hpb). rewrite Hp. clearbody principal.
  exists p. repeat split; auto. now apply next_balance.
Qed.

Lemma Finance_balance_step (i : Finance.Inputs) (n a : Z) (ap ep : num) (r : Qc) :
  Finance.rate i = Fin r -> isNaN ap = false -> isNaN ep = false ->
  forall y s, balance_ok y s ->
    balance_ok (y + 1) (snd (Finance.body i n a ap ep y s)).
Proof.
  intros Hr Hap Hep y s (b & Hs & Hb).
  destruct (Finance_body_balance i n a ap ep y s b r Hs Hb Hr Hap Hep)
    as (p & _ & _ & Hp0 & Hpb & Hnext).
  exists (b - p)%Qc. split; [exact Hnext|]. clear - Hpb. qc_prep. lra.
Qed.

Lemma schedule_epPrincipal_not_NaN (i : Finance.Inputs) (d : Qc) :
  isNaN (Finance.schedule_epPrincipal i (Fin d)) = false.
Proof.
  unfold Finance.schedule_epPrincipal.
  destruct (negb _); cbn [andb]; [|reflexivity].
  destruct (Z.ltb_spec 0 (Finance.schedule_amortYears i)); [|reflexivity].
  unfold of_Z. rewrite div_Fin by (now apply inject_Z_nonzero). reflexivity.
Qed.

(** Every row of a schedule built from a principal that is finite and not
    negative, at a finite rate, with a level payment that is not NaN: its
    balance, principal and interest are finite, the principal lies between 0
    and the balance, and the next row starts from what is left. *)
Lemma Finance_row_balance (i : Finance.Inputs) (d r : Qc) (y : Z) (row : Row) :
  (0 <= d)%Qc -> Finance.rate i = Fin r ->
  isNaN (Finance.schedule_annuityPmt i (Fin d)) = false ->
  row_at (Finance.buildSchedule i (Fin d)) y = Some row ->
  exists b p x,
    (0 <= b)%Qc /\ (0 <= p)%Qc /\ (p <= b)%Qc /\
    begBal row = Fin b /\ principal row = Fin p /\
    interest row = Fin x /\ (x = b * r \/ x = 0)%Qc /\
    debtService row
    = (if (y <=? Finance.graceYears i)%Z then interest row
       else interest row + principal row) /\
    forall row', row_at (Finance.buildSchedule i (Fin d)) (y + 1) = Some row' ->
      begBal row' = Fin (b - p).
Proof.
  intros HD0 Hr Hap Hrow.
  pose proof (schedule_epPrincipal_not_NaN i d) as Hep.
  pose proof (Finance_balance_step i (Finance.schedule_n i)
                (Finance.schedule_amortYears i) _ _ r Hr Hap Hep) as Hstep.
  assert (Hinit : balance_ok 1 (Finance.schedule_init i (Fin d))).
  { exists d. split; [reflexivity|exact HD0]. }
  pose proof Hrow as Hrow0.
  apply row_at_nth in Hrow. destruct Hrow as [Hy Hrow].
  unfold Finance.buildSchedule in Hrow.
  apply (run_loop_nth _ balance_ok Hstep) in Hrow; [|exact Hinit].
  destruct Hrow as (s & (b & Hs & Hb) & Hrow & _ & Hnext).
  replace (1 + Z.of_nat (Z.to_nat (y - 1)))%Z with y in * by lia.
  destruct (Finance_body_balance i (Finance.schedule_n i)
              (Finance.schedule_amortYears i) _ _ y s b r Hs Hb Hr Hap Hep)
    as (p & Hbeg & Hprin & Hp0 & Hpb & Hnb).
  rewrite <- Hrow in Hbeg, Hprin.
  exists b, p, (if (y <=? Finance.termYears i)%Z then b * r else 0)%Qc.
  repeat split; auto.
  - rewrite Hrow. unfold Finance.body. cbn [fst interest]. rewrite Hs, Hr.
    destruct (y <=? Finance.termYears i)%Z; reflexivity.
  - destruct (y <=? Finance.termYears i)%Z; auto.
  - rewrite Hrow. reflexivity.
  - intros row' Hrow'. rewrite row_at_succ in Hrow' by lia.
    unfold Finance.buildSchedule in Hrow'. apply Hnext in Hrow'.
    subst row'. unfold Finance.body at 1. cbn [fst begBal]. exact Hnb.
Qed.

(** C3, amended.  For every schedule [buildSchedule] produces from a
    principal that is finite and not negative, at a finite rate, with a level
    payment [annuityPmt] (the [pmt (rate, amortYears, principal)] computed
    before the loop, 0 without level payments) that is finite, and for every
    year [y]: the beginning balance is not negative, the principal paid does
    not exceed it, the balance left at the end of the year (the final
    balance, after the last year) is not negative, and
    [begBal [y + 1] <= begBal [y]]. *)
Theorem balances_in_order_for_nonnegative_principal
  (i : Finance.Inputs) (D : num) :
  isFinite D = true -> (zero <=? D) = true ->
  isFinite (Finance.rate i) = true ->
  isFinite (Finance.schedule_annuityPmt i D) = true ->
  balances_in_order (Finance.buildSchedule i D).
Proof.
  intros HD HD0 Hr Hap.
  apply isFinite_Fin in HD. destruct HD as [d ->].
  apply isFinite_Fin in Hr. destruct Hr as [r Hr].
  apply isFinite_not_NaN in Hap. apply leb_Fin in HD0.
  split.
  - intros y row H.
    destruct (Finance_row_balance i d r y row HD0 Hr Hap H)
      as (b & p & x & Hb & Hp0 & Hpb & -> & -> & _).
    rewrite sub_Fin, zero_Fin. repeat split; apply leb_Fin; auto.
    clear - Hpb. qc_prep. lra.
  - intros y row row' H H'.
    destruct (Finance_row_balance i d r y row HD0 Hr Hap H)
      as (b & p & x & Hb & Hp0 & Hpb & -> & _ & _ & _ & _ & Hnext).
    rewrite (Hnext row' H'). apply leb_Fin. clear - Hp0. qc_prep. lra.
Qed.

Lemma balances_in_order_witness :
  balances_in_order (Finance.buildSchedule scenario (dec 1000 1)).
Proof.
  apply balances_in_order_for_nonnegative_principal; reflexivity.
Defined.

(** Counterexample to C3 as stated: for a principal of -5 the first
    beginning balance is negative. *)
Lemma balances_out_of_order_for_negative_principal :
  ~ balances_in_order (Finance.buildSchedule scenario (dec (-5) 1)).
Proof.
  intros [H _].
  destruct (Finance_row_exists scenario (dec (-5) 1) 1 ltac:(cbn; lia))
    as [r Hr].
  destruct (H 1%Z r Hr) as [H0 _].
  assert (Hd : option_map (fun r => zero <=? begBal r)
                 (row_at (Finance.buildSchedule scenario (dec (-5) 1)) 1)
               = Some false) by (vm_compute; reflexivity).
  rewrite Hr in Hd. cbn [option_map] in Hd. congruence.
Qed.

(** ** The reserve look-ahead *)

Lemma Finance_lookahead_step (i : Finance.Inputs) (ap ep : num) (y : Z) (s : Loop) :
  let body := Finance.body i (Finance.schedule_n i) (Finance.schedule_amortYears i) ap ep in
  (1 <= y < Finance.schedule_n i)%Z ->
  reserveTarget (fst (body y s)) = debtService (fst (body (y + 1)%Z (snd (body y s)))).
Proof.
  intros body Hy. subst body. 
  unfold Finance.schedule_n, Finance.schedule_amortYears, Math_floor in *.
  unfold Finance.body. cbn [fst snd reserveTarget debtService prevBeg].
  split_tests.
Qed.

Lemma Variant_lookahead_step (i : Variant.Inputs) (ap ep : num) (y : Z) (s : Loop) :
  let body := Variant.body i (Variant.schedule_n i) (Variant.schedule_amortYears i) ap ep in
  (1 <= y < Variant.schedule_n i)%Z ->
  reserveTarget (fst (body y s)) = debtService (fst (body (y + 1)%Z (snd (body y s)))).
Proof.
  intros body Hy. subst body. 
  unfold Variant.schedule_n, Variant.schedule_amortYears, Math_floor in *.
  unfold Variant.body. cbn [fst snd reserveTarget debtService prevBeg].
  split_tests.
Qed.

(** C4.  In both engines, for every year [y] with [1 <= y < termYears] the
    reserve target of row [y] is the debt service of row [y + 1]: the
    look-ahead recomputation agrees with what the next pass of the loop
    computes.  The reserve target of the last row is 0. *)
Theorem reserve_target_lookahead :
  (forall (i : Finance.Inputs) (D : num),
     let rows := Finance.buildSchedule i D in
     (forall y, (1 <= y < Finance.termYears i)%Z ->
        exists r r', row_at rows y = Some r /\ row_at rows (y + 1) = Some r' /\
                     reserveTarget r = debtService r') /\
     ((1 <= Finance.termYears i)%Z ->
        exists r, row_at rows (Finance.termYears i) = Some r /\
                  reserveTarget r = zero)) /\
  (forall (i : Variant.Inputs),
     let rows := Variant.buildSchedule i in
     (forall y, (1 <= y < Variant.termYears i)%Z ->
        exists r r', row_at rows y = Some r /\ row_at rows (y + 1) = Some r' /\
                     reserveTarget r = debtService r') /\
     ((1 <= Variant.termYears i)%Z ->
        exists r, row_at rows (Variant.termYears i) = Some r /\
                  reserveTarget r = zero)).
Proof.
  split.
  - intros i D rows. split.
    + intros y Hy.
      destruct (Finance_row_exists i D y) as [r Hr]; [lia|].
      destruct (Finance_row_exists i D (y + 1)) as [r' Hr']; [lia|].
      exists r, r'. repeat split; auto.
      destruct (Finance_row_at i D _ r Hr) as (Hy' & s & -> & Hnext).
      rewrite (Hnext _ Hr'). apply Finance_lookahead_step.
      unfold Finance.schedule_n, Math_floor. lia.
    + intros Ht.
      destruct (Finance_row_exists i D (Finance.termYears i)) as [r Hr]; [lia|].
      exists r. split; auto.
      destruct (Finance_row_at i D _ r Hr) as (Hy' & s & -> & _).
      unfold Finance.body, Finance.schedule_n, Math_floor. cbn [fst reserveTarget].
      replace (Finance.termYears i <? Z.max 0 (Finance.termYears i))%Z with false
        by (symmetry; apply Z.ltb_ge; lia).
      reflexivity.
  - intros i rows. split.
    + intros y Hy.
      destruct (Variant_row_exists i y) as [r Hr]; [lia|].
      destruct (Variant_row_exists i (y + 1)) as [r' Hr']; [lia|].
      exists r, r'. repeat split; auto.
      destruct (Variant_row_at i _ r Hr) as (Hy' & s & -> & Hnext).
      rewrite (Hnext _ Hr'). apply Variant_lookahead_step.
      unfold Variant.schedule_n, Math_floor. lia.
    + intros Ht.
      destruct (Variant_row_exists i (Variant.termYears i)) as [r Hr]; [lia|].
      exists r. split; auto.
      destruct (Variant_row_at i _ r Hr) as (Hy' & s & -> & _).
      unfold Variant.body, Variant.schedule_n, Math_floor. cbn [fst reserveTarget].
      replace (Variant.termYears i <? Z.max 0 (Variant.termYears i))%Z with false
        by (symmetry; apply Z.ltb_ge; lia).
      reflexivity.
Qed.

Lemma reserve_target_lookahead_witness :
  exists r r',
    row_at (Finance.buildSchedule scenario (dec 1000 1)) 3 = Some r /\
    row_at (Finance.buildSchedule scenario (dec 1000 1)) (3 + 1) = Some r' /\
    reserveTarget r = debtService r'.
Proof.
  apply (proj1 (proj1 reserve_target_lookahead scenario (dec 1000 1)) 3%Z).
  cbn. lia.
Defined.

(** ** Coverage ratio of a row *)

(** In a schedule built from a principal and at a rate that are finite and
    not negative, with a finite level payment, no debt service is
    negative. *)
Lemma Finance_debtService_nonneg (i : Finance.Inputs) (D : num) (row : Row) :
  isFinite D = true -> (zero <=? D) = true ->
  isFinite (Finance.rate i) = true -> (zero <=? Finance.rate i) = true ->
  isFinite (Finance.schedule_annuityPmt i D) = true ->
  In row (Finance.buildSchedule i D) ->
  (zero <=? debtService row) = true.
Proof.
  intros HD HD0 Hr Hr0 Hap Hin.
  apply isFinite_Fin in HD. destruct HD as [d ->].
  apply isFinite_Fin in Hr. destruct Hr as [r Hr].
  rewrite Hr in Hr0. rewrite zero_Fin in HD0, Hr0.
  apply leb_Fin in HD0. apply leb_Fin in Hr0.
  apply isFinite_not_NaN in Hap.
  apply In_row_at in Hin. destruct Hin as [y Hrow].
  destruct (Finance_row_balance i d r y row HD0 Hr Hap Hrow)
    as (b & p & x & Hb & Hp0 & Hpb & _ & Hp & Hx & Hxc & -> & _).
  rewrite Hx, Hp.
  assert (Hx0 : (0 <= x)%Qc).
  { destruct Hxc as [-> | ->]; [|apply Qcle_refl].
    clear - Hb Hr0. qc_prep. nra. }
  destruct (y <=? Finance.graceYears i)%Z;
    rewrite ?add_Fin, zero_Fin; apply leb_Fin.
  - exact Hx0.
  - clear - Hx0 Hp0. qc_prep. lra.
Qed.

(** C7, amended.  In every row of a schedule the ratio [dscr] is null exactly
    when the debt service is not greater than 0 (zero, negative or NaN), and
    is [availForDS / debtService] when it is.  For a debt service that is not
    negative, and so in every schedule built from a principal and at a rate
    that are finite and not negative with a level payment [annuityPmt] that
    is finite, null means a debt service of exactly 0. *)
Theorem dscr_null_iff_no_positive_debt_service
  (i : Finance.Inputs) (D : num) (r : Row) :
  In r (Finance.buildSchedule i D) ->
  (dscr r = None <-> (debtService r >? zero) = false) /\
  ((debtService r >? zero) = true ->
     dscr r = Some (availForDS r / debtService r)) /\
  ((zero <=? debtService r) = true ->
     (dscr r = None <-> debtService r = zero)) /\
  (isFinite D = true -> (zero <=? D) = true ->
   isFinite (Finance.rate i) = true -> (zero <=? Finance.rate i) = true ->
   isFinite (Finance.schedule_annuityPmt i D) = true ->
     (dscr r = None <-> debtService r = zero)).
Proof.
  intros Hin.
  assert (H1 : dscr r = None <-> (debtService r >? zero) = false).
  { destruct (Finance_row_In i D r Hin) as (y & s & ->).
    unfold Finance.body. cbn [fst dscr debtService].
    match goal with |- context [if ?b then Some _ else None] => destruct b end;
      split; congruence. }
  assert (H3 : (zero <=? debtService r) = true ->
               (dscr r = None <-> debtService r = zero)).
  { intros Hle. rewrite H1. now apply gtb_zero_nonneg. }
  split; [exact H1|]. split; [|split; [exact H3|]].
  - destruct (Finance_row_In i D r Hin) as (y & s & ->).
    unfold Finance.body. cbn [fst dscr debtService availForDS].
    intros ->. reflexivity.
  - intros HD HD0 Hr Hr0 Hap. apply H3.
    now apply (Finance_debtService_nonneg i D r).
Qed.

Lemma dscr_null_iff_no_positive_debt_service_witness :
  exists r, row_at (Finance.buildSchedule negative_rate (dec 100 1)) 1 = Some r /\
            dscr r = None /\ (debtService r >? zero) = false.
Proof.
  destruct (Finance_row_exists negative_rate (dec 100 1) 1 ltac:(cbn; lia))
    as [r Hr].
  exists r. split; [exact Hr|].
  assert (Hd : option_map (fun r => debtService r >? zero)
                 (row_at (Finance.buildSchedule negative_rate (dec 100 1)) 1)
               = Some false) by (vm_compute; reflexivity).
  rewrite Hr in Hd. injection Hd as Hd.
  pose proof (dscr_null_iff_no_positive_debt_service negative_rate (dec 100 1) r
                (row_at_In _ _ _ Hr)) as (H1 & _).
  split; [apply H1|]; exact Hd.
Defined.

(** Counterexample to C7 as stated: at a negative rate the first (grace)
    year has a debt service of -5, which is not 0, and a null ratio. *)
Lemma dscr_null_with_negative_debt_service :
  ~ Forall dscr_null_exactly_at_zero
      (Finance.buildSchedule negative_rate (dec 100 1)).
Proof.
  intros H.
  destruct (Finance_row_exists negative_rate (dec 100 1) 1 ltac:(cbn; lia))
    as [r Hr].
  pose proof (Forall_row_at _ _ _ _ H Hr) as Hc. clear H. rename Hc into H.
  assert (Hd : option_map
                 (fun r => (match dscr r with None => true | Some _ => false end,
                            eqb (debtService r) zero,
                            eqb (debtService r) (dec (-5) 1)))
                 (row_at (Finance.buildSchedule negative_rate (dec 100 1)) 1)
               = Some (true, false, true)) by (vm_compute; reflexivity).
  rewrite Hr in Hd. cbn in Hd. injection Hd as Hnull Hz _.
  destruct H as [H _].
  destruct (dscr r); [discriminate Hnull|].
  rewrite H in Hz by reflexivity. discriminate Hz.
Qed.

(** ** The minimum-DSCR reducer *)

Lemma fold_min_NaN (l : list num) : fold_left Math_min l NaN = NaN.
Proof. induction l as [|d l IH]; [reflexivity|]. exact IH. Qed.

Lemma fold_min_In_NaN (l : list num) (acc : num) :
  In NaN l -> fold_left Math_min l acc = NaN.
Proof.
  revert acc. induction l as [|d l IH]; intros acc H; [destruct H|].
  cbn [fold_left]. destruct H as [-> | H].
  - rewrite Math_min_NaN_r. apply fold_min_NaN.
  - now apply IH.
Qed.

Lemma fold_min_minimum (l : list num) (acc m : num) :
  (m <=? acc) = true ->
  Forall (fun d => (m <=? d) = true) l ->
  m = acc \/ In m l ->
  fold_left Math_min l acc = m.
Proof.
  revert acc. induction l as [|d l IH]; intros acc Hacc Hall Hin.
  - destruct Hin as [-> | []]. reflexivity.
  - cbn [fold_left]. inversion Hall as [|? ? Hd Hl]; subst.
    apply IH; auto.
    + now apply Math_min_glb.
    + destruct Hin as [-> | [-> | Hin]].
      * left. symmetry. now apply Math_min_l.
      * left. symmetry. now apply Math_min_r.
      * now right.
Qed.

Lemma minDSCR_fold (rows : list Row) :
  minDSCR rows
  = let min := fold_left Math_min (qualifying_values rows) PInf in
    if isFinite min then min else zero.
Proof.
  unfold minDSCR. cbv zeta.
  assert (H : forall acc,
    fold_left (fun min r => match qualifying r with
                            | Some d => Math_min min d
                            | None => min
                            end) rows acc
    = fold_left Math_min (qualifying_values rows) acc).
  { induction rows as [|r rows IH]; intros acc; [reflexivity|].
    cbn [fold_left qualifying_values fold_right].
    fold (qualifying_values rows).
    destruct (qualifying r); cbn [fold_left]; apply IH. }
  now rewrite H.
Qed.

Lemma qualifying_values_In (rows : list Row) (d : num) :
  In d (qualifying_values rows) <->
  exists r, In r rows /\ (debtService r >? zero) = true /\ dscr r = Some d.
Proof.
  induction rows as [|r rows IH]; cbn [qualifying_values fold_right].
  - split; [intros [] | intros (r & [] & _)].
  - fold (qualifying_values rows).
    assert (Hq : forall d', qualifying r = Some d' <->
                 (debtService r >? zero) = true /\ dscr r = Some d').
    { intros d'. unfold qualifying. destruct (debtService r >? zero).
      - tauto.
      - split; [discriminate | intros [H _]; discriminate H]. }
    destruct (qualifying r) as [d0|] eqn:E.
    + cbn [In]. rewrite IH. split.
      * intros [<- | (r' & Hin & H)].
        -- exists r. split; [now left|]. now apply Hq.
        -- exists r'. split; [now right|exact H].
      * intros (r' & [<- | Hin] & H).
        -- left. apply Hq in H. congruence.
        -- right. eauto.
    + rewrite IH. split.
      * intros (r' & Hin & H). exists r'. split; [now right|exact H].
      * intros (r' & [<- | Hin] & H).
        -- apply Hq in H. congruence.
        -- eauto.
Qed.

(** C6, amended.  For every row sequence, the values the reducer scans are
    exactly the ratios of the rows with [debtService > 0] and a ratio that is
    not null.  It returns their minimum when that minimum is finite, and the
    sentinel 0 when no row qualifies, and also when the minimum is infinite or
    one of the values is NaN. *)
Theorem minDSCR_reducer (rows : list Row) :
  (forall d, In d (qualifying_values rows) <->
     exists r, In r rows /\ (debtService r >? zero) = true /\
               dscr r = Some d) /\
  (qualifying_values rows = [] -> minDSCR rows = zero) /\
  (forall m, is_minimum m (qualifying_values rows) ->
     isFinite m = true -> minDSCR rows = m) /\
  (forall m, is_minimum m (qualifying_values rows) ->
     isFinite m = false -> minDSCR rows = zero) /\
  (In NaN (qualifying_values rows) -> minDSCR rows = zero).
Proof.
  split; [intros d; apply qualifying_values_In|].
  rewrite minDSCR_fold. cbv zeta.
  assert (Hmin : forall m, is_minimum m (qualifying_values rows) ->
            fold_left Math_min (qualifying_values rows) PInf = m).
  { intros m [Hin Hall]. apply fold_min_minimum; auto.
    apply leb_PInf. rewrite Forall_forall in Hall.
    now destruct (leb_not_NaN _ _ (Hall m Hin)). }
  repeat split.
  - intros ->. reflexivity.
  - intros m Hm Hfin. rewrite (Hmin m Hm), Hfin. reflexivity.
  - intros m Hm Hfin. rewrite (Hmin m Hm), Hfin. reflexivity.
  - intros H. rewrite fold_min_In_NaN by exact H. reflexivity.
Qed.

Lemma minDSCR_reducer_witness : minDSCR three_rows = dec 2 1.
Proof.
  apply (proj1 (proj2 (proj2 (minDSCR_reducer three_rows)))).
  - split.
    + right. left. reflexivity.
    + repeat constructor.
  - reflexivity.
Defined.

(** Counterexample to C6 as stated: for one qualifying row with an infinite
    ratio the minimum is that ratio, and the reducer returns 0. *)
Lemma reducer_not_as_specified_at_infinite_ratio :
  ~ reducer_as_specified infinite_ratio_rows.
Proof.
  intros [_ H]. specialize (H PInf).
  assert (Hm : is_minimum PInf (qualifying_values infinite_ratio_rows)).
  { split; [left; reflexivity | repeat constructor]. }
  apply H in Hm. vm_compute in Hm. discriminate Hm.
Qed.

(** ** Invariants of the year loop *)

(** A property of the loop variables that holds when the loop starts and that
    each of the years [1 .. termYears] preserves holds of the state from
    which each row is produced. *)
Lemma Finance_row_inv (i : Finance.Inputs) (D : num) (I : Z -> Loop -> Prop) :
  let body := Finance.body i (Finance.schedule_n i) (Finance.schedule_amortYears i)
                (Finance.schedule_annuityPmt i D) (Finance.schedule_epPrincipal i D) in
  (forall y s, (1 <= y <= Finance.termYears i)%Z -> I y s ->
     I (y + 1)%Z (snd (body y s))) ->
  I 1%Z (Finance.schedule_init i D) ->
  forall y r, row_at (Finance.buildSchedule i D) y = Some r ->
    (1 <= y <= Finance.termYears i)%Z /\
    exists s, I y s /\ r = fst (body y s) /\
      forall r', row_at (Finance.buildSchedule i D) (y + 1) = Some r' ->
        r' = fst (body (y + 1)%Z (snd (body y s))).
Proof.
  intros body Hstep Hinit y r Hr.
  apply row_at_nth in Hr. destruct Hr as [Hy Hr].
  unfold Finance.buildSchedule in Hr.
  apply (run_loop_nth _
           (fun y s => (1 <= y)%Z /\ ((y <= Finance.termYears i)%Z -> I y s)))
    in Hr.
  - destruct Hr as (s & (_ & Hs) & Hr & Hlt & Hnext).
    replace (1 + Z.of_nat (Z.to_nat (y - 1)))%Z with y in * by lia.
    unfold Finance.schedule_n, Math_floor in Hlt.
    assert (Hyn : (1 <= y <= Finance.termYears i)%Z) by lia.
    split; [exact Hyn|]. exists s. split; [apply Hs; lia|].
    split; [exact Hr|].
    intros r' Hr'. rewrite row_at_succ in Hr' by lia. now apply Hnext.
  - intros y0 s0 (H1 & H2). split; [lia|]. intros H3.
    apply Hstep; [lia|]. apply H2. lia.
  - split; [lia|]. intros _. exact Hinit.
Qed.

Lemma Variant_row_inv (i : Variant.Inputs) (I : Z -> Loop -> Prop) :
  let body := Variant.body i (Variant.schedule_n i) (Variant.schedule_amortYears i)
                (Variant.schedule_annuityPmt i) (Variant.schedule_epPrincipal i) in
  (forall y s, (1 <= y <= Variant.termYears i)%Z -> I y s ->
     I (y + 1)%Z (snd (body y s))) ->
  I 1%Z (Variant.schedule_init i) ->
  forall y r, row_at (Variant.buildSchedule i) y = Some r ->
    (1 <= y <= Variant.termYears i)%Z /\
    exists s, I y s /\ r = fst (body y s) /\
      forall r', row_at (Variant.buildSchedule i) (y + 1) = Some r' ->
        r' = fst (body (y + 1)%Z (snd (body y s))).
Proof.
  intros body Hstep Hinit y r Hr.
  apply row_at_nth in Hr. destruct Hr as [Hy Hr].
  unfold Variant.buildSchedule in Hr.
  apply (run_loop_nth _
           (fun y s => (1 <= y)%Z /\ ((y <= Variant.termYears i)%Z -> I y s)))
    in Hr.
  - destruct Hr as (s & (_ & Hs) & Hr & Hlt & Hnext).
    replace (1 + Z.of_nat (Z.to_nat (y - 1)))%Z with y in * by lia.
    unfold Variant.schedule_n, Math_floor in Hlt.
    assert (Hyn : (1 <= y <= Variant.termYears i)%Z) by lia.
    split; [exact Hyn|]. exists s. split; [apply Hs; lia|].
    split; [exact Hr|].
    intros r' Hr'. rewrite row_at_succ in Hr' by lia. now apply Hnext.
  - intros y0 s0 (H1 & H2). split; [lia|]. intros H3.
    apply Hstep; [lia|]. apply H2. lia.
  - split; [lia|]. intros _. exact Hinit.
Qed.

Lemma add_zero_r (a : num) : a + zero = a.
Proof.
  destruct a as [q| | |]; try reflexivity.
  rewrite zero_Fin, add_Fin. f_equal. ring.
Qed.

(** ** The shape of a schedule *)

Lemma run_loop_years (body : Z -> Loop -> Row * Loop) :
  (forall y s, year (fst (body y s)) = y) ->
  forall k y s,
    map year (run_loop body k y s)
    = map (fun j => (y + Z.of_nat j)%Z) (seq 0 k).
Proof.
  intros Hb k. induction k as [|k IH]; intros y s; [reflexivity|].
  cbn [run_loop]. pose proof (Hb y s) as H0.
  destruct (body y s) as [r s']. cbn [fst] in H0.
  cbn [map seq]. rewrite H0, Z.add_0_r. f_equal.
  rewrite IH, <- seq_shift, map_map. apply map_ext. intros j. lia.
Qed.

Lemma slice_0_all {A : Type} (rows : list A) (e : Z) :
  List.length rows = Z.to_nat e -> slice_0 rows e = rows.
Proof.
  intros H. unfold slice_0.
  destruct (Z.ltb_spec e 0) as [He | He].
  - rewrite firstn_all2; [reflexivity|]. lia.
  - rewrite firstn_all2; [reflexivity|]. lia.
Qed.

(** X1.  [buildSchedule] returns one row per year of the term, numbered
    1, 2, ..., [termYears] in order (no row at all when [termYears <= 0]),
    whatever the other inputs are; so the [slice (0, termYears)] the page takes
    of it before display leaves every row in. *)
Theorem schedule_years (i : Finance.Inputs) (D : num) :
  map year (Finance.buildSchedule i D)
  = map (fun j => (1 + Z.of_nat j)%Z) (seq 0 (Z.to_nat (Finance.termYears i)))
  /\ List.length (Finance.buildSchedule i D) = Z.to_nat (Finance.termYears i)
  /\ Page.shown i = sched (Page.base i).
Proof.
  split; [|split].
  - unfold Finance.buildSchedule. rewrite run_loop_years by reflexivity.
    unfold Finance.schedule_n, Math_floor.
    now replace (Z.to_nat (Z.max 0 (Finance.termYears i)))
      with (Z.to_nat (Finance.termYears i)) by lia.
  - apply Finance_schedule_length.
  - unfold Page.shown. apply slice_0_all.
    unfold Page.base. cbn [sched]. apply Finance_schedule_length.
Qed.

(** What the body of the loop puts in a row, whatever the inputs. *)
Lemma Finance_row_facts (i : Finance.Inputs) (D : num) (y : Z) (r : Row) :
  row_at (Finance.buildSchedule i D) y = Some r ->
  year r = y /\
  interest r = begBal r * Finance.rate i /\
  debtService r = interest r + principal r /\
  availForDS r = revenue r - opex r /\
  reserveEnd r = reserveBeg r + reserveAlloc r /\
  surplus r = revenue r - opex r - debtService r - reserveAlloc r /\
  ((y <= Finance.graceYears i)%Z ->
   principal r = zero /\ debtService r = interest r).
Proof.
  intros Hr. destruct (Finance_row_at i D y r Hr) as (Hy & s & -> & _).
  unfold Finance.schedule_n, Math_floor in Hy.
  unfold Finance.body.
  cbn [fst year interest begBal debtService principal availForDS revenue opex
       reserveEnd reserveBeg reserveAlloc surplus].
  replace (y <=? Finance.termYears i)%Z with true
    by (symmetry; apply Z.leb_le; lia).
  rewrite andb_true_r.
  repeat split.
  - destruct (y <=? Finance.graceYears i)%Z; cbn [negb];
      [now rewrite add_zero_r | reflexivity].
  - apply Z.leb_le in H. now rewrite H.
  - apply Z.leb_le in H. now rewrite H.
Qed.

(** X2.  Every year [y] from 1 to [termYears] has a row in a schedule of
    [src/lib/finance.ts] and, whatever the inputs, in that row: the interest
    is the beginning balance times the rate (the [y <= termYears] guard never
    fails inside the loop), the debt service is interest plus principal, the
    amount available is revenue less operating expense, the reserve ends at
    its beginning plus the allocation, and in a grace year
    ([y <= graceYears]) the principal is 0 and the debt service is the
    interest alone. *)
Theorem row_accounting (i : Finance.Inputs) (D : num) (y : Z) :
  (1 <= y <= Finance.termYears i)%Z ->
  exists r, row_at (Finance.buildSchedule i D) y = Some r /\
    year r = y /\
    interest r = begBal r * Finance.rate i /\
    debtService r = interest r + principal r /\
    availForDS r = revenue r - opex r /\
    reserveEnd r = reserveBeg r + reserveAlloc r /\
    surplus r = revenue r - opex r - debtService r - reserveAlloc r /\
    ((y <= Finance.graceYears i)%Z ->
     principal r = zero /\ debtService r = interest r).
Proof.
  intros Hy. destruct (Finance_row_exists i D y Hy) as [r Hr].
  exists r. split; [exact Hr|]. exact (Finance_row_facts i D y r Hr).
Qed.

Lemma row_accounting_witness :
  exists r, row_at (Finance.buildSchedule scenario (dec 1000 1)) 2 = Some r /\
    year r = 2%Z /\
    interest r = begBal r * Finance.rate scenario /\
    debtService r = interest r + principal r /\
    availForDS r = revenue r - opex r /\
    reserveEnd r = reserveBeg r + reserveAlloc r /\
    surplus r = revenue r - opex r - debtService r - reserveAlloc r /\
    ((2 <= Finance.graceYears scenario)%Z ->
     principal r = zero /\ debtService r = interest r).
Proof. apply (row_accounting scenario (dec 1000 1) 2). cbn. lia. Defined.

(** ** Whole numbers of years as rationals *)

Lemma of_Z_succ (z : Z) :
  Q2Qc (inject_Z (z + 1)) = (Q2Qc (inject_Z z) + 1)%Qc.
Proof. qc_prep. rewrite inject_Z_plus. reflexivity. Qed.

Lemma of_Z_nonneg (z : Z) : (0 <= z)%Z -> (0 <= Q2Qc (inject_Z z))%Qc.
Proof.
  intros H. qc_prep. change 0%Q with (inject_Z 0). now rewrite <- Zle_Qle.
Qed.

Lemma of_Z_pos (z : Z) : (0 < z)%Z -> (0 < Q2Qc (inject_Z z))%Qc.
Proof.
  intros H. qc_prep. change 0%Q with (inject_Z 0). now rewrite <- Zlt_Qlt.
Qed.

Lemma Qc_mul_nonneg (x y : Qc) : (0 <= x)%Qc -> (0 <= y)%Qc -> (0 <= x * y)%Qc.
Proof. intros Hx Hy. qc_prep. nra. Qed.

Lemma Qc_div_nonneg (x y : Qc) : (0 <= x)%Qc -> (0 < y)%Qc -> (0 <= x / y)%Qc.
Proof.
  intros Hx Hy. apply Qc_div_pos in Hy. unfold Qcdiv.
  apply Qc_mul_nonneg; [exact Hx|]. now apply Qclt_le_weak.
Qed.

Lemma Math_max_zero_nonneg (y : num) :
  (zero <=? y) = true -> Math_max zero y = y.
Proof.
  destruct y as [q| | |]; try discriminate; [|reflexivity].
  rewrite zero_Fin. intros H. apply leb_Fin in H.
  unfold Math_max. cbn [isNaN orb ltb]. ltb_cases; [reflexivity|].
  f_equal. now apply Qcle_antisym.
Qed.

(** Paying [p], between 0 and the balance [b], out of [b]. *)
Lemma pay_principal (b p : Qc) :
  (0 <= p)%Qc -> (p <= b)%Qc ->
  Math_max zero (Math_min (Fin b) (Fin p)) = Fin p /\
  Math_max (Fin b - Fin p) zero = Fin (b - p).
Proof.
  intros H0 Hb. split; [|now apply next_balance].
  rewrite Math_min_r by now apply leb_Fin.
  apply Math_max_zero_nonneg. rewrite zero_Fin. now apply leb_Fin.
Qed.

(** ** Equal instalments of principal *)

(** The rows of a schedule that repays in equal instalments: with
    [paymentType = equal_principal], and also with level payments at a rate
    of 0. *)
Lemma Finance_level_principal_rows (i : Finance.Inputs) (d : Qc) (y : Z) :
  Finance.paymentType i = equal_principal \/ Finance.rate i = zero ->
  (0 <= d)%Qc ->
  (0 <= Finance.graceYears i < Finance.termYears i)%Z ->
  (1 <= y <= Finance.termYears i)%Z ->
  let n := Finance.termYears i in
  let g := Finance.graceYears i in
  exists r, row_at (Finance.buildSchedule i (Fin d)) y = Some r /\
    ((y <= g)%Z -> begBal r = Fin d /\ principal r = zero) /\
    ((g < y)%Z ->
       principal r = Fin (d / Q2Qc (inject_Z (n - g))) /\
       begBal r
       = Fin (d * Q2Qc (inject_Z (n - y + 1)) / Q2Qc (inject_Z (n - g)))).
Proof.
  intros Hcase Hd Hg Hy n g. set (a := (n - g)%Z).
  assert (Ha : Finance.schedule_amortYears i = a).
  { unfold Finance.schedule_amortYears, Math_floor. fold n g. lia. }
  assert (Ha0 : Q2Qc (inject_Z a) <> 0%Qc) by (apply inject_Z_nonzero; lia).
  assert (Hapos : (0 < Q2Qc (inject_Z a))%Qc) by (apply of_Z_pos; lia).
  assert (Hcand : forall b,
            (if is_annuity (Finance.paymentType i)
             then Finance.schedule_annuityPmt i (Fin d) - Fin b * Finance.rate i
             else Finance.schedule_epPrincipal i (Fin d))
            = Fin (d / Q2Qc (inject_Z a))).
  { intros b. unfold Finance.schedule_annuityPmt, Finance.schedule_epPrincipal.
    rewrite Ha.
    replace (0 <? a)%Z with true by (symmetry; apply Z.ltb_lt; lia).
    destruct (Finance.paymentType i) eqn:Ept; cbn [is_annuity negb andb].
    - destruct Hcase as [Hc | Hc]; [discriminate Hc|]. rewrite Hc.
      unfold pmt. replace (a <=? 0)%Z with false
        by (symmetry; apply Z.leb_gt; lia).
      replace (eqb zero zero) with true by reflexivity.
      unfold of_Z. rewrite zero_Fin, add_Fin, div_Fin, mul_Fin, sub_Fin
        by exact Ha0.
      f_equal. now field.
    - unfold of_Z. now rewrite div_Fin. }
  set (bal := fun y : Z =>
         (d * Q2Qc (inject_Z (n - y + 1)) / Q2Qc (inject_Z a))%Qc).
  set (I := fun (y : Z) (s : Loop) =>
         ((y <= g + 1)%Z -> prevBeg s = Fin d) /\
         ((g + 1 <= y)%Z -> prevBeg s = Fin (bal y))).
  assert (Hbal0 : bal (g + 1)%Z = d).
  { unfold bal. replace (n - (g + 1) + 1)%Z with a by (unfold a; lia).
    now field. }
  assert (Hprin : forall y s, (1 <= y <= n)%Z -> I y s ->
            principal (fst (Finance.body i (Finance.schedule_n i)
                              (Finance.schedule_amortYears i)
                              (Finance.schedule_annuityPmt i (Fin d))
                              (Finance.schedule_epPrincipal i (Fin d)) y s))
            = (if (y <=? g)%Z then zero else Fin (d / Q2Qc (inject_Z a))) /\
            prevBeg (snd (Finance.body i (Finance.schedule_n i)
                              (Finance.schedule_amortYears i)
                              (Finance.schedule_annuityPmt i (Fin d))
                              (Finance.schedule_epPrincipal i (Fin d)) y s))
            = (if (y <=? g)%Z then Fin d else Fin (bal (y + 1)%Z))).
  { intros y0 s Hy0 [H1 H2]. unfold Finance.body.
    cbn [fst snd principal prevBeg]. fold n g.
    replace (y0 <=? n)%Z with true by (symmetry; apply Z.leb_le; lia).
    destruct (Z.leb_spec y0 g) as [Hle | Hgt]; cbn [negb andb].
    - rewrite H1 by lia. rewrite zero_Fin.
      rewrite next_balance by exact Hd. split; [reflexivity|].
      f_equal. ring.
    - rewrite H2 by lia.
      assert (Hk : bal y0 = (bal (y0 + 1)%Z + d / Q2Qc (inject_Z a))%Qc).
      { unfold bal. replace (n - y0 + 1)%Z with (n - (y0 + 1) + 1 + 1)%Z by lia.
        rewrite of_Z_succ. now field. }
      assert (Hb1 : (0 <= bal (y0 + 1)%Z)%Qc).
      { unfold bal. apply Qc_div_nonneg; [|exact Hapos].
        apply Qc_mul_nonneg; [exact Hd|]. apply of_Z_nonneg. lia. }
      assert (Hp0 : (0 <= d / Q2Qc (inject_Z a))%Qc)
        by (now apply Qc_div_nonneg).
      destruct (pay_principal (bal y0) (d / Q2Qc (inject_Z a))) as [E1 E2];
        [exact Hp0 | rewrite Hk; clear - Hb1; qc_prep; lra |].
      pose proof (Hcand (bal y0)) as Hc.
      destruct (is_annuity (Finance.paymentType i)); rewrite Hc, E1, E2;
        (split; [reflexivity|]); f_equal; rewrite Hk; ring. }
  destruct (Finance_row_exists i (Fin d) y Hy) as [r Hr].
  exists r. split; [exact Hr|].
  destruct (Finance_row_inv i (Fin d) I) with (y := y) (r := r)
    as (_ & s & Hs & -> & _); [| |exact Hr|].
  { intros y0 s Hy0 Hs. destruct (Hprin y0 s Hy0 Hs) as [_ Hn].
    unfold I. rewrite Hn. split; intros H.
    - destruct (Z.leb_spec y0 g); [reflexivity|lia].
    - destruct (Z.leb_spec y0 g); [|reflexivity].
      replace y0 with g by lia. now rewrite Hbal0. }
  { split; intros H; [reflexivity|].
    cbn [Finance.schedule_init prevBeg]. replace 1%Z with (g + 1)%Z by lia.
    now rewrite Hbal0. }
  destruct (Hprin y s Hy Hs) as [Hp _]. rewrite Hp.
  replace (begBal (fst (Finance.body i (Finance.schedule_n i)
                              (Finance.schedule_amortYears i)
                              (Finance.schedule_annuityPmt i (Fin d))
                              (Finance.schedule_epPrincipal i (Fin d)) y s)))
    with (prevBeg s) by reflexivity.
  destruct Hs as [H1 H2].
  split.
  - intros H. rewrite H1 by lia.
    destruct (Z.leb_spec y g); [auto|lia].
  - intros H. rewrite H2 by lia.
    destruct (Z.leb_spec y g); [lia|]. split; reflexivity.
Qed.

(** X3.  With [paymentType = equal_principal], a principal [D] that is finite
    and not negative and [0 <= graceYears < termYears]: through the grace
    years the balance stays at [D] and no principal is paid; in each later
    year [y] the principal paid is [D / (termYears - graceYears)] and the
    beginning balance is [D * (termYears - y + 1) / (termYears - graceYears)],
    both over exact arithmetic.  The rate plays no part. *)
Theorem equal_principal_amortization (i : Finance.Inputs) (D : num) (y : Z) :
  Finance.paymentType i = equal_principal ->
  isFinite D = true -> (zero <=? D) = true ->
  (0 <= Finance.graceYears i < Finance.termYears i)%Z ->
  (1 <= y <= Finance.termYears i)%Z ->
  let n := Finance.termYears i in
  let g := Finance.graceYears i in
  exists r, row_at (Finance.buildSchedule i D) y = Some r /\
    ((y <= g)%Z -> begBal r = D /\ principal r = zero) /\
    ((g < y)%Z ->
       principal r = D / of_Z (n - g) /\
       begBal r = D * of_Z (n - y + 1) / of_Z (n - g)).
Proof.
  intros Hpt HD HD0 Hg Hy n g.
  apply isFinite_Fin in HD. destruct HD as [d ->].
  rewrite zero_Fin in HD0. apply leb_Fin in HD0.
  assert (Ha0 : Q2Qc (inject_Z (n - g)) <> 0%Qc)
    by (apply inject_Z_nonzero; lia).
  destruct (Finance_level_principal_rows i d y (or_introl Hpt) HD0 Hg Hy)
    as (r & Hr & Hgrace & Hlater).
  fold n g in Hgrace, Hlater.
  exists r. split; [exact Hr|]. unfold of_Z.
  rewrite !mul_Fin, !div_Fin by exact Ha0.
  split; [exact Hgrace|exact Hlater].
Qed.

Lemma equal_principal_amortization_witness :
  exists r,
    row_at (Finance.buildSchedule equal_principal_scenario (dec 1000 1)) 10
    = Some r /\
    ((10 <= 2)%Z -> begBal r = dec 1000 1 /\ principal r = zero) /\
    ((2 < 10)%Z ->
       principal r = dec 1000 1 / of_Z (10 - 2) /\
       begBal r = dec 1000 1 * of_Z (10 - 10 + 1) / of_Z (10 - 2)).
Proof.
  apply (equal_principal_amortization equal_principal_scenario (dec 1000 1) 10);
    try reflexivity; cbn; lia.
Defined.

(** X4.  At a rate of 0 ([rate === 0]), with either payment type, a
    principal [D] that is finite and not negative and
    [0 <= graceYears < termYears]: every year bears no interest; the grace
    years pay nothing; each later year pays [D / (termYears - graceYears)]
    (over exact arithmetic) of principal, which is its whole debt
    service. *)
Theorem zero_rate_schedule (i : Finance.Inputs) (D : num) (y : Z) :
  eqb (Finance.rate i) zero = true ->
  isFinite D = true -> (zero <=? D) = true ->
  (0 <= Finance.graceYears i < Finance.termYears i)%Z ->
  (1 <= y <= Finance.termYears i)%Z ->
  let n := Finance.termYears i in
  let g := Finance.graceYears i in
  exists r, row_at (Finance.buildSchedule i D) y = Some r /\
    interest r = zero /\
    ((y <= g)%Z -> principal r = zero /\ debtService r = zero) /\
    ((g < y)%Z ->
       principal r = D / of_Z (n - g) /\ debtService r = D / of_Z (n - g)).
Proof.
  intros Hrate HD HD0 Hg Hy n g.
  apply isFinite_Fin in HD. destruct HD as [d ->].
  rewrite zero_Fin in HD0. apply leb_Fin in HD0.
  assert (Hr : Finance.rate i = zero).
  { destruct (Finance.rate i) as [q| | |]; try discriminate Hrate.
    rewrite zero_Fin in *. cbn [eqb] in Hrate. apply Qc_eqb_true in Hrate.
    now subst. }
  assert (Ha0 : Q2Qc (inject_Z (n - g)) <> 0%Qc)
    by (apply inject_Z_nonzero; lia).
  destruct (Finance_level_principal_rows i d y (or_intror Hr) HD0 Hg Hy)
    as (r & Hrow & Hgrace & Hlater).
  fold n g in Hgrace, Hlater.
  destruct (Finance_row_facts i (Fin d) y r Hrow)
    as (_ & Hint & Hds & _ & _ & _ & _).
  exists r. split; [exact Hrow|]. unfold of_Z.
  rewrite !div_Fin by exact Ha0.
  assert (Hi0 : interest r = zero).
  { rewrite Hint, Hr.
    destruct (Z_le_gt_dec y g) as [Hle | Hgt].
    - destruct (Hgrace Hle) as [-> _]. rewrite zero_Fin, mul_Fin.
      f_equal. ring.
    - destruct (Hlater ltac:(lia)) as [_ ->]. rewrite zero_Fin, mul_Fin.
      f_equal. ring. }
  rewrite Hds, Hi0. split; [reflexivity|].
  split.
  - intros Hle. destruct (Hgrace Hle) as [_ ->]. split; reflexivity.
  - intros Hgt. destruct (Hlater Hgt) as [-> _]. split; [reflexivity|].
    rewrite zero_Fin, add_Fin. f_equal. ring.
Qed.

Lemma zero_rate_schedule_witness :
  exists r, row_at (Finance.buildSchedule near_statutory (dec 1000 1)) 1 = Some r /\
    interest r = zero /\
    ((1 <= 0)%Z -> principal r = zero /\ debtService r = zero) /\
    ((0 < 1)%Z ->
       principal r = dec 1000 1 / of_Z (1 - 0) /\
       debtService r = dec 1000 1 / of_Z (1 - 0)).
Proof.
  apply (zero_rate_schedule near_statutory (dec 1000 1) 1);
    try reflexivity; cbn; lia.
Defined.

(** ** Grace years *)

(** One year of the loop of [src/lib/finance.ts] during grace. *)
Lemma Finance_body_grace (i : Finance.Inputs) (n a : Z) (ap ep : num)
  (y : Z) (s : Loop) (b : Qc) :
  prevBeg s = Fin b -> (0 <= b)%Qc ->
  (y <= Finance.graceYears i)%Z -> (y <= Finance.termYears i)%Z ->
  let row := fst (Finance.body i n a ap ep y s) in
  begBal row = Fin b /\ principal row = zero /\
  debtService row = Fin b * Finance.rate i /\
  prevBeg (snd (Finance.body i n a ap ep y s)) = Fin b.
Proof.
  intros Hs Hb Hg Ht row. subst row. unfold Finance.body.
  cbn [fst snd begBal principal debtService prevBeg].
  replace (y <=? Finance.graceYears i)%Z with true
    by (symmetry; apply Z.leb_le; lia).
  replace (y <=? Finance.termYears i)%Z with true
    by (symmetry; apply Z.leb_le; lia).
  cbn [negb andb]. rewrite Hs. repeat split; try reflexivity.
  rewrite zero_Fin, next_balance by exact Hb. f_equal. ring.
Qed.

(** The rows of the grace years. *)
Lemma Finance_grace_rows (i : Finance.Inputs) (d : Qc) (y : Z) :
  (0 <= d)%Qc ->
  (1 <= y <= Finance.termYears i)%Z -> (y <= Finance.graceYears i)%Z ->
  exists row, row_at (Finance.buildSchedule i (Fin d)) y = Some row /\
    begBal row = Fin d /\ principal row = zero /\
    debtService row = Fin d * Finance.rate i /\
    begBal row - principal row = Fin d.
Proof.
  intros Hd Hy Hg.
  destruct (Finance_row_exists i (Fin d) y Hy) as [row Hrow].
  exists row. split; [exact Hrow|].
  set (I := fun (y : Z) (s : Loop) =>
              (y <= Finance.graceYears i + 1)%Z -> prevBeg s = Fin d).
  destruct (Finance_row_inv i (Fin d) I) with (y := y) (r := row)
    as (_ & s & Hs & -> & _); [| |exact Hrow|].
  { intros y0 s Hy0 Hs H.
    destruct (Finance_body_grace i (Finance.schedule_n i)
                (Finance.schedule_amortYears i)
                (Finance.schedule_annuityPmt i (Fin d))
                (Finance.schedule_epPrincipal i (Fin d)) y0 s d)
      as (_ & _ & _ & E); auto; try lia.
    apply Hs. lia. }
  { intros _. reflexivity. }
  destruct (Finance_body_grace i (Finance.schedule_n i)
              (Finance.schedule_amortYears i)
              (Finance.schedule_annuityPmt i (Fin d))
              (Finance.schedule_epPrincipal i (Fin d)) y s d)
    as (E1 & E2 & E3 & _); auto; try lia.
  { apply Hs. lia. }
  rewrite E1, E2, E3. repeat split. rewrite zero_Fin, sub_Fin. f_equal. ring.
Qed.

(** X6.  Whatever the payment type and the rate: in every grace year of the
    term ([y <= graceYears] and [y <= termYears]) of a schedule built from a
    principal [D] that is finite and not negative, the balance is still [D],
    no principal is paid and the debt service is the interest [D * rate].  In
    particular when [termYears <= graceYears] no principal is ever repaid. *)
Theorem grace_years_interest_only (i : Finance.Inputs) (D : num) (y : Z) :
  isFinite D = true -> (zero <=? D) = true ->
  (1 <= y <= Finance.termYears i)%Z -> (y <= Finance.graceYears i)%Z ->
  exists row, row_at (Finance.buildSchedule i D) y = Some row /\
    begBal row = D /\ principal row = zero /\
    debtService row = D * Finance.rate i /\
    begBal row - principal row = D.
Proof.
  intros HD HD0 Hy Hg.
  apply isFinite_Fin in HD. destruct HD as [d ->].
  rewrite zero_Fin in HD0. apply leb_Fin in HD0.
  exact (Finance_grace_rows i d y HD0 Hy Hg).
Qed.

Lemma grace_years_interest_only_witness :
  exists row,
    row_at (Finance.buildSchedule grace_covers_term (dec 1000 1)) 10 = Some row /\
    begBal row = dec 1000 1 /\ principal row = zero /\
    debtService row = dec 1000 1 * Finance.rate grace_covers_term /\
    begBal row - principal row = dec 1000 1.
Proof.
  apply (grace_years_interest_only grace_covers_term (dec 1000 1) 10);
    try reflexivity; cbn; lia.
Defined.

(** ** Projected revenue and operating expense *)

Lemma Math_pow_Fin_nat (q : Qc) (z : Z) :
  (0 <= z)%Z -> Math_pow (Fin q) z = Fin (q ^ Z.to_nat z).
Proof.
  intros Hz. destruct z as [|p|p]; try lia; reflexivity.
Qed.

Lemma Qcpower_succ_r (q : Qc) (k : nat) : (q ^ S k = q ^ k * q)%Qc.
Proof. change (q ^ S k)%Qc with (q * q ^ k)%Qc. ring. Qed.

(** X7.  For finite amounts and growth rates, the revenue of year [y] is
    [(totalRevenue + nettFinancing) * (1 + revGrowth) ^ y] (the net financing
    is projected and grown together with the revenue), the operating expense
    is [totalOpex * (1 + opexGrowth) ^ y] (over exact arithmetic), and the
    amount available for debt service is their difference. *)
Theorem projections_compound (i : Finance.Inputs) (D : num) (y : Z) :
  isFinite (Finance.getTotalRevenue i + Finance.getNettFinancing i) = true ->
  isFinite (Finance.revGrowth i) = true ->
  isFinite (Finance.getTotalOpex i) = true ->
  isFinite (Finance.opexGrowth i) = true ->
  (1 <= y <= Finance.termYears i)%Z ->
  exists row, row_at (Finance.buildSchedule i D) y = Some row /\
    revenue row
    = (Finance.getTotalRevenue i + Finance.getNettFinancing i)
      * Math_pow (one + Finance.revGrowth i) y /\
    opex row
    = Finance.getTotalOpex i * Math_pow (one + Finance.opexGrowth i) y /\
    availForDS row = revenue row - opex row.
Proof.
  intros HR Hg HO Ho Hy.
  apply isFinite_Fin in HR, Hg, HO, Ho.
  destruct HR as [R HR], Hg as [g Hg], HO as [O HO], Ho as [o Ho].
  destruct (Finance_row_exists i D y Hy) as [row Hrow].
  exists row. split; [exact Hrow|].
  set (I := fun (y : Z) (s : Loop) =>
              cur_revenue s = Fin (R * (1 + g) ^ Z.to_nat y) /\
              cur_opex s = Fin (O * (1 + o) ^ Z.to_nat y)).
  destruct (Finance_row_inv i D I) with (y := y) (r := row)
    as (_ & s & [Hs1 Hs2] & -> & _); [| |exact Hrow|].
  { intros y0 s Hy0 [H1 H2]. unfold I, Finance.body.
    cbn [snd cur_revenue cur_opex]. rewrite H1, H2, Hg, Ho.
    autorewrite with num_fin.
    replace (Z.to_nat (y0 + 1)) with (S (Z.to_nat y0)) by lia.
    rewrite !Qcpower_succ_r. split; f_equal; ring. }
  { unfold I, Finance.schedule_init. cbn [cur_revenue cur_opex].
    rewrite HR, HO, Hg, Ho. autorewrite with num_fin.
    change (Z.to_nat 1) with 1%nat. cbn [Qcpower].
    split; f_equal; ring. }
  unfold Finance.body. cbn [fst revenue opex availForDS].
  rewrite Hs1, Hs2, HR, HO, Hg, Ho. autorewrite with num_fin.
  rewrite !Math_pow_Fin_nat by lia. autorewrite with num_fin.
  repeat split.
Qed.

Lemma projections_compound_witness :
  exists row, row_at (Finance.buildSchedule scenario (dec 1000 1)) 4 = Some row /\
    revenue row
    = (Finance.getTotalRevenue scenario + Finance.getNettFinancing scenario)
      * Math_pow (one + Finance.revGrowth scenario) 4 /\
    opex row
    = Finance.getTotalOpex scenario
      * Math_pow (one + Finance.opexGrowth scenario) 4 /\
    availForDS row = revenue row - opex row.
Proof.
  apply (projections_compound scenario (dec 1000 1) 4);
    try reflexivity; cbn; lia.
Defined.

(** ** The ceiling for amounts that are numbers *)

Lemma finite_nonzero (x : num) :
  isFinite x = true -> eqb x zero = false -> exists d, x = Fin d /\ d <> 0%Qc.
Proof.
  intros H E. apply isFinite_Fin in H. destruct H as [d ->].
  exists d. split; [reflexivity|]. now apply Qc_eqb_false in E.
Qed.

Lemma or_else_zero_is_number (p : num) : isNaN (or_else p zero) = false.
Proof.
  destruct p as [q| | |]; try reflexivity.
  unfold or_else, truthy. destruct (Qc_eqb q 0); reflexivity.
Qed.

Lemma div_nonzero_not_NaN (a : num) (d : Qc) :
  isNaN a = false -> d <> 0%Qc -> isNaN (a / Fin d) = false.
Proof.
  intros Ha Hd. destruct a as [q| | |]; [| | |discriminate Ha].
  - now rewrite div_Fin.
  - cbn [div]. destruct (Qc_ltb d 0); reflexivity.
  - cbn [div]. destruct (Qc_ltb d 0); reflexivity.
Qed.

Lemma Math_max_zero_r_not_NaN (x : num) :
  isNaN x = false -> isNaN (Math_max x zero) = false.
Proof.
  intros Hx. destruct x as [q| | |]; [| | |discriminate Hx];
    unfold Math_max; rewrite zero_Fin; cbn [isNaN orb ltb];
    try destruct (Qc_ltb q _); reflexivity.
Qed.

Lemma capInterestOnly_not_NaN (r : Qc) (m : num) :
  isNaN m = false -> isNaN (spec_capInterestOnly (Fin r) m) = false.
Proof.
  intros Hm. unfold spec_capInterestOnly, gtb. rewrite zero_Fin. cbn [ltb].
  destruct (Qc_ltb 0 r) eqn:E; [|reflexivity].
  apply Qc_ltb_true in E. apply div_nonzero_not_NaN; [exact Hm|].
  intros ->. discriminate E.
Qed.

(** The annual debt service the ceiling is sized for, and the two bounds of
    the coverage ceiling, are numbers. *)
Lemma Finance_ceiling_bounds (i : Finance.Inputs) :
  capacity_amounts_defined i ->
  let m := Finance.NOI (Finance.computeCapacity i) / Finance.minDSCR i in
  isNaN m = false /\
  isNaN (or_else (spec_pvAfterGrace (Finance.rate i) (Finance.termYears i)
                    (Finance.graceYears i) m) zero) = false /\
  isNaN (spec_capInterestOnly (Finance.rate i) m) = false.
Proof.
  intros (_ & HX & Hr & Hm & Hm0) m.
  destruct (finite_nonzero _ Hm Hm0) as (d & Hd & Hd0).
  apply isFinite_Fin in Hr. destruct Hr as [r Hr].
  assert (Nm : isNaN m = false).
  { subst m. rewrite Hd. apply div_nonzero_not_NaN; [|exact Hd0].
    change (Finance.NOI (Finance.computeCapacity i))
      with (Math_max (Finance.getTotalRevenue i + Finance.getNettFinancing i
                      - Finance.getTotalOpex i) zero).
    now apply Math_max_zero_r_not_NaN. }
  split; [exact Nm|]. split; [apply or_else_zero_is_number|].
  rewrite Hr. now apply capInterestOnly_not_NaN.
Qed.

(** [max (0, min (rule, y))] for a finite rule and a number [y]: a finite
    number that is not negative and that, unless it is 0, does not exceed the
    rule. *)
Lemma clamped_within (rho : Qc) (y : num) :
  isNaN y = false ->
  exists A, Math_max zero (Math_min (Fin rho) y) = Fin A /\
    (0 <= A)%Qc /\ (A = 0%Qc \/ (A <= rho)%Qc).
Proof.
  intros Hy. destruct y as [c| | |]; [| | |discriminate Hy];
    unfold Math_max, Math_min; rewrite zero_Fin; cbn [isNaN orb ltb];
    ltb_cases; cbn [isNaN orb ltb]; ltb_cases;
    eexists; (split; [reflexivity|]);
    (split; [qc_prep; lra|]);
    first [ left; reflexivity | right; qc_prep; lra ].
Qed.

(** What [computeCapacity] returns when the amounts it works from are
    numbers. *)
Lemma Finance_ceiling_Fin (i : Finance.Inputs) :
  capacity_amounts_defined i ->
  exists rev A : Qc,
    Finance.getTotalRevenue i = Fin rev /\
    Finance.maxDebtRevenueRule (Finance.computeCapacity i)
      = Fin (Q2Qc (75 # 100) * rev) /\
    Finance.allowedDebt (Finance.computeCapacity i) = Fin A /\
    (0 <= A)%Qc /\ (A = 0%Qc \/ (A <= Q2Qc (75 # 100) * rev)%Qc).
Proof.
  intros Hdef.
  destruct (Finance_ceiling_bounds i Hdef) as (_ & Np & Nc).
  destruct Hdef as (Hrev & _).
  apply isFinite_Fin in Hrev. destruct Hrev as [rev Hrev].
  exists rev.
  change (Finance.maxDebtRevenueRule (Finance.computeCapacity i))
    with (dec 75 100 * Finance.getTotalRevenue i).
  change (Finance.allowedDebt (Finance.computeCapacity i))
    with (guarded_allowedDebt (Finance.getTotalRevenue i)
            (Finance.NOI (Finance.computeCapacity i) / Finance.minDSCR i)
            (Finance.rate i) (Finance.termYears i) (Finance.graceYears i)).
  unfold guarded_allowedDebt, spec_maxDebtRevenueRule.
  rewrite Hrev. unfold dec. rewrite mul_Fin.
  match goal with
  | |- context [Math_min (Fin ?rule) ?y] =>
      destruct (clamped_within rule y) as (A & HA & HA0 & HAc)
  end.
  { now apply Math_min_not_NaN. }
  exists A. rewrite HA. repeat split; auto.
Qed.

(** X9.  When the amounts [computeCapacity] works from are numbers (a finite
    total revenue, revenue plus net financing less operating expense not
    NaN, a finite rate and a finite coverage floor other than 0), the allowed
    debt it returns is finite and not negative; when the total revenue is not
    negative it does not exceed the revenue rule [0.75 * totalRevenue], so
    the 75% check of the page, [allowedDebt <= 0.75 * totalRevenue + 1e-6],
    passes. *)
Theorem allowed_debt_within_revenue_rule (i : Finance.Inputs) :
  capacity_amounts_defined i ->
  let c := Finance.computeCapacity i in
  isFinite (Finance.allowedDebt c) = true /\
  (zero <=? Finance.allowedDebt c) = true /\
  ((zero <=? Finance.getTotalRevenue i) = true ->
   (Finance.allowedDebt c <=? Finance.maxDebtRevenueRule c) = true /\
   Page.seventyFiveOk i = true).
Proof.
  intros Hdef c. subst c.
  destruct (Finance_ceiling_Fin i Hdef)
    as (rev & A & Hrev & Hrule & HA & HA0 & HAc).
  rewrite HA, Hrule. split; [reflexivity|].
  split; [rewrite zero_Fin; now apply leb_Fin|].
  rewrite Hrev, zero_Fin. intros H. apply leb_Fin in H.
  assert (Hle : (A <= Q2Qc (75 # 100) * rev)%Qc).
  { destruct HAc as [-> | HAc]; [|exact HAc]. clear - H. qc_prep. lra. }
  split; [now apply leb_Fin|].
  unfold Page.seventyFiveOk, Page.base. cbn [cap].
  rewrite HA, Hrev. unfold dec. rewrite mul_Fin, add_Fin. apply leb_Fin.
  clear - Hle. qc_prep. lra.
Qed.

Lemma allowed_debt_within_revenue_rule_witness :
  isFinite (Finance.allowedDebt (Finance.computeCapacity scenario)) = true /\
  (zero <=? Finance.allowedDebt (Finance.computeCapacity scenario)) = true /\
  ((zero <=? Finance.getTotalRevenue scenario) = true ->
   (Finance.allowedDebt (Finance.computeCapacity scenario)
    <=? Finance.maxDebtRevenueRule (Finance.computeCapacity scenario)) = true /\
   Page.seventyFiveOk scenario = true).
Proof.
  apply (allowed_debt_within_revenue_rule scenario).
  repeat split; reflexivity.
Defined.

(** The present value of no debt service, with its guard, is 0. *)
Lemma pvAfterGrace_of_zero (r : Qc) (t g : Z) :
  or_else (spec_pvAfterGrace (Fin r) t g zero) zero = zero.
Proof.
  destruct (pvAfterGrace_linear r t g) as [c Hc].
  rewrite zero_Fin. change (Q2Qc (inject_Z 0)) with 0%Qc.
  rewrite Hc, Qcmult_0_r. reflexivity.
Qed.

(** X10.  When the amounts [computeCapacity] works from are numbers (as in
    X9), the allowed debt is 0 as soon as the grace years cover the term
    ([termYears <= graceYears]), or revenue plus net financing does not
    exceed the operating expense, or the total revenue is not positive. *)
Theorem no_capacity (i : Finance.Inputs) :
  capacity_amounts_defined i ->
  (Finance.termYears i <= Finance.graceYears i)%Z \/
  (Finance.getTotalRevenue i + Finance.getNettFinancing i
     - Finance.getTotalOpex i <=? zero) = true \/
  (Finance.getTotalRevenue i <=? zero) = true ->
  Finance.allowedDebt (Finance.computeCapacity i) = zero.
Proof.
  intros Hdef Hcase.
  destruct Hcase as [Ht | [Hnoi | Hr]].
  - destruct (Finance_ceiling_bounds i Hdef) as (Nm & Np & Nc).
    destruct Hdef as (Hrev & _).
    apply isFinite_Fin in Hrev. destruct Hrev as [rev Hrev].
    change (Finance.allowedDebt (Finance.computeCapacity i))
      with (guarded_allowedDebt (Finance.getTotalRevenue i)
              (Finance.NOI (Finance.computeCapacity i) / Finance.minDSCR i)
              (Finance.rate i) (Finance.termYears i) (Finance.graceYears i)).
    unfold guarded_allowedDebt. apply clamped_zero; auto.
    + unfold spec_maxDebtRevenueRule, dec. rewrite Hrev, mul_Fin. reflexivity.
    + left. unfold spec_pvAfterGrace.
      replace (0 <? Z.max (Finance.termYears i - Finance.graceYears i) 0)%Z
        with false by (symmetry; apply Z.ltb_ge; lia).
      reflexivity.
  - destruct (Finance_ceiling_bounds i Hdef) as (Nm & Np & Nc).
    destruct Hdef as (Hrev & _ & Hrate & Hm & Hm0).
    apply isFinite_Fin in Hrev. destruct Hrev as [rev Hrev].
    apply isFinite_Fin in Hrate. destruct Hrate as [r Hrate].
    destruct (finite_nonzero _ Hm Hm0) as (d & Hd & Hd0).
    assert (Hmz : Finance.NOI (Finance.computeCapacity i) / Finance.minDSCR i
                  = zero).
    { change (Finance.NOI (Finance.computeCapacity i))
        with (Math_max (Finance.getTotalRevenue i + Finance.getNettFinancing i
                        - Finance.getTotalOpex i) zero).
      rewrite Hd.
      destruct (Finance.getTotalRevenue i + Finance.getNettFinancing i
                - Finance.getTotalOpex i) as [x| | |];
        try discriminate Hnoi.
      - rewrite zero_Fin in Hnoi. apply leb_Fin in Hnoi.
        unfold Math_max. rewrite zero_Fin. cbn [isNaN orb ltb].
        ltb_cases.
        + rewrite div_Fin by exact Hd0. apply f_equal. now field.
        + assert (x = 0%Qc) as -> by (apply Qcle_antisym; assumption).
          rewrite div_Fin by exact Hd0. apply f_equal. now field.
      - unfold Math_max. rewrite zero_Fin. cbn [isNaN orb ltb].
        rewrite div_Fin by exact Hd0. apply f_equal. now field. }
    change (Finance.allowedDebt (Finance.computeCapacity i))
      with (guarded_allowedDebt (Finance.getTotalRevenue i)
              (Finance.NOI (Finance.computeCapacity i) / Finance.minDSCR i)
              (Finance.rate i) (Finance.termYears i) (Finance.graceYears i)).
    unfold guarded_allowedDebt. apply clamped_zero; auto.
    + unfold spec_maxDebtRevenueRule, dec. rewrite Hrev, mul_Fin. reflexivity.
    + left. rewrite Hmz, Hrate, pvAfterGrace_of_zero. reflexivity.
  - destruct (Finance_ceiling_Fin i Hdef)
      as (rev & A & Hrev & _ & HA & HA0 & HAc).
    rewrite Hrev, zero_Fin in Hr. apply leb_Fin in Hr.
    rewrite HA, zero_Fin. apply f_equal.
    destruct HAc as [-> | HAc]; [reflexivity|].
    apply Qcle_antisym; [|exact HA0].
    clear - HAc Hr. qc_prep. lra.
Qed.

Lemma no_capacity_witness :
  Finance.allowedDebt (Finance.computeCapacity grace_covers_term) = zero.
Proof.
  apply (no_capacity grace_covers_term);
    [repeat split; reflexivity | left; cbn; lia].
Defined.

(** ** The checks of the page *)

Lemma Math_min_not_NaN_inv (a b : num) :
  isNaN (Math_min a b) = false -> isNaN a = false /\ isNaN b = false.
Proof. destruct a, b; cbn; auto. Qed.

(** A running minimum that is not NaN is below its start and below every
    value scanned. *)
Lemma fold_min_below (l : list num) (acc m : num) :
  fold_left Math_min l acc = m -> isNaN m = false ->
  (m <=? acc) = true /\ Forall (fun d => (m <=? d) = true) l.
Proof.
  revert acc. induction l as [|d l IH]; intros acc Hm Hn.
  - cbn in Hm. subst. split; [now apply leb_refl | constructor].
  - cbn [fold_left] in Hm. destruct (IH _ Hm Hn) as [H1 H2].
    destruct (leb_not_NaN _ _ H1) as [_ Hmin].
    destruct (Math_min_not_NaN_inv _ _ Hmin) as [Ha Hd].
    split; [|constructor; [|exact H2]].
    + eapply leb_trans; [exact H1|]. now apply Math_min_le_l.
    + eapply leb_trans; [exact H1|]. now apply Math_min_le_r.
Qed.

(** When the reducer returns a positive number that is at least [floor],
    every row with a positive debt service has a ratio of at least
    [floor]. *)
Lemma minDSCR_at_least (rows : list Row) (floor : num) (r : Row) (d : num) :
  (floor <=? minDSCR rows) = true -> (minDSCR rows >? zero) = true ->
  In r rows -> (debtService r >? zero) = true -> dscr r = Some d ->
  (floor <=? d) = true.
Proof.
  intros Hfloor Hpos Hin Hds Hd. rewrite minDSCR_fold in Hfloor, Hpos.
  cbv zeta in Hfloor, Hpos.
  destruct (fold_left Math_min (qualifying_values rows) PInf) as [m| | |] eqn:E;
    cbn [isFinite] in Hfloor, Hpos; try discriminate Hpos.
  destruct (fold_min_below _ _ _ E eq_refl) as [_ Hall].
  rewrite Forall_forall in Hall.
  eapply leb_trans; [exact Hfloor|]. apply Hall.
  apply qualifying_values_In. eauto.
Qed.

Lemma ltb_leb_trans (a b c : num) :
  (a <? b) = true -> (b <=? c) = true -> (a <? c) = true.
Proof.
  destruct a as [x| | |], b as [y| | |], c as [z| | |]; cbn;
    intros H1 H2; try discriminate; try reflexivity.
  apply Qc_ltb_true in H1. apply Qc_leb_true in H2. apply Qc_ltb_true.
  eapply Qclt_le_trans; eauto.
Qed.

(** A schedule whose minimum coverage is positive and at least [floor]. *)
Lemma Finance_coverage_sound (i : Finance.Inputs) (D floor : num) (y : Z) :
  (floor <=? minDSCR (Finance.buildSchedule i D)) = true ->
  (minDSCR (Finance.buildSchedule i D) >? zero) = true ->
  (1 <= y <= Finance.termYears i)%Z ->
  exists row, row_at (Finance.buildSchedule i D) y = Some row /\
    ((debtService row >? zero) = true ->
     exists d, dscr row = Some d /\ (floor <=? d) = true).
Proof.
  intros Hfloor Hpos Hy.
  destruct (Finance_row_exists i D y Hy) as [row Hrow].
  exists row. split; [exact Hrow|]. intros Hds.
  destruct (Finance_row_at i D y row Hrow) as (_ & s & E & _).
  assert (Hd : exists d, dscr row = Some d).
  { revert Hds. rewrite E. unfold Finance.body. cbn [fst debtService dscr].
    intros ->. eauto. }
  destruct Hd as [d Hd]. exists d. split; [exact Hd|].
  eapply minDSCR_at_least; eauto. eapply row_at_In; eauto.
Qed.

(** X13.  When the coverage check of the page passes
    ([base.minD >= inputs.minDSCR && base.minD > 0]), every year of the
    schedule shown that has a positive debt service has a coverage ratio of
    at least [inputs.minDSCR].  The same holds of the stressed schedule when
    the stress check passes ([stressed.minD >= inputs.minDSCR]) and the floor
    is positive. *)
Theorem dscrOk_sound (inputs : Finance.Inputs) (y : Z) :
  (1 <= y <= Finance.termYears inputs)%Z ->
  (Page.dscrOk inputs = true ->
   exists row, row_at (sched (Page.base inputs)) y = Some row /\
     ((debtService row >? zero) = true ->
      exists d, dscr row = Some d /\ (Finance.minDSCR inputs <=? d) = true)) /\
  (forall rateShockBps revShockPct opexShockPct : num,
   Page.resilient inputs rateShockBps revShockPct opexShockPct = true ->
   (zero <? Finance.minDSCR inputs) = true ->
   exists row,
     row_at (sched (Page.stressed inputs rateShockBps revShockPct opexShockPct))
            y = Some row /\
     ((debtService row >? zero) = true ->
      exists d, dscr row = Some d /\ (Finance.minDSCR inputs <=? d) = true)).
Proof.
  intros Hy. split.
  - intros Hok. unfold Page.dscrOk in Hok.
    apply andb_true_iff in Hok. destruct Hok as [Hfloor Hpos].
    unfold geb in Hfloor.
    unfold Page.base in *. cbn [sched minD] in *.
    now apply Finance_coverage_sound.
  - intros a b c Hok Hfloor. unfold Page.resilient, geb in Hok.
    unfold Page.stressed in *. cbn [sched minD] in *.
    apply Finance_coverage_sound; [exact Hok | | exact Hy].
    unfold gtb. eapply ltb_leb_trans; eauto.
Qed.

Lemma dscrOk_sound_witness :
  (exists row, row_at (sched (Page.base scenario)) 3 = Some row /\
     ((debtService row >? zero) = true ->
      exists d, dscr row = Some d /\ (Finance.minDSCR scenario <=? d) = true)) /\
  (exists row,
     row_at (sched (Page.stressed scenario zero (dec (-5) 1) zero)) 3
     = Some row /\
     ((debtService row >? zero) = true ->
      exists d, dscr row = Some d /\ (Finance.minDSCR scenario <=? d) = true)).
Proof.
  destruct (dscrOk_sound scenario 3 ltac:(cbn; lia)) as [H1 H2].
  split.
  - apply H1. vm_compute. reflexivity.
  - apply H2; vm_compute; reflexivity.
Defined.

(** ** The base case and the stressed scenario *)

Lemma mul_one_r (a : num) : a * Fin 1%Qc = a.
Proof.
  destruct a as [q| | |]; try reflexivity. rewrite mul_Fin. f_equal. ring.
Qed.

Lemma no_shock_factor (z : Z) : (0 < z)%Z -> one + zero / of_Z z = Fin 1%Qc.
Proof.
  intros Hz. unfold of_Z. rewrite zero_Fin, one_Fin.
  rewrite div_Fin by (now apply inject_Z_nonzero).
  rewrite add_Fin. apply f_equal. field. now apply inject_Z_nonzero.
Qed.

Lemma no_shock_rate (r : num) (z : Z) :
  (0 < z)%Z -> (r <? zero) = false -> Math_max zero (r + zero / of_Z z) = r.
Proof.
  intros Hz Hr.
  assert (E : zero / of_Z z = zero).
  { unfold of_Z. rewrite zero_Fin, div_Fin by (now apply inject_Z_nonzero).
    apply f_equal. field. now apply inject_Z_nonzero. }
  rewrite E, add_zero_r.
  destruct r as [q| | |]; try reflexivity; [|discriminate Hr].
  rewrite zero_Fin in *. cbn [ltb] in Hr. apply Qc_ltb_false in Hr.
  unfold Math_max. cbn [isNaN orb ltb]. ltb_cases; [reflexivity|].
  f_equal. now apply Qcle_antisym.
Qed.

Lemma Math_max_zero_not_negative_l (x : num) : (Math_max zero x <? zero) = false.
Proof.
  destruct x as [q| | |]; try reflexivity.
  unfold Math_max. rewrite zero_Fin. cbn [isNaN orb ltb].
  ltb_cases; cbn [ltb]; [|reflexivity].
  apply Qc_ltb_false. now apply Qclt_le_weak.
Qed.

(** X14.  The stressed scenario never runs at a negative rate, whatever the
    shocks (a rate that would fall below 0 is replaced by 0); and with the
    three shocks at 0 and a base rate that is not negative, the stressed
    inputs are the inputs, so the stressed results are the base results. *)
Theorem stress_without_shocks (inputs : Finance.Inputs) :
  (forall rateShockBps revShockPct opexShockPct : num,
     (Finance.rate
        (Page.stressed_inputs inputs rateShockBps revShockPct opexShockPct)
      <? zero) = false) /\
  ((Finance.rate inputs <? zero) = false ->
   Page.stressed_inputs inputs zero zero zero = inputs /\
   Page.stressed inputs zero zero zero = Page.base inputs).
Proof.
  split.
  - intros a b c. unfold Page.stressed_inputs. cbn [Finance.rate].
    rewrite Math_max_zero_not_negative_l. reflexivity.
  - intros Hr.
    assert (E : Page.stressed_inputs inputs zero zero zero = inputs).
    { destruct inputs. unfold Page.stressed_inputs. finance_fields.
      cbn [Finance.rate] in Hr.
      rewrite !no_shock_factor, !mul_one_r, no_shock_rate by (lia || exact Hr).
      reflexivity. }
    split; [exact E|]. unfold Page.stressed, Page.base. now rewrite E.
Qed.

Lemma stress_without_shocks_witness :
  Page.stressed_inputs scenario zero zero zero = scenario /\
  Page.stressed scenario zero zero zero = Page.base scenario.
Proof. apply (proj2 (stress_without_shocks scenario)). reflexivity. Defined.

Lemma balances_in_order_Fin (i : Finance.Inputs) (d r : Qc) :
  (0 <= d)%Qc -> Finance.rate i = Fin r ->
  isNaN (Finance.schedule_annuityPmt i (Fin d)) = false ->
  balances_in_order (Finance.buildSchedule i (Fin d)).
Proof.
  intros HD0 Hr Hap. split.
  - intros y row H.
    destruct (Finance_row_balance i d r y row HD0 Hr Hap H)
      as (b & p & x & Hb & Hp0 & Hpb & -> & -> & _).
    rewrite sub_Fin, zero_Fin. repeat split; apply leb_Fin; auto.
    clear - Hpb. qc_prep. lra.
  - intros y row row' H H'.
    destruct (Finance_row_balance i d r y row HD0 Hr Hap H)
      as (b & p & x & Hb & Hp0 & Hpb & -> & _ & _ & _ & _ & Hnext).
    rewrite (Hnext row' H'). apply leb_Fin. clear - Hp0. qc_prep. lra.
Qed.

(** The schedule built from the allowed debt. *)
Lemma Finance_ceiling_schedule (i : Finance.Inputs) :
  schedule_amounts_defined i ->
  balances_in_order
    (Finance.buildSchedule i (Finance.allowedDebt (Finance.computeCapacity i))).
Proof.
  intros [Hdef Hap]. unfold ceiling in Hap.
  destruct (Finance_ceiling_Fin i Hdef) as (_ & A & _ & _ & HA & HA0 & _).
  destruct Hdef as (_ & _ & Hr & _).
  apply isFinite_Fin in Hr. destruct Hr as [r Hr].
  rewrite HA in *. apply isFinite_not_NaN in Hap.
  now apply (balances_in_order_Fin i A r).
Qed.

(** X15.  When the amounts the engine works from are numbers (a finite
    total revenue, revenue plus net financing less operating expense not
    NaN, a finite rate, a finite coverage floor other than 0) and the level
    payment [annuityPmt] it computes for the allowed debt is finite, the
    schedule the page computes for the base case from the allowed debt
    satisfies the balance invariants (no negative balance, principal within
    the balance, balances not increasing); and so does the schedule of the
    stressed scenario, for all shocks under which the same holds of the
    stressed inputs. *)
Theorem page_schedules_in_order (inputs : Finance.Inputs) :
  (schedule_amounts_defined inputs ->
   balances_in_order (sched (Page.base inputs))) /\
  (forall rateShockBps revShockPct opexShockPct : num,
     schedule_amounts_defined
       (Page.stressed_inputs inputs rateShockBps revShockPct opexShockPct) ->
     balances_in_order
       (sched (Page.stressed inputs rateShockBps revShockPct opexShockPct))).
Proof.
  split.
  - intros H. unfold Page.base. cbn [sched].
    now apply Finance_ceiling_schedule.
  - intros a b c H. unfold Page.stressed. cbn [sched].
    now apply Finance_ceiling_schedule.
Qed.

Lemma page_schedules_in_order_witness :
  balances_in_order (sched (Page.base scenario)) /\
  balances_in_order
    (sched (Page.stressed scenario (dec 200 1) (dec (-10) 1) (dec 10 1))).
Proof.
  destruct (page_schedules_in_order scenario) as [H1 H2].
  split; [apply H1 | apply H2]; repeat split; vm_compute; reflexivity.
Defined.

(** ** Bond principal *)

Lemma finite_nonneg (x : num) :
  isFinite x = true -> (zero <=? x) = true -> exists d, x = Fin d /\ (0 <= d)%Qc.
Proof.
  intros H E. apply isFinite_Fin in H. destruct H as [d ->].
  exists d. split; [reflexivity|]. now apply leb_Fin in E.
Qed.

(** The rows of a bond: the principal is repaid in instalments of
    [actualDebt / termYears], in the years after grace only. *)
Lemma Variant_bond_rows (i : Variant.Inputs) (d : Qc) (y : Z) :
  Variant.debtType i = Variant.bond ->
  Variant.actualDebt i = Fin d -> (0 <= d)%Qc ->
  (0 <= Variant.graceYears i < Variant.termYears i)%Z ->
  (1 <= y <= Variant.termYears i)%Z ->
  let n := Variant.termYears i in
  let g := Variant.graceYears i in
  exists r, row_at (Variant.buildSchedule i) y = Some r /\
    interest r = Fin d * Variant.rate i /\
    debtService r
    = (if (y <=? g)%Z then interest r else interest r + principal r) /\
    ((y <= g)%Z -> begBal r = Fin d /\ principal r = zero) /\
    ((g < y)%Z ->
       principal r = Fin (d / Q2Qc (inject_Z n)) /\
       begBal r = Fin (d * Q2Qc (inject_Z (n - y + g + 1)) / Q2Qc (inject_Z n))).
Proof.
  intros Hbond Had Hd Hg Hy n g.
  assert (Hn0 : Q2Qc (inject_Z n) <> 0%Qc) by (apply inject_Z_nonzero; lia).
  assert (Hnpos : (0 < Q2Qc (inject_Z n))%Qc) by (apply of_Z_pos; lia).
  set (bal := fun y : Z =>
         (d * Q2Qc (inject_Z (n - y + g + 1)) / Q2Qc (inject_Z n))%Qc).
  set (I := fun (y : Z) (s : Loop) =>
         ((y <= g + 1)%Z -> prevBeg s = Fin d) /\
         ((g + 1 <= y)%Z -> prevBeg s = Fin (bal y))).
  assert (Hbal0 : bal (g + 1)%Z = d).
  { unfold bal. replace (n - (g + 1) + g + 1)%Z with n by lia. now field. }
  assert (Hprin : forall y s, (1 <= y <= n)%Z -> I y s ->
            principal (fst (Variant.body i (Variant.schedule_n i)
                              (Variant.schedule_amortYears i)
                              (Variant.schedule_annuityPmt i)
                              (Variant.schedule_epPrincipal i) y s))
            = (if (y <=? g)%Z then zero else Fin (d / Q2Qc (inject_Z n))) /\
            prevBeg (snd (Variant.body i (Variant.schedule_n i)
                              (Variant.schedule_amortYears i)
                              (Variant.schedule_annuityPmt i)
                              (Variant.schedule_epPrincipal i) y s))
            = (if (y <=? g)%Z then Fin d else Fin (bal (y + 1)%Z))).
  { intros y0 s Hy0 [H1 H2]. unfold Variant.body.
    cbn [fst snd principal prevBeg]. fold n g. rewrite Hbond, Had.
    cbn [Variant.is_bond].
    replace (y0 <=? n)%Z with true by (symmetry; apply Z.leb_le; lia).
    destruct (Z.leb_spec y0 g) as [Hle | Hgt]; cbn [negb andb].
    - rewrite H1 by lia. rewrite zero_Fin.
      rewrite next_balance by exact Hd. split; [reflexivity|].
      f_equal. ring.
    - rewrite H2 by lia. unfold of_Z. rewrite div_Fin by exact Hn0.
      assert (Hk : bal y0 = (bal (y0 + 1)%Z + d / Q2Qc (inject_Z n))%Qc).
      { unfold bal.
        replace (n - y0 + g + 1)%Z with (n - (y0 + 1) + g + 1 + 1)%Z by lia.
        rewrite of_Z_succ. now field. }
      assert (Hb1 : (0 <= bal (y0 + 1)%Z)%Qc).
      { unfold bal. apply Qc_div_nonneg; [|exact Hnpos].
        apply Qc_mul_nonneg; [exact Hd|]. apply of_Z_nonneg. lia. }
      assert (Hp0 : (0 <= d / Q2Qc (inject_Z n))%Qc)
        by (now apply Qc_div_nonneg).
      destruct (pay_principal (bal y0) (d / Q2Qc (inject_Z n))) as [E1 E2];
        [exact Hp0 | rewrite Hk; clear - Hb1; qc_prep; lra |].
      rewrite E1, E2. split; [reflexivity|]. f_equal. rewrite Hk. ring. }
  destruct (Variant_row_exists i y Hy) as [r Hr].
  exists r. split; [exact Hr|].
  destruct (Variant_row_inv i I) with (y := y) (r := r)
    as (_ & s & Hs & -> & _); [| |exact Hr|].
  { intros y0 s Hy0 Hs. destruct (Hprin y0 s Hy0 Hs) as [_ Hn].
    unfold I. rewrite Hn. split; intros H.
    - destruct (Z.leb_spec y0 g); [reflexivity|lia].
    - destruct (Z.leb_spec y0 g); [|reflexivity].
      replace y0 with g by lia. now rewrite Hbal0. }
  { split; intros H; [exact Had|].
    cbn [Variant.schedule_init prevBeg]. rewrite Had.
    replace 1%Z with (g + 1)%Z by lia. now rewrite Hbal0. }
  split.
  { unfold Variant.body. cbn [fst interest]. fold n.
    replace (y <=? n)%Z with true by (symmetry; apply Z.leb_le; lia).
    now rewrite Hbond, Had. }
  split; [reflexivity|].
  destruct (Hprin y s Hy Hs) as [Hp _]. rewrite Hp.
  replace (begBal (fst (Variant.body i (Variant.schedule_n i)
                              (Variant.schedule_amortYears i)
                              (Variant.schedule_annuityPmt i)
                              (Variant.schedule_epPrincipal i) y s)))
    with (prevBeg s) by reflexivity.
  destruct Hs as [H1 H2].
  split.
  - intros H. rewrite H1 by lia.
    destruct (Z.leb_spec y g); [auto|lia].
  - intros H. rewrite H2 by lia.
    destruct (Z.leb_spec y g); [lia|]. split; reflexivity.
Qed.

(** X16.  In the engine with debt types, for a bond with a principal
    [actualDebt] that is finite and not negative and
    [0 <= graceYears < termYears]: no principal is paid in the grace years,
    and each later year pays [actualDebt / termYears] (the instalment divides
    the principal by the whole term, not by the years left after grace), for a
    debt service of [actualDebt * rate + actualDebt / termYears], from a
    beginning balance of
    [actualDebt * (termYears - y + graceYears + 1) / termYears].  So when
    there are grace years, [actualDebt * graceYears / termYears] is still
    outstanding after the last year.  The closed forms are over exact
    arithmetic. *)
Theorem bond_principal_straight_line (i : Variant.Inputs) (y : Z) :
  Variant.debtType i = Variant.bond ->
  isFinite (Variant.actualDebt i) = true ->
  (zero <=? Variant.actualDebt i) = true ->
  (0 <= Variant.graceYears i < Variant.termYears i)%Z ->
  (1 <= y <= Variant.termYears i)%Z ->
  let n := Variant.termYears i in
  let g := Variant.graceYears i in
  exists r, row_at (Variant.buildSchedule i) y = Some r /\
    ((y <= g)%Z -> begBal r = Variant.actualDebt i /\ principal r = zero) /\
    ((g < y)%Z ->
       principal r = Variant.actualDebt i / of_Z n /\
       debtService r
       = Variant.actualDebt i * Variant.rate i + Variant.actualDebt i / of_Z n /\
       begBal r = Variant.actualDebt i * of_Z (n - y + g + 1) / of_Z n) /\
    (y = n -> (1 <= g)%Z ->
       begBal r - principal r = Variant.actualDebt i * of_Z g / of_Z n).
Proof.
  intros Hbond Hfin H0 Hg Hy n g.
  destruct (finite_nonneg _ Hfin H0) as (d & Had & Hd).
  assert (Hn0 : Q2Qc (inject_Z n) <> 0%Qc) by (apply inject_Z_nonzero; lia).
  destruct (Variant_bond_rows i d y Hbond Had Hd Hg Hy)
    as (r & Hr & Hint & Hds & Hgrace & Hlater).
  fold n g in Hds, Hgrace, Hlater.
  exists r. split; [exact Hr|]. rewrite Had. unfold of_Z.
  rewrite !mul_Fin, !div_Fin by exact Hn0.
  split; [exact Hgrace|]. split.
  { intros Hgt. destruct (Hlater Hgt) as [Hp Hb]. repeat split; auto.
    rewrite Hds, Hint, Hp. destruct (Z.leb_spec y g); [lia|reflexivity]. }
  intros -> _. destruct (Hlater ltac:(lia)) as [-> ->].
  replace (n - n + g + 1)%Z with (g + 1)%Z by lia.
  rewrite of_Z_succ, sub_Fin. apply f_equal. now field.
Qed.

Lemma bond_principal_straight_line_witness :
  exists r, row_at (Variant.buildSchedule bond_scenario) 10 = Some r /\
    ((10 <= 2)%Z ->
       begBal r = Variant.actualDebt bond_scenario /\ principal r = zero) /\
    ((2 < 10)%Z ->
       principal r = Variant.actualDebt bond_scenario / of_Z 10 /\
       debtService r
       = Variant.actualDebt bond_scenario * Variant.rate bond_scenario
         + Variant.actualDebt bond_scenario / of_Z 10 /\
       begBal r = Variant.actualDebt bond_scenario * of_Z (10 - 10 + 2 + 1)
                  / of_Z 10) /\
    (10%Z = 10%Z -> (1 <= 2)%Z ->
       begBal r - principal r
       = Variant.actualDebt bond_scenario * of_Z 2 / of_Z 10).
Proof.
  apply (bond_principal_straight_line bond_scenario 10);
    try reflexivity; cbn; lia.
Defined.

(** ** The two engines *)

Lemma run_loop_ext (body body' : Z -> Loop -> Row * Loop) :
  (forall y s, body y s = body' y s) ->
  forall k y s, run_loop body k y s = run_loop body' k y s.
Proof.
  intros H k. induction k as [|k IH]; intros y s; [reflexivity|].
  cbn [run_loop]. rewrite H. destruct (body' y s) as [r s'].
  now rewrite IH.
Qed.

(** X17.  When [debtType] is not [bond], the engine with debt types builds
    the schedule [src/lib/finance.ts] builds from the principal
    [min (finalDebtTaken, allowedDebt)], for inputs with the same projection
    base (total revenue plus net financing, total operating expense), growth
    rates, rate, term, grace, payment type and reserve settings.  And for
    inputs with the same totals, rate, term, grace and coverage floor, the
    capacity the two engines compute is the same, field by field
    ([calculatedMaxDebt] being the [allowedDebt] of the other). *)
Theorem engines_agree (i : Variant.Inputs) (j : Finance.Inputs) :
  Finance.rate j = Variant.rate i ->
  Finance.termYears j = Variant.termYears i ->
  Finance.graceYears j = Variant.graceYears i ->
  (Variant.debtType i = Variant.ptsmi_other ->
   Finance.getTotalRevenue j + Finance.getNettFinancing j
   = Variant.getTotalRevenue i + Variant.getNettFinancing i ->
   Finance.getTotalOpex j = Variant.getTotalOpex i ->
   Finance.revGrowth j = Variant.revGrowth i ->
   Finance.opexGrowth j = Variant.opexGrowth i ->
   Finance.paymentType j = Variant.paymentType i ->
   Finance.reserveRatio j = Variant.reserveRatio i ->
   Finance.initReserve j = Variant.initReserve i ->
   Variant.buildSchedule i = Finance.buildSchedule j (Variant.actualDebt i)) /\
  (Finance.getTotalRevenue j = Variant.getTotalRevenue i ->
   Finance.getNettFinancing j = Variant.getNettFinancing i ->
   Finance.getTotalOpex j = Variant.getTotalOpex i ->
   Finance.minDSCR j = Variant.minDSCR i ->
   let c := Finance.computeCapacity j in
   Variant.computeCapacity i
   = Variant.mkCapacity (Finance.NOI c) (Finance.totalRevenue c)
       (Finance.nettFinancing c) (Finance.totalOpex c)
       (Finance.maxDebtRevenueRule c) (Finance.maxAnnualDS c)
       (Finance.dscrPV c) (Finance.allowedDebt c) (Finance.binding c)).
Proof.
  intros Hrate Hterm Hgrace. split.
  - intros Hdt Hrev Hopex Hrg Hog Hpt Hrr Hir.
    unfold Variant.buildSchedule, Finance.buildSchedule.
    assert (Hn : Finance.schedule_n j = Variant.schedule_n i).
    { unfold Finance.schedule_n, Variant.schedule_n. now rewrite Hterm. }
    assert (Ha : Finance.schedule_amortYears j = Variant.schedule_amortYears i).
    { unfold Finance.schedule_amortYears, Variant.schedule_amortYears.
      now rewrite Hterm, Hgrace. }
    assert (Hap : Finance.schedule_annuityPmt j (Variant.actualDebt i)
                  = Variant.schedule_annuityPmt i).
    { unfold Finance.schedule_annuityPmt, Variant.schedule_annuityPmt.
      now rewrite Hpt, Ha, Hrate. }
    assert (Hep : Finance.schedule_epPrincipal j (Variant.actualDebt i)
                  = Variant.schedule_epPrincipal i).
    { unfold Finance.schedule_epPrincipal, Variant.schedule_epPrincipal.
      now rewrite Hpt, Ha. }
    assert (Hinit : Finance.schedule_init j (Variant.actualDebt i)
                    = Variant.schedule_init i).
    { unfold Finance.schedule_init, Variant.schedule_init.
      now rewrite Hrev, Hopex, Hrg, Hog, Hir. }
    rewrite Hn, Ha, Hap, Hep, Hinit.
    apply run_loop_ext. intros y s.
    unfold Variant.body, Finance.body.
    rewrite Hdt, Hrate, Hterm, Hgrace, Hpt, Hrg, Hog, Hrr.
    cbn [Variant.is_bond]. reflexivity.
  - intros Hrev Hfin Hopex Hmin c. subst c.
    unfold Variant.computeCapacity, Finance.computeCapacity.
    cbn [Finance.NOI Finance.totalRevenue Finance.nettFinancing
         Finance.totalOpex Finance.maxDebtRevenueRule Finance.maxAnnualDS
         Finance.dscrPV Finance.allowedDebt Finance.binding].
    now rewrite Hrev, Hfin, Hopex, Hmin, Hrate, Hterm, Hgrace.
Qed.

Lemma engines_agree_witness :
  Variant.buildSchedule loan_scenario
  = Finance.buildSchedule scenario (Variant.actualDebt loan_scenario) /\
  Variant.computeCapacity loan_scenario
  = Variant.mkCapacity
      (Finance.NOI (Finance.computeCapacity scenario))
      (Finance.totalRevenue (Finance.computeCapacity scenario))
      (Finance.nettFinancing (Finance.computeCapacity scenario))
      (Finance.totalOpex (Finance.computeCapacity scenario))
      (Finance.maxDebtRevenueRule (Finance.computeCapacity scenario))
      (Finance.maxAnnualDS (Finance.computeCapacity scenario))
      (Finance.dscrPV (Finance.computeCapacity scenario))
      (Finance.allowedDebt (Finance.computeCapacity scenario))
      (Finance.binding (Finance.computeCapacity scenario)).
Proof.
  destruct (engines_agree loan_scenario scenario eq_refl eq_refl eq_refl)
    as [H1 H2].
  split.
  - apply H1; vm_compute; reflexivity.
  - apply H2; vm_compute; reflexivity.
Defined.

(** ** A schedule without debt *)

Lemma Finance_row_dscr (i : Finance.Inputs) (D : num) (y : Z) (r : Row) :
  row_at (Finance.buildSchedule i D) y = Some r ->
  dscr r = if debtService r >? zero
           then Some (availForDS r / debtService r) else None.
Proof.
  intros Hr. destruct (Finance_row_at i D y r Hr) as (_ & s & -> & _).
  reflexivity.
Qed.

Lemma minDSCR_no_qualifying (rows : list Row) :
  (forall r, In r rows -> qualifying r = None) -> minDSCR rows = zero.
Proof.
  intros H. rewrite minDSCR_fold.
  assert (E : qualifying_values rows = []).
  { induction rows as [|r rows IH]; [reflexivity|].
    cbn [qualifying_values fold_right]. fold (qualifying_values rows).
    rewrite (H r) by now left. apply IH. intros r' Hr'. apply H. now right. }
  rewrite E. reflexivity.
Qed.

(** Amounts that are 0 or NaN stay so: under a product, a sum, the clamp of
    a principal and the step to the next balance. *)
Lemma nothing_mul (a b : num) :
  a = zero \/ a = NaN -> a * b = zero \/ a * b = NaN.
Proof.
  intros [-> | ->]; [|now right].
  destruct b as [q| | |]; [left | right | right | right]; try reflexivity.
  rewrite zero_Fin, mul_Fin. apply f_equal. ring.
Qed.

Lemma nothing_add (a b : num) :
  a = zero \/ a = NaN -> b = zero \/ b = NaN -> a + b = zero \/ a + b = NaN.
Proof.
  intros [-> | ->] [-> | ->]; [left | right | right | right]; reflexivity.
Qed.

Lemma nothing_clamp (a x : num) :
  a = zero \/ a = NaN ->
  Math_max zero (Math_min a x) = zero \/ Math_max zero (Math_min a x) = NaN.
Proof.
  intros [-> | ->]; [|now right].
  destruct x as [q| | |]; unfold Math_max, Math_min; rewrite zero_Fin;
    cbn [isNaN orb ltb]; ltb_cases; cbn [isNaN orb ltb]; ltb_cases;
    first [now left | now right | exfalso; qc_prep; lra].
Qed.

Lemma nothing_next (a p : num) :
  a = zero \/ a = NaN -> p = zero \/ p = NaN ->
  Math_max (a - p) zero = zero \/ Math_max (a - p) zero = NaN.
Proof.
  intros [-> | ->] [-> | ->]; [left | right | right | right]; reflexivity.
Qed.

Lemma nothing_not_positive (a : num) :
  a = zero \/ a = NaN -> (a >? zero) = false.
Proof. intros [-> | ->]; reflexivity. Qed.

(** The rows of a schedule built from a principal of 0: the balance, the
    interest, the principal and the debt service of every year are 0, or NaN,
    so no year bears a debt service above 0. *)
Lemma Finance_zero_debt_rows (i : Finance.Inputs) (y : Z) (row : Row) :
  row_at (Finance.buildSchedule i zero) y = Some row ->
  (debtService row >? zero) = false /\ dscr row = None.
Proof.
  intros Hrow.
  assert (Hds : (debtService row >? zero) = false).
  { destruct (Finance_row_inv i zero
                (fun _ s => prevBeg s = zero \/ prevBeg s = NaN))
      with (y := y) (r := row) as (_ & s & Hs & -> & _);
      [| now left | exact Hrow |].
    - intros y0 s0 _ Hs0. unfold Finance.body. cbn [snd prevBeg].
      apply nothing_next; [exact Hs0|].
      destruct (negb (y0 <=? Finance.graceYears i)%Z
                && (y0 <=? Finance.termYears i)%Z); [|now left].
      destruct (is_annuity (Finance.paymentType i));
        now apply nothing_clamp.
    - apply nothing_not_positive.
      unfold Finance.body. cbn [fst debtService].
      assert (Hint : (if (y <=? Finance.termYears i)%Z
                      then prevBeg s * Finance.rate i else zero) = zero
                     \/ (if (y <=? Finance.termYears i)%Z
                         then prevBeg s * Finance.rate i else zero) = NaN).
      { destruct (y <=? Finance.termYears i)%Z; [|now left].
        now apply nothing_mul. }
      destruct (y <=? Finance.graceYears i)%Z; [exact Hint|].
      apply nothing_add; [exact Hint|].
      destruct (negb false && (y <=? Finance.termYears i)%Z); [|now left].
      destruct (is_annuity (Finance.paymentType i));
        now apply nothing_clamp. }
  split; [exact Hds|].
  rewrite (Finance_row_dscr i zero y row Hrow), Hds. reflexivity.
Qed.

(** X18.  A schedule built from a principal of 0 has no year with a debt
    service above 0 (each is 0, or NaN where the rate makes it so) and so no
    coverage ratio in any year, and the reducer returns its sentinel 0;
    hence, when the allowed debt is 0, the coverage check of the page
    ([base.minD > 0]) fails although no year is below the floor. *)
Theorem zero_debt_fails_coverage_check (i : Finance.Inputs) :
  (forall y, (1 <= y <= Finance.termYears i)%Z ->
     exists row, row_at (Finance.buildSchedule i zero) y = Some row /\
       (debtService row >? zero) = false /\ dscr row = None) /\
  minDSCR (Finance.buildSchedule i zero) = zero /\
  (Finance.allowedDebt (Finance.computeCapacity i) = zero ->
   minD (Page.base i) = zero /\ Page.dscrOk i = false).
Proof.
  assert (Hmin : minDSCR (Finance.buildSchedule i zero) = zero).
  { apply minDSCR_no_qualifying. intros row Hin.
    apply In_row_at in Hin. destruct Hin as [y Hrow].
    destruct (Finance_zero_debt_rows i y row Hrow) as [Hds _].
    unfold qualifying. now rewrite Hds. }
  split; [|split; [exact Hmin|]].
  - intros y Hy. destruct (Finance_row_exists i zero y Hy) as [row Hrow].
    exists row. split; [exact Hrow|].
    exact (Finance_zero_debt_rows i y row Hrow).
  - intros HA. unfold Page.dscrOk, Page.base. cbn [minD].
    rewrite HA, Hmin. split; [reflexivity|]. apply andb_false_r.
Qed.

Lemma zero_debt_fails_coverage_check_witness :
  minDSCR (Finance.buildSchedule grace_covers_term zero) = zero /\
  minD (Page.base grace_covers_term) = zero /\
  Page.dscrOk grace_covers_term = false.
Proof.
  destruct (zero_debt_fails_coverage_check grace_covers_term)
    as (_ & H1 & H2).
  split; [exact H1|]. apply H2. vm_compute. reflexivity.
Defined.

(** ** The stressed totals of the engine with debt types *)

Lemma truthy_mul_falsy (x f : num) : truthy x = false -> truthy (x * f) = false.
Proof.
  destruct x as [q| | |]; try discriminate; [|reflexivity].
  cbn [truthy]. intros H. apply negb_false_iff, Qc_eqb_true in H. subst q.
  destruct f as [y| | |]; try reflexivity;
    rewrite mul_Fin; cbn [truthy]; apply negb_false_iff, Qc_eqb_true; ring.
Qed.

(** X19.  In the page over the engine with debt types, a revenue shock of
    [s] percent multiplies the total revenue by [1 + s / 100] (all six
    components are shocked; amounts and shock finite; over exact
    arithmetic).  The operating-expense shock multiplies the single-line
    operating expense.  When that line is 0 (or NaN), so that the breakdown
    is used, the shock has no effect on the total operating expense.  When
    the shocked line is truthy (neither 0 nor NaN), it is the stressed total
    operating expense.  When the shocked line is 0 or NaN, as under a shock
    of -100%, the stressed total falls back to the sum of the breakdown,
    whatever the line was. *)
Theorem variant_stress_totals (inputs : Variant.Inputs)
  (rateShockBps revShockPct opexShockPct : num) :
  let stressed :=
    VariantPage.stressed_inputs inputs rateShockBps revShockPct opexShockPct in
  (isFinite (Variant.localRevenuePAD inputs) = true ->
   isFinite (Variant.balancingFundPerimbangan inputs) = true ->
   isFinite (Variant.otherTransferCentral inputs) = true ->
   isFinite (Variant.transferSharingTax inputs) = true ->
   isFinite (Variant.otherFinancialAid inputs) = true ->
   isFinite (Variant.otherLegalRevenue inputs) = true ->
   isFinite revShockPct = true ->
   Variant.getTotalRevenue stressed
   = Variant.getTotalRevenue inputs * (one + revShockPct / of_Z 100)) /\
  (truthy (Variant.operatingExpenses inputs) = false ->
   Variant.getTotalOpex stressed = Variant.getTotalOpex inputs) /\
  (truthy (Variant.operatingExpenses inputs
           * (one + opexShockPct / of_Z 100)) = true ->
   Variant.getTotalOpex stressed
   = Variant.operatingExpenses inputs * (one + opexShockPct / of_Z 100)) /\
  (truthy (Variant.operatingExpenses inputs
           * (one + opexShockPct / of_Z 100)) = false ->
   Variant.getTotalOpex stressed
   = opt_or_zero (Variant.personnelExpenses inputs)
     + opt_or_zero (Variant.goodsServicesExpenses inputs)
     + opt_or_zero (Variant.capitalExpenditures inputs)).
Proof.
  intros stressed. subst stressed. split; [|split; [|split]].
  - intros H1 H2 H3 H4 H5 H6 Hs.
    unfold Variant.getTotalRevenue, VariantPage.stressed_inputs.
    cbn [Variant.localRevenuePAD Variant.balancingFundPerimbangan
         Variant.otherTransferCentral Variant.transferSharingTax
         Variant.otherFinancialAid Variant.otherLegalRevenue].
    finite_fields. unfold of_Z. rewrite one_Fin.
    rewrite div_Fin by (apply inject_Z_nonzero; lia).
    rewrite !add_Fin, !mul_Fin, !add_Fin. f_equal. ring.
  - intros H. unfold Variant.getTotalOpex, VariantPage.stressed_inputs.
    cbn [Variant.operatingExpenses Variant.personnelExpenses
         Variant.goodsServicesExpenses Variant.capitalExpenditures].
    now rewrite H, truthy_mul_falsy.
  - intros H. unfold Variant.getTotalOpex, VariantPage.stressed_inputs.
    cbn [Variant.operatingExpenses]. now rewrite H.
  - intros H. unfold Variant.getTotalOpex, VariantPage.stressed_inputs.
    cbn [Variant.operatingExpenses Variant.personnelExpenses
         Variant.goodsServicesExpenses Variant.capitalExpenditures].
    now rewrite H.
Qed.

Lemma variant_stress_totals_witness :
  Variant.getTotalRevenue
    (VariantPage.stressed_inputs bond_scenario zero (dec (-10) 1) (dec 5 1))
  = Variant.getTotalRevenue bond_scenario * (one + dec (-10) 1 / of_Z 100) /\
  Variant.getTotalOpex
    (VariantPage.stressed_inputs nan_component zero (dec (-10) 1) (dec 5 1))
  = Variant.getTotalOpex nan_component /\
  Variant.getTotalOpex
    (VariantPage.stressed_inputs bond_scenario zero (dec (-10) 1) (dec 5 1))
  = Variant.operatingExpenses bond_scenario * (one + dec 5 1 / of_Z 100) /\
  Variant.getTotalOpex
    (VariantPage.stressed_inputs bond_scenario zero (dec (-10) 1)
       (dec (-100) 1))
  = opt_or_zero (Variant.personnelExpenses bond_scenario)
    + opt_or_zero (Variant.goodsServicesExpenses bond_scenario)
    + opt_or_zero (Variant.capitalExpenditures bond_scenario).
Proof.
  split; [|split; [|split]].
  - apply (proj1 (variant_stress_totals bond_scenario zero (dec (-10) 1)
                    (dec 5 1))); reflexivity.
  - apply (proj1 (proj2 (variant_stress_totals nan_component zero
                           (dec (-10) 1) (dec 5 1)))); reflexivity.
  - apply (proj1 (proj2 (proj2 (variant_stress_totals bond_scenario zero
                                  (dec (-10) 1) (dec 5 1))))); reflexivity.
  - apply (proj2 (proj2 (proj2 (variant_stress_totals bond_scenario zero
                                  (dec (-10) 1) (dec (-100) 1)))));
      reflexivity.
Defined.

(** ** The exported table *)

(** X20.  Each exported line has one cell per header.  The coverage ratio is
    rounded like the amounts: a finite ratio [d] is exported as the whole
    number [z] with [z - 1/2 <= d < z + 1/2] (so every ratio from 2.5 up to,
    not including, 3.5 is exported as 3), and a null ratio as the empty
    text. *)
Theorem csv_export_rounds (r : Row) :
  List.length (csv_cells r) = List.length headers /\
  (dscr r = None -> nth_error (csv_cells r) 8 = Some (CText EmptyString)) /\
  (forall d : Qc, dscr r = Some (Fin d) ->
     exists z : Z,
       nth_error (csv_cells r) 8 = Some (CNum (of_Z z)) /\
       (inject_Z z - (1 # 2) <= this d)%Q /\ (this d < inject_Z z + (1 # 2))%Q).
Proof.
  split; [reflexivity|]. split.
  - intros H. unfold csv_cells, dscr_or_empty. rewrite H. reflexivity.
  - intros d H. exists (Qfloor (this d + (1 # 2))%Q).
    unfold csv_cells, dscr_or_empty. rewrite H.
    split; [reflexivity|].
    pose proof (Qfloor_le (this d + (1 # 2))%Q) as H1.
    pose proof (Qlt_floor (this d + (1 # 2))%Q) as H2.
    rewrite inject_Z_plus in H2.
    change (inject_Z 1) with 1%Q in H2.
    split; lra.
Qed.

Lemma csv_export_rounds_witness :
  exists z : Z,
    nth_error
      (csv_cells (mkRow 1 zero zero zero one zero zero zero (Some (dec 5 2))
                        zero zero zero zero zero)) 8
    = Some (CNum (of_Z z)) /\
    (inject_Z z - (1 # 2) <= 5 # 2)%Q /\ (5 # 2 < inject_Z z + (1 # 2))%Q.
Proof.
  apply (proj2 (proj2 (csv_export_rounds
           (mkRow 1 zero zero zero one zero zero zero (Some (dec 5 2))
                  zero zero zero zero zero))) (Q2Qc (5 # 2))).
  reflexivity.
Defined.

(** ** The stressed totals of the page over src/lib/finance.ts *)

(** X21.  In the page over [src/lib/finance.ts] the revenue shock applies to
    the local revenue (PAD) alone and the operating-expense shock to the
    personnel expenses alone: for finite amounts and shocks, the stressed
    total revenue is the total revenue plus [localRevenuePAD * s / 100], and
    the stressed total operating expense is the total plus
    [personnelExpenses * c / 100]. *)
Theorem finance_stress_totals (inputs : Finance.Inputs)
  (rateShockBps revShockPct opexShockPct : num) :
  finite_capacity_inputs inputs ->
  isFinite revShockPct = true -> isFinite opexShockPct = true ->
  let stressed :=
    Page.stressed_inputs inputs rateShockBps revShockPct opexShockPct in
  Finance.getTotalRevenue stressed
  = Finance.getTotalRevenue inputs
    + Finance.localRevenuePAD inputs * (revShockPct / of_Z 100) /\
  Finance.getTotalOpex stressed
  = Finance.getTotalOpex inputs
    + Finance.personnelExpenses inputs * (opexShockPct / of_Z 100) /\
  Finance.getNettFinancing stressed = Finance.getNettFinancing inputs.
Proof.
  destruct inputs. unfold finite_capacity_inputs. finance_fields.
  intros (H1 & H2 & H3 & H4 & H5 & H6 & H7 & H8 & H9) Hb Hc. cbv zeta.
  unfold Finance.getTotalRevenue, Finance.getTotalOpex,
    Finance.getNettFinancing, Page.stressed_inputs.
  finance_fields. finite_fields. unfold of_Z. rewrite one_Fin.
  rewrite !div_Fin by (apply inject_Z_nonzero; lia).
  rewrite !add_Fin, !mul_Fin, !add_Fin.
  repeat split; apply f_equal; ring.
Qed.

Lemma finance_stress_totals_witness :
  Finance.getTotalRevenue
    (Page.stressed_inputs scenario zero (dec (-10) 1) (dec 5 1))
  = Finance.getTotalRevenue scenario
    + Finance.localRevenuePAD scenario * (dec (-10) 1 / of_Z 100) /\
  Finance.getTotalOpex
    (Page.stressed_inputs scenario zero (dec (-10) 1) (dec 5 1))
  = Finance.getTotalOpex scenario
    + Finance.personnelExpenses scenario * (dec 5 1 / of_Z 100) /\
  Finance.getNettFinancing
    (Page.stressed_inputs scenario zero (dec (-10) 1) (dec 5 1))
  = Finance.getNettFinancing scenario.
Proof.
  apply (finance_stress_totals scenario zero (dec (-10) 1) (dec 5 1));
    [repeat split; reflexivity | reflexivity | reflexivity].
Defined.

(** ** Worked scenarios *)

(** The scenario of the specification: NOI 200,000,000,000, revenue rule
    750,000,000,000, maximum annual debt service 80,000,000,000; the coverage
    ceiling is the lower one. *)
Example scenario_capacity :
  let c := Finance.computeCapacity scenario in
  eqb (Finance.NOI c) (dec 200000000000 1)
  && eqb (Finance.maxDebtRevenueRule c) (dec 750000000000 1)
  && eqb (Finance.maxAnnualDS c) (dec 80000000000 1)
  && (Finance.allowedDebt c <? Finance.maxDebtRevenueRule c)
  && String.eqb (Finance.binding c) binding_coverage = true.
Proof. vm_compute. reflexivity. Qed.

(** In its schedule the two grace years pay interest only, the later years
    pay principal, and the lowest coverage ratio is at least the floor. *)
Example scenario_schedule :
  let rows :=
    Finance.buildSchedule scenario
      (Finance.allowedDebt (Finance.computeCapacity scenario)) in
  forallb (fun r => eqb (principal r) zero
                    && eqb (debtService r) (interest r)) (firstn 2 rows)
  && forallb (fun r => principal r >? zero) (skipn 2 rows)
  && (dec 5 2 <=? minDSCR rows)
  && Nat.eqb (List.length rows) 10 = true.
Proof. vm_compute. reflexivity. Qed.

(** At a rate of -100% the present value is NaN and the engine returns an
    allowed debt of 0. *)
Example total_loss_rate_capacity :
  let c := Finance.computeCapacity total_loss_rate in
  isNaN (spec_pvAfterGrace (Finance.rate total_loss_rate)
           (Finance.termYears total_loss_rate)
           (Finance.graceYears total_loss_rate) (Finance.maxAnnualDS c))
  && eqb (Finance.dscrPV c) zero
  && eqb (Finance.allowedDebt c) zero = true.
Proof. vm_compute. reflexivity. Qed.

(** The ceiling 1,000 below the revenue rule. *)
Example near_statutory_capacity :
  let c := Finance.computeCapacity near_statutory in
  eqb (Finance.allowedDebt c) (dec 749999999000 1)
  && eqb (Finance.maxDebtRevenueRule c) (dec 750000000000 1)
  && negb (within_absolute_tolerance (Finance.allowedDebt c)
             (Finance.maxDebtRevenueRule c))
  && within_relative_tolerance (Finance.allowedDebt c)
       (Finance.maxDebtRevenueRule c) = true.
Proof. vm_compute. reflexivity. Qed.

(** A principal of -5: balances -5, 0, 0, ... and no principal paid. *)
Example negative_principal_schedule :
  let rows := Finance.buildSchedule scenario (dec (-5) 1) in
  match rows with
  | r1 :: r2 :: _ =>
      eqb (begBal r1) (dec (-5) 1) && eqb (principal r1) zero
      && eqb (begBal r2) zero
  | _ => false
  end = true.
Proof. vm_compute. reflexivity. Qed.

(** The ceiling of the scenario at a coverage floor of -1 and of 2.5. *)
Example negative_minDSCR_ceiling :
  eqb (ceiling (with_minDSCR scenario (dec (-1) 1))) zero
  && (zero <? ceiling (with_minDSCR scenario (dec 5 2))) = true.
Proof. vm_compute. reflexivity. Qed.

(** The first year of the loan at -5%: interest and debt service -5, no
    ratio. *)
Example negative_rate_first_year :
  match Finance.buildSchedule negative_rate (dec 100 1) with
  | r1 :: _ =>
      eqb (interest r1) (dec (-5) 1) && eqb (debtService r1) (dec (-5) 1)
      && match dscr r1 with None => true | Some _ => false end
  | [] => false
  end = true.
Proof. vm_compute. reflexivity. Qed.

(** The total operating expense with a NaN component is 5. *)
Example nan_component_opex :
  eqb (Variant.getTotalOpex nan_component) (dec 5 1) = true.
Proof. vm_compute. reflexivity. Qed.

(** The reducer on the infinite ratio and on the three rows. *)
Example reducer_values :
  eqb (minDSCR infinite_ratio_rows) zero
  && eqb (minDSCR three_rows) (dec 2 1)
  && eqb (minDSCR []) zero = true.
Proof. vm_compute. reflexivity. Qed.

(** On binary64 numbers, at the rate 1e-17, the present value of 100 a
    period over 10 periods is 0, and the level payment on it is NaN. *)
Example round_trip_at_absorbed_rate :
  PrimFloat.eqb
    (Binary64.pv absorbed_rate 10 (Binary64.of_Z 100) PrimFloat.zero
       PrimFloat.zero)
    PrimFloat.zero = true /\
  PrimFloat.is_nan
    (Binary64.pmt absorbed_rate 10
       (Binary64.pv absorbed_rate 10 (Binary64.of_Z 100) PrimFloat.zero
          PrimFloat.zero)
       PrimFloat.zero PrimFloat.zero) = true.
Proof. split; vm_compute; reflexivity. Qed.
